(** * remark-scoped-mdx: scoped renaming of MDX JSX flow elements

    A shallow embedding of [src/plugin.ts] (the remark transformer) and of
    [registry-adapter.ts] (the registry bridge and the hydrated-name
    expansion), with the properties of the rewrite engine proved about it.

    Conventions of the embedding.
    - A JavaScript object used as a string-keyed dictionary is the [gmap string _]
      of its own, enumerable data properties; it is a plain object, which
      inherits from an unmodified [Object.prototype].  Where the source reads
      [obj[key]] and acts on what it finds, the read is [get_property], which
      also finds the inherited properties; where it assigns [obj[key] = value]
      to an object it builds, the assignment adds no property at [__proto__]
      but replaces the prototype ([set_property], [assign_property]).  A
      props object, whose enumeration order is observable through
      [Object.entries], is the association list that [Object.entries]
      returns.
    - The document tree is mutated in place by the source.  A tree has no
      sharing, so a node object is identified by its position, and a function
      that mutates a subtree is a function from the subtree to the mutated
      subtree.  An exception leaves the mutations done so far in place: every
      stateful function returns the state it leaves behind together with its
      completion.
    - [unist-util-visit] and [estree-util-value-to-estree] are libraries. The
      first is modelled by [visit] from its documented behaviour (pre-order,
      [SKIP] prunes the children of the visited node); the second is a parameter
      of the development. *)

From Stdlib Require Import String Ascii List ZArith Lia.
From stdpp Require Import base option list gmap sets strings.

Set Warnings "-register-all".
Local Open Scope string_scope.
Local Open Scope list_scope.

(** ** JavaScript values and exceptions *)

(** [MdxPropValue = unknown]: any runtime value. *)
Inductive JsValue : Type :=
| JsUndefined
| JsNull
| JsBoolean (b : bool)
| JsNumber (n : Z)
| JsString (s : string)
| JsArray (items : list JsValue)
| JsObject (fields : list (string * JsValue))
| JsFunction (label : string).

Abbreviation MdxPropValue := JsValue (only parsing).

(** [propValue === true] *)
Definition is_true_value (v : JsValue) : bool :=
  match v with JsBoolean true => true | _ => false end.

(** [propValue === undefined] *)
Definition is_undefined (v : JsValue) : bool :=
  match v with JsUndefined => true | _ => false end.

(** What a [throw] carries: an [Error] instance with its message, or any
    other value. *)
Inductive Thrown : Type :=
| ThrownError (message : string)
| ThrownOther.

Inductive Result (A : Type) : Type :=
| Ok (a : A)
| Throw (e : Thrown).
Arguments Ok {A} a.
Arguments Throw {A} e.

(** An optional property of an object, told apart by [Object.hasOwn]:
    not declared, or declared with a value that may be [undefined]. *)
Inductive OwnProperty (A : Type) : Type :=
| NotDeclared
| Declared (v : option A).
Arguments NotDeclared {A}.
Arguments Declared {A} v.

Definition hasOwn {A} (p : OwnProperty A) : bool :=
  match p with NotDeclared => false | Declared _ => true end.

(** Reading the property: [undefined] when it is missing. *)
Definition read {A} (p : OwnProperty A) : option A :=
  match p with NotDeclared => None | Declared v => v end.

(** ** Plain objects *)

(** The names of the properties of [Object.prototype]: built-in functions,
    and the accessor [__proto__]. *)
Definition object_prototype_names : list string :=
  ["constructor"; "__defineGetter__"; "__defineSetter__"; "hasOwnProperty";
   "__lookupGetter__"; "__lookupSetter__"; "isPrototypeOf"; "propertyIsEnumerable";
   "toString"; "valueOf"; "__proto__"; "toLocaleString"].

(** What [obj[key]] finds: the own property, or the property inherited from
    [Object.prototype] (a function, or under [__proto__] the prototype
    itself: a truthy value that has none of the properties of this
    repository's records), or nothing ([undefined]). *)
Inductive PropertyLookup (A : Type) : Type :=
| FoundOwn (a : A)
| FoundInherited
| NotFound.
Arguments FoundOwn {A} a.
Arguments FoundInherited {A}.
Arguments NotFound {A}.

Definition get_property {A} (obj : gmap string A) (key : string) : PropertyLookup A :=
  match obj !! key with
  | Some a => FoundOwn a
  | None =>
      if bool_decide (key ∈ object_prototype_names) then FoundInherited else NotFound
  end.

(** [obj[key] = value], for an object that its function has created empty,
    fills by such assignments only and never reads.  At [__proto__] the
    assignment goes to the setter inherited from [Object.prototype]: it
    replaces the prototype of the object and adds no property. *)
Definition set_property {A} (obj : gmap string A) (key : string) (value : A)
  : gmap string A :=
  if bool_decide (key = "__proto__") then obj else <[ key := value ]> obj.

(** An object that a function builds and still reads or assigns to: the
    object by its own properties, or the fact that the function has replaced
    its prototype.  The objects of this development inherit from
    [Object.prototype]; with another prototype, what a later read finds and
    whether a later assignment adds a property (or throws, in strict code)
    depend on that prototype, and the object is not described further. *)
Inductive Built (A : Type) : Type :=
| Object (own : A)
| PrototypeReplaced.
Arguments Object {A} own.
Arguments PrototypeReplaced {A}.

(** [obj[key] = value] on such an object, for a value that is an object.  The
    assignment sets the own property; at [__proto__], when the object has no
    own property of that name, it goes to the setter inherited from
    [Object.prototype] and replaces the prototype. *)
Definition assign_property {A} (obj : gmap string A) (key : string) (value : A)
  : Built (gmap string A) :=
  if bool_decide (key = "__proto__") && bool_decide (obj !! key = None)
  then PrototypeReplaced
  else Object (<[ key := value ]> obj).

(** The [TypeError] of the engine (the text is V8's) for reading the property
    [name] of [undefined]. *)
Definition read_name_of_undefined : Thrown :=
  ThrownError "Cannot read properties of undefined (reading 'name')".

(** ** ESTree and the MDX JSX attribute nodes *)

Inductive Expression : Type :=
| Identifier (name : string)
| NullLiteral
| BooleanLiteral (b : bool)
| NumericLiteral (n : Z)
| StringLiteral (s : string)
| ArrayExpression (elements : list Expression)
| ObjectExpression (properties : list (string * Expression)).

Inductive Statement : Type :=
| ExpressionStatement (expression : Expression).

Record Program : Type := mkProgram {
  sourceType : string;
  body : list Statement
}.

(** [mdxJsxAttributeValueExpression]: [value] and [data.estree]. *)
Record MdxJsxAttributeValueExpression : Type := mkValueExpression {
  expr_value : string;
  expr_estree : Program
}.

(** The [value] of an [mdxJsxAttribute]: [null], a string, or an expression. *)
Inductive AttributeValue : Type :=
| ValueNull
| ValueString (s : string)
| ValueExpression (e : MdxJsxAttributeValueExpression).

Inductive Attribute : Type :=
| MdxJsxAttribute (name : string) (value : AttributeValue)
| MdxJsxExpressionAttribute (source : string).

(** ** The transform registry ([types.ts]) *)

Inductive ChildrenPolicy : Type := preserve | clear.

Record MdxRewriteOptions : Type := mkOptions {
  childrenPolicy : option ChildrenPolicy
}.

Record MdxComponent : Type := mkComponent {
  component_name : string;
  component_props : option (list (string * JsValue))
}.

Record MdxRenameTarget : Type := mkTarget {
  component : MdxComponent;
  transformOptions : option MdxRewriteOptions
}.

Record MdxTransformRule : Type := mkRule {
  renameFlow : OwnProperty (gmap string MdxRenameTarget)
}.

Abbreviation ScopedMdxTransformRegistry := (gmap string MdxTransformRule) (only parsing).

(** ** The document tree *)

(** A unist node: its [type], the fields the engine reads, and the [value]
    of a literal.  A node without a [children] field is a node with no
    children; [name] is [None] for [null] (a fragment) and for nodes that have
    no name. *)
Inductive Node : Type := mkNode {
  type : string;
  name : option string;
  attributes : list Attribute;
  children : list Node;
  value : option string
}.

Definition set_name (n : Node) (s : string) : Node :=
  mkNode (type n) (Some s) (attributes n) (children n) (value n).

Definition set_attributes (n : Node) (a : list Attribute) : Node :=
  mkNode (type n) (name n) a (children n) (value n).

Definition set_children (n : Node) (cs : list Node) : Node :=
  mkNode (type n) (name n) (attributes n) cs (value n).

Fixpoint height (n : Node) : nat :=
  match n with
  | mkNode _ _ _ cs _ => S (fold_right (fun c h => Nat.max (height c) h) 0 cs)
  end.

(** The position of a node below the root of a traversal: the child indices
    from the root down.  It stands for the identity of the node object. *)
Definition Path : Type := list nat.

Fixpoint node_at (n : Node) (p : Path) : option Node :=
  match p with
  | [] => Some n
  | i :: q =>
      match children n !! i with
      | Some c => node_at c q
      | None => None
      end
  end.

(** All positions of a tree, in document (pre-) order. *)
Fixpoint positions (n : Node) : list Path :=
  match n with
  | mkNode _ _ _ cs _ =>
      [] :: (fix over (i : nat) (l : list Node) : list Path :=
               match l with
               | [] => []
               | c :: l' => fmap (cons i) (positions c) ++ over (S i) l'
               end) 0 cs
  end.

(** The positions of the nodes of a children list whose first index is
    [i]. *)
Fixpoint positions_from (i : nat) (l : list Node) : list Path :=
  match l with
  | [] => []
  | c :: l' => fmap (cons i) (positions c) ++ positions_from (S i) l'
  end.

(** The height of the tallest node of a children list. *)
Definition max_height (l : list Node) : nat :=
  fold_right (fun c h => Nat.max (height c) h) 0 l.

(** [below P n q]: on the way from [n] down to position [q], some node
    strictly above the position (possibly [n] itself) satisfies [P]. *)
Fixpoint below (P : Node -> bool) (n : Node) (q : Path) : bool :=
  match q with
  | [] => false
  | i :: q' =>
      P n || match children n !! i with
             | Some c => below P c q'
             | None => false
             end
  end.

(** The fields of the node object itself; its children list is a list of
    references, represented by its length. *)
Definition own_fields (n : Node)
  : string * option string * list Attribute * nat * option string :=
  (type n, name n, attributes n, length (children n), value n).

(** ** [unist-util-visit] *)

(** What a visitor returns, as far as the engine uses it: nothing
    ([undefined], the traversal continues into the children) or [SKIP]. *)
Inductive Control : Type := CONTINUE | SKIP.

(** How a traversal or a visitor completes.  [Exhausted] does not exist in
    the source: it is the answer of the model when the recursion budget of
    [visit_fuel] is used up, and [visit] never gives it for the visitors of
    this plugin (see [remarkScopedMdx_terminates]). *)
Inductive Completion (A : Type) : Type :=
| Returned (a : A)
| Threw (e : Thrown)
| Exhausted.
Arguments Returned {A} a.
Arguments Threw {A} e.
Arguments Exhausted {A}.

(** One rename: a call of [applyFlowRename] with a rename target, which
    assigns the name of the element.  It is given by the position of the
    element, relative to the node the trace belongs to, and the target
    applied. *)
Definition Rename : Type := Path * MdxRenameTarget.

Definition shift {A} (i : nat) (l : list (Path * A)) : list (Path * A) :=
  fmap (fun e : Path * A => (i :: e.1, e.2)) l.

(** The effect of a visitor on the node it is called with: the node as the
    visitor leaves it, the renames it applied beneath (or at) the node, and
    its completion. *)
Record VisitorResult : Type := mkVisitorResult {
  v_node : Node;
  v_renamed : list Rename;
  v_completion : Completion Control
}.

(** A visitor receives the node and its position below the root of the
    traversal (the source receives the node object, its index and its
    parent). *)
Definition Visitor : Type := Path -> Node -> VisitorResult.

(** The effect of a traversal on the subtree it walks: the subtree as it is
    left, the positions visited (in order), the renames applied, and
    the completion. *)
Record VisitResult : Type := mkVisitResult {
  r_node : Node;
  r_visited : list Path;
  r_renamed : list Rename;
  r_completion : Completion unit
}.

(** The effect of the loop over the children of a node. *)
Record LoopResult : Type := mkLoopResult {
  l_nodes : list Node;
  l_visited : list Path;
  l_renamed : list Rename;
  l_completion : Completion unit
}.

(** The loop over [node.children]: the children are walked from left to
    right; an exception stops the loop and leaves the later children as they
    are. *)
Fixpoint visit_children (go : Path -> Node -> VisitResult) (p : Path)
  (offset : nat) (cs : list Node) : LoopResult :=
  match cs with
  | [] => mkLoopResult [] [] [] (Returned tt)
  | child :: rest =>
      let r := go (p ++ [offset]) child in
      match r_completion r with
      | Returned _ =>
          let l := visit_children go p (S offset) rest in
          mkLoopResult (r_node r :: l_nodes l)
                       (fmap (cons offset) (r_visited r) ++ l_visited l)
                       (shift offset (r_renamed r) ++ l_renamed l)
                       (l_completion l)
      | c =>
          mkLoopResult (r_node r :: rest)
                       (fmap (cons offset) (r_visited r))
                       (shift offset (r_renamed r))
                       c
      end
  end.

(** [visit(tree, test, visitor)] with a recursion budget: the node is tested,
    the visitor is called when the test passes, and unless it returned [SKIP]
    the children the node has after the call are walked. *)
Fixpoint visit_fuel (fuel : nat) (test : Node -> bool) (visitor : Visitor)
  (p : Path) (node : Node) : VisitResult :=
  match fuel with
  | O => mkVisitResult node [] [] Exhausted
  | S fuel' =>
      let vr := if test node then visitor p node
                else mkVisitorResult node [] (Returned CONTINUE) in
      match v_completion vr with
      | Returned CONTINUE =>
          let l := visit_children (visit_fuel fuel' test visitor) p 0
                                  (children (v_node vr)) in
          mkVisitResult (set_children (v_node vr) (l_nodes l)) ([] :: l_visited l)
                        (v_renamed vr ++ l_renamed l) (l_completion l)
      | Returned SKIP => mkVisitResult (v_node vr) [[]] (v_renamed vr) (Returned tt)
      | Threw e => mkVisitResult (v_node vr) [[]] (v_renamed vr) (Threw e)
      | Exhausted => mkVisitResult (v_node vr) [[]] (v_renamed vr) Exhausted
      end
  end.

(** The traversal of a tree: its height bounds the depth of the recursion as
    long as the visitor adds no levels to the tree. *)
Definition visit (tree : Node) (test : Node -> bool) (visitor : Visitor) : VisitResult :=
  visit_fuel (height tree) test visitor [] tree.

(** ** [plugin.ts]: attributes *)

Definition isNamedMdxJsxFlowElement (node : Node) : bool :=
  bool_decide (type node = "mdxJsxFlowElement") && bool_decide (is_Some (name node)).

Definition dquote : string := String "034" EmptyString.

Definition serialization_message (propName message : string) : string :=
  "Failed to serialize MDX prop " +:+ dquote +:+ propName +:+ dquote
  +:+ " into an attribute expression: " +:+ message.

Section Engine.

(** [valueToEstree] of [estree-util-value-to-estree]: the expression of a
    value, or the exception it throws. *)
Variable valueToEstree : JsValue -> Result Expression.

Definition createAttributeValueExpression (value : MdxPropValue)
  : Result MdxJsxAttributeValueExpression :=
  match valueToEstree value with
  | Throw e => Throw e
  | Ok expression =>
      Ok {| expr_value := EmptyString;
            expr_estree := {| sourceType := "module";
                              body := [ExpressionStatement expression] |} |}
  end.

Definition toMdxAttribute (propName : string) (propValue : MdxPropValue)
  : Result Attribute :=
  if is_true_value propValue then Ok (MdxJsxAttribute propName ValueNull)
  else
    match createAttributeValueExpression propValue with
    | Ok v => Ok (MdxJsxAttribute propName (ValueExpression v))
    | Throw error =>
        let message :=
          match error with
          | ThrownError m => m
          | ThrownOther => "Unknown serialization error"
          end in
        Throw (ThrownError (serialization_message propName message))
    end.

(** The loop of [buildAttributes] over [Object.entries(props)]. *)
Fixpoint buildAttributes_loop (entries : list (string * JsValue))
  (attributes : list Attribute) : Result (list Attribute) :=
  match entries with
  | [] => Ok attributes
  | (propName, propValue) :: rest =>
      if is_undefined propValue then buildAttributes_loop rest attributes
      else
        match toMdxAttribute propName propValue with
        | Throw e => Throw e
        | Ok a => buildAttributes_loop rest (attributes ++ [a])
        end
  end.

Definition buildAttributes (props : option (list (string * JsValue)))
  : Result (list Attribute) :=
  match props with
  | None => Ok []
  | Some entries => buildAttributes_loop entries []
  end.

(** [target.transformOptions?.childrenPolicy] *)
Definition declaredPolicy (target : MdxRenameTarget) : option ChildrenPolicy :=
  transformOptions target ≫= childrenPolicy.

(** [target.transformOptions?.childrenPolicy === 'clear'] *)
Definition policy_is_clear (target : MdxRenameTarget) : bool :=
  match declaredPolicy target with
  | Some clear => true
  | _ => false
  end.

(** [applyFlowRename] mutates [element]: the result is the element as the call
    leaves it, and how the call completed.  The name is assigned before the
    attributes are built, so it stays assigned when building them throws. *)
Definition applyFlowRename (element : Node) (target : MdxRenameTarget)
  : Node * Result unit :=
  let element := set_name element (component_name (component target)) in
  match buildAttributes (component_props (component target)) with
  | Throw e => (element, Throw e)
  | Ok attrs =>
      let element := set_attributes element attrs in
      if policy_is_clear target
      then (set_children element [], Ok tt)
      else (element, Ok tt)
  end.

(** ** [plugin.ts]: the two traversals *)

(** The set built by the loop of [shouldProcessScope] over
    [Object.entries(registry)]. *)
Definition activeScopeNames (registry : ScopedMdxTransformRegistry) : gset string :=
  foldl (fun (acc : gset string) (entry : string * MdxTransformRule) =>
           if hasOwn (renameFlow entry.2) then acc ∪ {[ entry.1 ]} else acc)
        ∅ (map_to_list registry).

Definition shouldProcessScope (registry : ScopedMdxTransformRegistry) : Node -> bool :=
  let activeScopeNames := activeScopeNames registry in
  fun node =>
    if negb (isNamedMdxJsxFlowElement node) then false
    else
      match name node with
      | Some n => bool_decide (n ∈ activeScopeNames)
      | None => false
      end.

(** The callback of the inner [visit] of [createScopeVisitor].  The test
    [element === scopeElement] compares node objects: the only position at
    which the traversal meets its own root is the empty one.
    [renameFlow[element.name]] also finds what the rename map inherits; with
    such a value [applyFlowRename] reads [target.component], which is
    [undefined], and throws on [target.component.name] before it assigns
    anything. *)
Definition renameVisitor (renameFlow : gmap string MdxRenameTarget)
  (scopeComponentNames : gset string) : Visitor :=
  fun p element =>
    if bool_decide (p = []) then mkVisitorResult element [] (Returned CONTINUE)
    else
      match name element with
      | None => mkVisitorResult element [] (Returned CONTINUE)
      | Some n =>
          if bool_decide (n ∈ scopeComponentNames)
          then mkVisitorResult element [] (Returned SKIP)
          else
            match get_property renameFlow n with
            | NotFound => mkVisitorResult element [] (Returned CONTINUE)
            | FoundOwn renameTarget =>
                match applyFlowRename element renameTarget with
                | (element', Ok _) =>
                    mkVisitorResult element' [([], renameTarget)] (Returned CONTINUE)
                | (element', Throw e) =>
                    mkVisitorResult element' [([], renameTarget)] (Threw e)
                end
            | FoundInherited =>
                mkVisitorResult element [] (Threw read_name_of_undefined)
            end
      end.

(** [registry[scopeElement.name]?.renameFlow]: under a name that is no own
    key the registry has nothing or an inherited value, which has no
    [renameFlow]; in both cases the visitor returns. *)
Definition createScopeVisitor (registry : ScopedMdxTransformRegistry)
  (scopeComponentNames : gset string) : Visitor :=
  fun _ scopeElement =>
    let scopeRule := name scopeElement ≫= (registry !!.) in
    let renameFlow := scopeRule ≫= (fun rule => read (renameFlow rule)) in
    match renameFlow with
    | None => mkVisitorResult scopeElement [] (Returned CONTINUE)
    | Some renameFlow =>
        let r := visit scopeElement isNamedMdxJsxFlowElement
                       (renameVisitor renameFlow scopeComponentNames) in
        mkVisitorResult (r_node r) (r_renamed r)
          match r_completion r with
          | Returned _ => Returned CONTINUE
          | Threw e => Threw e
          | Exhausted => Exhausted
          end
    end.

(** [Object.keys(registry)] as a set. *)
Definition scopeComponentNames (registry : ScopedMdxTransformRegistry) : gset string :=
  dom registry.

(** The transformer returned by the plugin, applied to a tree. *)
Definition remarkScopedMdx (registry : ScopedMdxTransformRegistry) (tree : Node)
  : VisitResult :=
  let scopeComponentNames := scopeComponentNames registry in
  let visitor := createScopeVisitor registry scopeComponentNames in
  visit tree (shouldProcessScope registry) visitor.

End Engine.

(** ** [registry-adapter.ts] *)

Record ComponentDefinition : Type := mkDefinition {
  mdxTransform : option MdxTransformRule
}.

Abbreviation TransformAwareRegistry := (gmap string ComponentDefinition) (only parsing).

(** The registry is created empty and filled by [registry[componentName] = rule].
    For the name [__proto__] this replaces the prototype of the registry by
    the rule; the plugin reads the registry through [Object.entries],
    [Object.keys] and, in the scope visitor, [registry[name]] for the name of
    an element that [shouldProcessScope] has accepted, hence an own key: it
    never reads through the prototype. *)
Definition deriveMdxTransformRegistry (componentDefinitions : TransformAwareRegistry)
  : ScopedMdxTransformRegistry :=
  foldl (fun (registry : gmap string MdxTransformRule)
             (entry : string * ComponentDefinition) =>
           match mdxTransform entry.2 with
           | Some rule => set_property registry entry.1 rule
           | None => registry
           end)
        ∅ (map_to_list componentDefinitions).

(** [addRenameFlowTargets] mutates the accumulator [expanded]; the result is
    the accumulator after the call. *)
Definition addRenameFlowTargets (expanded : gset string)
  (renameFlow : option (gmap string MdxRenameTarget)) : gset string :=
  match renameFlow with
  | None => expanded
  | Some renameFlow =>
      let renameTargets := (map_to_list renameFlow).*2 in
      foldl (fun (expanded : gset string) (target : MdxRenameTarget) =>
               expanded ∪ {[ component_name (component target) ]})
            expanded renameTargets
  end.

(** [componentDefinitions[componentName]] under a name that is no own key is
    [undefined] or an inherited value, which has no [mdxTransform]: in both
    cases the loop continues. *)
Definition expandHydratedComponentNames (componentNames : gset string)
  (componentDefinitions : TransformAwareRegistry) : gset string :=
  foldl (fun (expanded : gset string) (componentName : string) =>
           match componentDefinitions !! componentName with
           | None => expanded
           | Some componentDefinition =>
               match mdxTransform componentDefinition with
               | None => expanded
               | Some rule => addRenameFlowTargets expanded (read (renameFlow rule))
               end
           end)
        componentNames (elements componentNames).

(** ** A reference encoder

    An instance of the parameter [valueToEstree], after
    [estree-util-value-to-estree]: data values are encoded structurally, a
    function is rejected with a [TypeError]. It is used to run the engine on
    concrete documents. *)
Fixpoint referenceValueToEstree (v : JsValue) : Result Expression :=
  match v with
  | JsUndefined => Ok (Identifier "undefined")
  | JsNull => Ok NullLiteral
  | JsBoolean b => Ok (BooleanLiteral b)
  | JsNumber n => Ok (NumericLiteral n)
  | JsString s => Ok (StringLiteral s)
  | JsArray items =>
      match
        (fix all (l : list JsValue) : Result (list Expression) :=
           match l with
           | [] => Ok []
           | x :: l' =>
               match referenceValueToEstree x with
               | Throw e => Throw e
               | Ok ex =>
                   match all l' with
                   | Throw e => Throw e
                   | Ok el => Ok (ex :: el)
                   end
               end
           end) items
      with
      | Throw e => Throw e
      | Ok elements => Ok (ArrayExpression elements)
      end
  | JsObject fields =>
      match
        (fix all (l : list (string * JsValue)) : Result (list (string * Expression)) :=
           match l with
           | [] => Ok []
           | (k, x) :: l' =>
               match referenceValueToEstree x with
               | Throw e => Throw e
               | Ok ex =>
                   match all l' with
                   | Throw e => Throw e
                   | Ok el => Ok ((k, ex) :: el)
                   end
               end
           end) fields
      with
      | Throw e => Throw e
      | Ok properties => Ok (ObjectExpression properties)
      end
  | JsFunction label => Throw (ThrownError ("Unsupported value: " +:+ label))
  end.

(** Building blocks of concrete documents and registries. *)
Definition flow (tag : string) (cs : list Node) : Node :=
  mkNode "mdxJsxFlowElement" (Some tag) [] cs None.

Definition root (cs : list Node) : Node := mkNode "root" None [] cs None.

Definition text (content : string) : Node := mkNode "text" None [] [] (Some content).

Definition renameTo (tag : string) : MdxRenameTarget :=
  mkTarget (mkComponent tag None) None.

Definition scopeRule (rules : list (string * MdxRenameTarget)) : MdxTransformRule :=
  mkRule (Declared (Some (list_to_map rules))).

(** ** [mdx/type-utils.ts] *)

(** [Object.keys(obj)]: the own string keys of the object, each once. *)
Definition stringKeysOf {A} (obj : gmap string A) : list string :=
  (map_to_list obj).*1.

Definition filterAllowedIds (ids : list string) (allowed : gset string) : list string :=
  filter (fun id => id ∈ allowed) ids.

(** ** [mdx/loadable/loader.ts] *)

Record PreparedRegistry (Entry : Type) : Type := mkPreparedRegistry {
  prepared_registry : gmap string Entry;
  prepared_keys : list string
}.
Arguments mkPreparedRegistry {Entry} _ _.
Arguments prepared_registry {Entry} _.
Arguments prepared_keys {Entry} _.

Section Loader.

(** The registry entries, the renderable components, and the resolution
    strategy given to [createLoaderUtils], a function that returns on every
    value it is called with.  It is also called with what the registry
    object inherits under a requested id, a value that is no entry of the
    registry: [resolveInherited id] is what it returns then. *)
Context {Entry Component : Type}.
Variable resolveEntry : Entry -> Component.
Variable resolveInherited : string -> Component.

Definition createComponentSet (registry : gmap string Entry) : PreparedRegistry Entry :=
  {| prepared_registry := registry; prepared_keys := stringKeysOf registry |}.

(** One step of the loop of [getLoadableComponents].  [components[id]] is
    truthy when it finds an entry or an inherited value.  A component is a
    function or a class, hence an object: [resolved[id] = component] at
    [__proto__] replaces the prototype of [resolved] by a function, whose
    read-only properties ([name], [length]) make a later assignment throw. *)
Definition loadComponent (components : gmap string Entry)
  (resolved : Built (gmap string Component)) (id : string)
  : Built (gmap string Component) :=
  match resolved with
  | PrototypeReplaced => PrototypeReplaced
  | Object resolved =>
      match get_property components id with
      | NotFound => Object resolved
      | FoundOwn entry =>
          let component := resolveEntry entry in
          assign_property resolved id component
      | FoundInherited =>
          let component := resolveInherited id in
          assign_property resolved id component
      end
  end.

(** [componentIds] defaults to the empty array when it is not given. *)
Definition getLoadableComponents (components : gmap string Entry)
  (componentIds : option (list string)) : Built (gmap string Component) :=
  foldl (loadComponent components) (Object ∅) (default [] componentIds).

Definition getLoadableComponentsFromSet (preparedSet : PreparedRegistry Entry)
  (allowed : gset string) : Built (gmap string Component) :=
  let registry := prepared_registry preparedSet in
  let keys := prepared_keys preparedSet in
  let included := filterAllowedIds keys allowed in
  getLoadableComponents registry (Some included).

End Loader.

(** ** [authoring/operations.ts], [authoring/orchestrator.ts] *)

Record MdxOperations : Type := mkOperations {
  op_to : MdxRenameTarget -> MdxRenameTarget;
  op_flow : gmap string MdxRenameTarget -> MdxTransformRule;
  op_transform : MdxTransformRule -> MdxTransformRule
}.

Definition getMdxOperations : MdxOperations :=
  {| op_to := fun target => target;
     op_flow := fun renameTargetsByTag => mkRule (Declared (Some renameTargetsByTag));
     op_transform := fun rule => rule |}.

Definition bindLayer {NextContext Input Output : Type} (nextContext : NextContext)
  (operation : Input -> Output) : (NextContext -> Input) -> Output :=
  fun defineLayer =>
    let input := defineLayer nextContext in
    operation input.

(** The three nested authoring contexts: [to], [flow] and [transform]. *)
Record ToContext : Type := mkToContext {
  ctx_to : MdxRenameTarget -> MdxRenameTarget
}.

Record FlowContext : Type := mkFlowContext {
  ctx_flow : (ToContext -> gmap string MdxRenameTarget) -> MdxTransformRule
}.

Record TransformContext : Type := mkTransformContext {
  ctx_transform : (FlowContext -> MdxTransformRule) -> MdxTransformRule
}.

Definition createTransformContext : TransformContext :=
  let ops := getMdxOperations in
  let toContext := {| ctx_to := op_to ops |} in
  let flowContext := {| ctx_flow := bindLayer toContext (op_flow ops) |} in
  let transformContext := {| ctx_transform := bindLayer flowContext (op_transform ops) |} in
  transformContext.

(** ** [authoring/define-components.ts] *)

(** A registry entry as the authoring layer sees it: the [mdxTransform]
    property and the other own properties, which it only copies. *)
Record AuthoredEntry : Type := mkAuthoredEntry {
  entry_fields : gmap string JsValue;
  entry_mdxTransform : option MdxTransformRule
}.

(** [{ ...entry, mdxTransform: rule }], where [entry] may be [undefined]. *)
Definition withMdxTransform (entry : option AuthoredEntry) (rule : MdxTransformRule)
  : AuthoredEntry :=
  {| entry_fields := match entry with
                     | Some e => entry_fields e
                     | None => ∅
                     end;
     entry_mdxTransform := Some rule |}.

(** One step of the loop of [defineComponents].  The copy of the registry
    has the own properties of the registry, [__proto__] included when the
    registry has it (the spread defines properties).
    [registryWithTransforms[componentKey]] under a key that is no own
    property is [undefined] or a value inherited from [Object.prototype],
    which has no enumerable own property: spreading it adds nothing.  The
    assignment at [__proto__] updates the own property when there is one;
    otherwise it goes to the inherited setter and replaces the prototype. *)
Definition attachTransform (transformMap : gmap string (option MdxTransformRule))
  (copy : Built (gmap string AuthoredEntry)) (componentKey : string)
  : Built (gmap string AuthoredEntry) :=
  match copy with
  | PrototypeReplaced => PrototypeReplaced
  | Object registryWithTransforms =>
      match transformMap !! componentKey with
      | Some (Some rule) =>
          assign_property registryWithTransforms componentKey
            (withMdxTransform (registryWithTransforms !! componentKey) rule)
      | _ => Object registryWithTransforms
      end
  end.

(** The transform map is partial: a key may be present with the value
    [undefined]. *)
Definition defineComponents (registry : gmap string AuthoredEntry)
  (buildTransforms : option (TransformContext -> gmap string (option MdxTransformRule)))
  : Built (gmap string AuthoredEntry) :=
  match buildTransforms with
  | None => Object registry
  | Some buildTransforms =>
      let transformBuilder := createTransformContext in
      let transformMap := buildTransforms transformBuilder in
      let transformKeys := stringKeysOf transformMap in
      foldl (attachTransform transformMap) (Object registry) transformKeys
  end.

(** An authored registry read through [TransformAwareRegistry], the
    structural type that keeps the [mdxTransform] property only. *)
Definition transformAware (registry : gmap string AuthoredEntry)
  : gmap string ComponentDefinition :=
  (fun entry => mkDefinition (entry_mdxTransform entry)) <$> registry.

(** ** Vocabulary of the properties *)

(** The names one component adds: the targets of its own rename map. *)
Definition introduced_by (componentDefinitions : gmap string ComponentDefinition)
  (componentName x : string) : Prop :=
  exists componentDefinition rule m source target,
    componentDefinitions !! componentName = Some componentDefinition
    /\ mdxTransform componentDefinition = Some rule
    /\ read (renameFlow rule) = Some m
    /\ m !! source = Some target
    /\ component_name (component target) = x.

(** A flow element with tag name [tag]. *)
Definition is_flow_named (tag : string) (n : Node) : bool :=
  isNamedMdxJsxFlowElement n && bool_decide (name n = Some tag).

(** [rf] is the rename map that the registry declares for scope [scope]. *)
Definition rename_map_of (registry : gmap string MdxTransformRule)
  (scope : string) (rf : gmap string MdxRenameTarget) : Prop :=
  exists rule, registry !! scope = Some rule /\ read (renameFlow rule) = Some rf.

(** A property of every rewrite target of every declared rename map, as a
    proposition and as a check that runs. *)
Definition every_target (registry : gmap string MdxTransformRule)
  (ok : string -> string -> MdxRenameTarget -> Prop) : Prop :=
  forall scope rf source target,
    rename_map_of registry scope rf -> rf !! source = Some target ->
    ok scope source target.

Definition every_target_check (registry : gmap string MdxTransformRule)
  (ok : string -> string -> MdxRenameTarget -> bool) : bool :=
  forallb (fun entry : string * MdxTransformRule =>
             match read (renameFlow entry.2) with
             | None => true
             | Some rf =>
                 forallb (fun rule : string * MdxRenameTarget =>
                            ok entry.1 rule.1 rule.2)
                         (map_to_list rf)
             end)
          (map_to_list registry).

(** Tag [T] is a source key of the rename map of scope [S] only. *)
Definition renamed_only_under (registry : gmap string MdxTransformRule)
  (T S : string) : Prop :=
  every_target registry (fun scope source _ => source = T -> scope = S).

(** No rewrite target has tag name [S]. *)
Definition no_target_named (registry : gmap string MdxTransformRule)
  (S : string) : Prop :=
  every_target registry (fun _ _ target => component_name (component target) <> S).

(** No rewrite target has the tag name of a scope that declares a rename
    map. *)
Definition no_target_is_scope (registry : gmap string MdxTransformRule) : Prop :=
  every_target registry
    (fun _ _ target => component_name (component target) ∉ activeScopeNames registry).

(** [q0] is a position strictly above [q]. *)
Definition strictly_above (q0 q : Path) : Prop :=
  exists i rest, q = q0 ++ i :: rest.

(** A prop value that [buildAttributes] handles without an exception: it is
    skipped, or it is [true], or the encoder accepts it. *)
Definition encodable (valueToEstree : JsValue -> Result Expression) (v : JsValue) : Prop :=
  is_undefined v = true \/ is_true_value v = true
  \/ exists expression, valueToEstree v = Ok expression.

(** A flow element with a tag name that is not a key of the registry. *)
Definition renamable (registry : gmap string MdxTransformRule) (n : Node) : bool :=
  isNamedMdxJsxFlowElement n
  && match name n with
     | Some k => bool_decide (registry !! k = None)
     | None => false
     end.

(** A flow element with a tag name that is a key of the registry: a boundary
    of the inner traversal. *)
Definition is_boundary (registry : gmap string MdxTransformRule) (n : Node) : bool :=
  isNamedMdxJsxFlowElement n
  && match name n with
     | Some k => bool_decide (is_Some (registry !! k))
     | None => false
     end.

(** The names of the named nodes of a tree, in document order. *)
Fixpoint tag_names (n : Node) : list string :=
  match n with
  | mkNode _ nm _ cs _ =>
      match nm with Some k => [k] | None => [] end
      ++ (fix over (l : list Node) : list string :=
            match l with
            | [] => []
            | c :: l' => tag_names c ++ over l'
            end) cs
  end.

(** No lookup in a rename map finds the tag name of a rewrite target: the
    name is no source key of any rename map and no property name of
    [Object.prototype]. *)
Definition no_target_is_found (registry : gmap string MdxTransformRule) : Prop :=
  every_target registry
    (fun _ _ target =>
       (component_name (component target) ∉ object_prototype_names)
       /\ every_target registry
            (fun _ source _ => source <> component_name (component target))).

(** The message that the catch block of [toMdxAttribute] takes from what was
    thrown. *)
Definition message_of (error : Thrown) : string :=
  match error with
  | ThrownError m => m
  | ThrownOther => "Unknown serialization error"
  end.

(** ** Concrete documents and registries *)

(** A registry key whose rule declares no [renameFlow]. *)
Definition registry_undeclared : gmap string MdxTransformRule :=
  {[ "Card" := mkRule NotDeclared ]}.

(** Scenario 1 of the specification: [mark] becomes [Blank] and loses its
    children. *)
Definition registry_blank : gmap string MdxTransformRule :=
  {[ "Scope" :=
       scopeRule [("mark", mkTarget (mkComponent "Blank" (Some []))
                                    (Some (mkOptions (Some clear))))] ]}.

Definition tree_blank : Node :=
  root [flow "Scope" [flow "mark" [text "a"; text "b"]]].

(** Scenario 2 of the specification: [para] becomes [Note] and keeps its
    children. *)
Definition registry_note : gmap string MdxTransformRule :=
  {[ "Scope" :=
       scopeRule [("para", mkTarget (mkComponent "Note" (Some [("tone", JsString "info")]))
                                    None)] ]}.

Definition tree_note : Node := root [flow "Scope" [flow "para" [text "Hello"]]].

(** Scenario 3 of the specification: a scope nested in a scope. *)
Definition registry_nested : gmap string MdxTransformRule :=
  list_to_map [("Outer", scopeRule [("para", renameTo "A")]);
               ("Inner", scopeRule [("para", renameTo "B")])].

Definition inner_scope : Node := flow "Inner" [flow "para" []].

Definition outer_scope : Node := flow "Outer" [flow "para" [text "Hello"]; inner_scope].

Definition tree_nested : Node := root [outer_scope].




(** The same tag inside and outside a scope. *)
Definition tree_outside : Node :=
  root [flow "mark" [text "kept"]; flow "Scope" [flow "mark" [text "dropped"]]].

Definition target_blank : MdxRenameTarget :=
  mkTarget (mkComponent "Blank" (Some [])) (Some (mkOptions (Some clear))).

Definition target_note : MdxRenameTarget :=
  mkTarget (mkComponent "Note" (Some [("tone", JsString "info"); ("open", JsBoolean true)]))
           (Some (mkOptions (Some preserve))).

Definition element_mark : Node :=
  mkNode "mdxJsxFlowElement" (Some "mark")
         [MdxJsxAttribute "id" (ValueString "m1")] [text "a"; text "b"] None.

(** A scope whose rename produces the tag of another scope. *)
Definition registry_retarget : gmap string MdxTransformRule :=
  list_to_map [("Timeline", scopeRule [("br", renameTo "Blank")]);
               ("Panel", scopeRule [("slot", renameTo "Timeline")])].

Definition tree_retarget : Node :=
  root [flow "Panel" [flow "slot" [flow "br" []]]].

(** A scope whose renames produce the tag of another scope and a source key
    of that scope. *)
Definition registry_chain : gmap string MdxTransformRule :=
  list_to_map [("Article", scopeRule [("section", renameTo "Card");
                                      ("para", renameTo "line")]);
               ("Card", scopeRule [("line", renameTo "CardLine")])].

Definition tree_chain : Node :=
  root [flow "Article" [flow "section" [flow "para" []]]].

(** The authoring registry from which [registry_chain] is derived, and the
    tag names that occur in [tree_chain]. *)
Definition definitions_chain : gmap string ComponentDefinition :=
  list_to_map
    [("Article", mkDefinition (Some (scopeRule [("section", renameTo "Card");
                                                ("para", renameTo "line")])));
     ("Card", mkDefinition (Some (scopeRule [("line", renameTo "CardLine")])));
     ("CardLine", mkDefinition None)].

Definition names_chain : gset string := {[ "Article"; "section"; "para" ]}.

(** A document without scope elements. *)
Definition tree_plain : Node :=
  root [flow "para" [text "Hello"]; text "bye"].

(** Props with a skipped entry and a flag. *)
Definition props_mixed : list (string * JsValue) :=
  [("tone", JsString "info"); ("hidden", JsUndefined); ("open", JsBoolean true)].

(** The authoring registry from which [registry_nested] is derived, and the
    tag names of [tree_nested]. *)
Definition definitions_nested : gmap string ComponentDefinition :=
  list_to_map
    [("Outer", mkDefinition (Some (scopeRule [("para", renameTo "A")])));
     ("Inner", mkDefinition (Some (scopeRule [("para", renameTo "B")])));
     ("A", mkDefinition None);
     ("B", mkDefinition None)].

Definition names_nested : gset string := {[ "Outer"; "Inner"; "para" ]}.

(** An authored registry and a transform builder for it. *)
Definition registry_authored : gmap string AuthoredEntry :=
  list_to_map
    [("Scope", mkAuthoredEntry {[ "component" := JsFunction "Scope" ]} None);
     ("Blank", mkAuthoredEntry {[ "component" := JsFunction "Blank" ]} None)].

Definition author_blank (context : ToContext) : gmap string MdxRenameTarget :=
  {[ "br" := ctx_to context (renameTo "Blank") ]}.

Definition build_authored (mdx : TransformContext)
  : gmap string (option MdxTransformRule) :=
  {[ "Scope" := Some (ctx_transform mdx (fun context => ctx_flow context author_blank)) ]}.

(** The loadable registry of the components of [definitions_nested]: every
    entry is the path of its module, and resolving an entry wraps the
    path; an inherited value has no module. *)
Definition loadable_nested : gmap string string :=
  list_to_map [("Outer", "./outer"); ("Inner", "./inner"); ("A", "./a"); ("B", "./b")].

Definition resolve_path (path : string) : string := "dynamic:" +:+ path.

Definition resolve_inherited (name : string) : string := "undefined".

(** The components loaded for the expanded names of [tree_nested]. *)
Definition loaded_nested : gmap string string :=
  list_to_map [("Outer", "dynamic:./outer"); ("Inner", "dynamic:./inner");
               ("A", "dynamic:./a"); ("B", "dynamic:./b")].

(** An element inside a scope whose tag is a property name of
    [Object.prototype] and no key of the rename map. *)
Definition tree_inherited : Node :=
  root [flow "Scope" [flow "constructor" [flow "mark" []]; flow "mark" []]].

(** A component registry with a definition named [__proto__]. *)
Definition definitions_proto : gmap string ComponentDefinition :=
  list_to_map
    [("__proto__", mkDefinition (Some (scopeRule [("mark", renameTo "Blank")])));
     ("Scope", mkDefinition (Some (scopeRule [("mark", renameTo "Blank")])))].

(** The authored registry after [build_authored] has been attached. *)
Definition registry_defined : gmap string AuthoredEntry :=
  list_to_map
    [("Scope",
      mkAuthoredEntry {[ "component" := JsFunction "Scope" ]}
        (Some (mkRule (Declared (Some {[ "br" := renameTo "Blank" ]})))));
     ("Blank", mkAuthoredEntry {[ "component" := JsFunction "Blank" ]} None)].

(** A transform builder with a rule for [__proto__]. *)
Definition build_proto (mdx : TransformContext)
  : gmap string (option MdxTransformRule) :=
  {[ "__proto__" :=
       Some (ctx_transform mdx (fun context => ctx_flow context author_blank)) ]}.

(** * Properties *)

(** ** Attributes and the rename applier *)

Section AttributeProperties.

Variable valueToEstree : JsValue -> Result Expression.

Lemma is_true_value_spec (v : JsValue) :
  is_true_value v = true <-> v = JsBoolean true.
Proof.
  split.
  - destruct v as [| |[|]| | | | |]; simpl; intros H; congruence.
  - intros ->. reflexivity.
Qed.

(** C7. A value that is exactly [true] gives a presence-only attribute
    ([value: null]), hence never an expression-form value; any other value,
    when the encoder accepts it, gives the expression-form value that wraps
    the encoder's expression in a one-statement program. *)
Theorem boolean_fast_path (propName : string) (propValue : JsValue) :
  (propValue = JsBoolean true ->
     toMdxAttribute valueToEstree propName propValue
     = Ok (MdxJsxAttribute propName ValueNull))
  /\ (propValue <> JsBoolean true ->
      forall expression, valueToEstree propValue = Ok expression ->
        toMdxAttribute valueToEstree propName propValue
        = Ok (MdxJsxAttribute propName
                (ValueExpression
                   (mkValueExpression EmptyString
                      (mkProgram "module" [ExpressionStatement expression]))))).
Proof.
  split.
  - intros ->. reflexivity.
  - intros Hne expression Henc.
    unfold toMdxAttribute, createAttributeValueExpression.
    destruct (is_true_value propValue) eqn:Ht.
    + apply is_true_value_spec in Ht. contradiction.
    + rewrite Henc. reflexivity.
Qed.

Lemma applyFlowRename_children (element : Node) (target : MdxRenameTarget) :
  children (applyFlowRename valueToEstree element target).1 = children element
  \/ children (applyFlowRename valueToEstree element target).1 = [].
Proof.
  unfold applyFlowRename.
  destruct (buildAttributes _ _); [destruct (policy_is_clear target)|]; simpl; auto.
Qed.

Lemma applyFlowRename_type (element : Node) (target : MdxRenameTarget) :
  type (applyFlowRename valueToEstree element target).1 = type element.
Proof.
  unfold applyFlowRename.
  destruct (buildAttributes _ _); [destruct (policy_is_clear target)|]; reflexivity.
Qed.

Lemma applyFlowRename_name (element : Node) (target : MdxRenameTarget) :
  name (applyFlowRename valueToEstree element target).1
  = Some (component_name (component target)).
Proof.
  unfold applyFlowRename.
  destruct (buildAttributes _ _); [destruct (policy_is_clear target)|]; reflexivity.
Qed.

(** C6. When the rename is applied with policy [clear], the element ends with
    no children whatever it had; with policy [preserve], or none declared, the
    children list is the one the element had. *)
Theorem children_policy (element : Node) (target : MdxRenameTarget) :
  (declaredPolicy target = Some clear ->
     forall element',
       applyFlowRename valueToEstree element target = (element', Ok tt) ->
       children element' = [])
  /\ (declaredPolicy target = Some preserve \/ declaredPolicy target = None ->
      children (applyFlowRename valueToEstree element target).1 = children element).
Proof.
  unfold applyFlowRename, policy_is_clear. split.
  - intros Hp element'. rewrite Hp.
    destruct (buildAttributes _ _); intros [= <-]. reflexivity.
  - intros [Hp | Hp]; rewrite Hp; destruct (buildAttributes _ _); reflexivity.
Qed.

(** C10. A completed rename leaves the element with exactly the attributes
    built from the target, whatever attributes it had before; when the target
    declares no attribute map, or an empty one, the rename completes and the
    element has no attributes. *)
Theorem attributes_replaced (element : Node) (target : MdxRenameTarget) :
  (forall element',
     applyFlowRename valueToEstree element target = (element', Ok tt) ->
     buildAttributes valueToEstree (component_props (component target))
     = Ok (attributes element'))
  /\ (component_props (component target) = None
      \/ component_props (component target) = Some [] ->
      exists element',
        applyFlowRename valueToEstree element target = (element', Ok tt)
        /\ attributes element' = []).
Proof.
  unfold applyFlowRename. split.
  - intros element'.
    destruct (buildAttributes _ _) as [attrs|e]; [|discriminate].
    destruct (policy_is_clear target); intros [= <-]; reflexivity.
  - intros [Hp | Hp]; rewrite Hp; simpl;
      destruct (policy_is_clear target); eexists; split; reflexivity.
Qed.

End AttributeProperties.

(** ** The two name sets *)

Lemma foldl_union_elem_of {A} (f : A -> option string) (l : list A)
  (acc : gset string) (x : string) :
  x ∈ foldl (fun (acc : gset string) a =>
               match f a with Some y => acc ∪ {[ y ]} | None => acc end) acc l
  <-> x ∈ acc \/ exists a, a ∈ l /\ f a = Some x.
Proof.
  revert acc. induction l as [|a l IH]; intros acc; simpl.
  - split; [auto|]. intros [H|(a & Ha & _)]; [done|]. by apply elem_of_nil in Ha.
  - rewrite IH. split.
    + intros [H|(b & Hb & Hf)].
      * destruct (f a) as [y|] eqn:Hfa.
        -- apply elem_of_union in H as [H|H]; [auto|].
           apply elem_of_singleton in H as ->.
           right. exists a. split; [apply list_elem_of_here | done].
        -- auto.
      * right. exists b. split; [by apply list_elem_of_further | done].
    + intros [H|(b & Hb & Hf)].
      * left. destruct (f a); [apply elem_of_union|]; auto.
      * apply elem_of_cons in Hb as [->|Hb].
        -- left. rewrite Hf. apply elem_of_union. right. by apply elem_of_singleton.
        -- right. eauto.
Qed.

Lemma elem_of_activeScopeNames (registry : gmap string MdxTransformRule) (x : string) :
  x ∈ activeScopeNames registry
  <-> exists rule, registry !! x = Some rule /\ hasOwn (renameFlow rule) = true.
Proof.
  unfold activeScopeNames.
  pose proof (foldl_union_elem_of
    (fun entry : string * MdxTransformRule =>
       if hasOwn (renameFlow entry.2) then Some entry.1 else None)
    (map_to_list registry) ∅ x) as H.
  assert (Heq : forall (l : list (string * MdxTransformRule)) (acc : gset string),
    foldl (fun (acc : gset string) (entry : string * MdxTransformRule) =>
             if hasOwn (renameFlow entry.2) then acc ∪ {[ entry.1 ]} else acc) acc l
    = foldl (fun (acc : gset string) a =>
               match (if hasOwn (renameFlow a.2) then Some a.1 else None) with
               | Some y => acc ∪ {[ y ]} | None => acc end) acc l).
  { induction l as [|a l IH]; intros acc; simpl; [done|].
    rewrite IH. by destruct (hasOwn (renameFlow a.2)). }
  rewrite Heq, H. split.
  - intros [Hx|([k rule] & Hin & Hf)]; [by apply not_elem_of_empty in Hx|].
    apply elem_of_map_to_list in Hin. simpl in Hf.
    destruct (hasOwn (renameFlow rule)) eqn:Hown; [|discriminate].
    injection Hf as ->. eauto.
  - intros (rule & Hlk & Hown). right. exists (x, rule). split.
    + by apply elem_of_map_to_list.
    + simpl. by rewrite Hown.
Qed.

Lemma elem_of_scopeComponentNames (registry : gmap string MdxTransformRule) (x : string) :
  x ∈ scopeComponentNames registry <-> is_Some (registry !! x).
Proof. unfold scopeComponentNames. apply elem_of_dom. Qed.

Lemma activeScopeNames_subseteq (registry : gmap string MdxTransformRule) :
  activeScopeNames registry ⊆ scopeComponentNames registry.
Proof.
  intros x Hx. apply elem_of_activeScopeNames in Hx as (rule & Hlk & _).
  apply elem_of_scopeComponentNames. eauto.
Qed.

Section ScopeNameSets.

Variable valueToEstree : JsValue -> Result Expression.

Lemma shouldProcessScope_spec (registry : gmap string MdxTransformRule) (node : Node) :
  shouldProcessScope registry node = true
  <-> isNamedMdxJsxFlowElement node = true
      /\ exists n, name node = Some n /\ n ∈ activeScopeNames registry.
Proof.
  unfold shouldProcessScope.
  destruct (isNamedMdxJsxFlowElement node); simpl.
  - destruct (name node) as [n|].
    + rewrite bool_decide_eq_true. split.
      * intros H. split; [done|]. eauto.
      * intros [_ (n' & [= <-] & H)]. done.
    + split; [discriminate|]. intros [_ (n' & Hn & _)]. discriminate.
  - split; [discriminate|]. intros [H _]. discriminate.
Qed.

Lemma renameVisitor_skip (renameFlow : gmap string MdxRenameTarget)
  (names : gset string) (p : Path) (element : Node) (n : string) :
  p <> [] -> name element = Some n ->
  v_completion (renameVisitor valueToEstree renameFlow names p element) = Returned SKIP
  <-> n ∈ names.
Proof.
  intros Hp Hn. unfold renameVisitor.
  rewrite bool_decide_eq_false_2 by done. rewrite Hn.
  destruct (bool_decide (n ∈ names)) eqn:Hin.
  - apply bool_decide_eq_true in Hin. simpl. split; auto.
  - apply bool_decide_eq_false in Hin.
    split; [|done].
    destruct (get_property renameFlow n) as [t| |]; [|discriminate..].
    destruct (applyFlowRename valueToEstree element t) as [e' [u|e]]; discriminate.
Qed.

(** C3 (as amended). Scope-root discovery uses exactly the registry keys whose
    entry declares a rename map (an own property, whatever its value);
    boundary detection in the inner traversal uses all registry keys.  The
    first set is included in the second, and the two are the same set exactly
    when every registry entry declares a rename map. *)
Theorem scope_name_sets (registry : gmap string MdxTransformRule) :
  (forall node,
      shouldProcessScope registry node = true
      <-> isNamedMdxJsxFlowElement node = true
          /\ exists n rule, name node = Some n /\ registry !! n = Some rule
                            /\ hasOwn (renameFlow rule) = true)
  /\ (forall renameFlow p element n,
        p <> [] -> name element = Some n ->
        v_completion (renameVisitor valueToEstree renameFlow
                        (scopeComponentNames registry) p element) = Returned SKIP
        <-> is_Some (registry !! n))
  /\ activeScopeNames registry ⊆ scopeComponentNames registry
  /\ (activeScopeNames registry = scopeComponentNames registry
      <-> forall k rule, registry !! k = Some rule -> hasOwn (renameFlow rule) = true).
Proof.
  split; [|split; [|split]].
  - intros node. rewrite shouldProcessScope_spec. split.
    + intros [Hn (n & Hname & Hin)]. split; [done|].
      apply elem_of_activeScopeNames in Hin as (rule & Hlk & Hown). eauto.
    + intros [Hn (n & rule & Hname & Hlk & Hown)]. split; [done|].
      exists n. split; [done|]. apply elem_of_activeScopeNames. eauto.
  - intros rf p element n Hp Hn.
    rewrite (renameVisitor_skip rf _ p element n Hp Hn).
    apply elem_of_scopeComponentNames.
  - apply activeScopeNames_subseteq.
  - split.
    + intros Heq k rule Hlk.
      assert (Hk : k ∈ activeScopeNames registry).
      { rewrite Heq. apply elem_of_scopeComponentNames. eauto. }
      apply elem_of_activeScopeNames in Hk as (rule' & Hlk' & Hown). congruence.
    + intros Hall. apply set_eq. intros x.
      rewrite elem_of_activeScopeNames, elem_of_scopeComponentNames. split.
      * intros (rule & Hlk & _). eauto.
      * intros [rule Hlk]. eauto.
Qed.

End ScopeNameSets.

(** The amended C3 at a concrete registry and element. *)
Lemma scope_name_sets_witness :
  v_completion (renameVisitor referenceValueToEstree ∅
                  (scopeComponentNames registry_undeclared) [0] (flow "Card" []))
  = Returned SKIP
  <-> is_Some (registry_undeclared !! "Card").
Proof.
  apply (proj1 (proj2 (scope_name_sets referenceValueToEstree registry_undeclared))
           ∅ [0] (flow "Card" []) "Card").
  - discriminate.
  - reflexivity.
Defined.

(** C3 as stated fails: a key whose rule declares no rename map is a boundary
    name but not a discovery name. *)
Lemma boundary_name_not_discovered :
  ("Card" ∈ scopeComponentNames registry_undeclared)
  /\ ("Card" ∉ activeScopeNames registry_undeclared)
  /\ activeScopeNames registry_undeclared <> scopeComponentNames registry_undeclared.
Proof.
  assert (H1 : "Card" ∈ scopeComponentNames registry_undeclared) by compute_done.
  assert (H2 : "Card" ∉ activeScopeNames registry_undeclared) by compute_done.
  split; [done|]. split; [done|].
  intros Heq. apply H2. rewrite Heq. exact H1.
Qed.

(** ** Expansion of the hydrated component names *)

Lemma elem_of_addRenameFlowTargets (expanded : gset string)
  (renameFlow : option (gmap string MdxRenameTarget)) (x : string) :
  x ∈ addRenameFlowTargets expanded renameFlow
  <-> x ∈ expanded
      \/ exists m source target,
           renameFlow = Some m /\ m !! source = Some target
           /\ component_name (component target) = x.
Proof.
  unfold addRenameFlowTargets. destruct renameFlow as [m|].
  - pose proof (foldl_union_elem_of
      (fun target : MdxRenameTarget => Some (component_name (component target)))
      (map_to_list m).*2 expanded x) as H.
    simpl in H. rewrite H. clear H. split.
    + intros [Hx|(target & Hin & [= Hn])]; [auto|].
      apply list_elem_of_fmap in Hin as ([source target'] & -> & Hin).
      apply elem_of_map_to_list in Hin. right. exists m, source, target'. auto.
    + intros [Hx|(m' & source & target & [= <-] & Hlk & Hn)]; [auto|].
      right. exists target. split; [|by rewrite Hn].
      apply list_elem_of_fmap. exists (source, target). split; [done|].
      by apply elem_of_map_to_list.
  - split; [auto|]. intros [Hx|(m & ? & ? & [=] & _)]. done.
Qed.

Lemma expand_loop_elem_of (componentDefinitions : gmap string ComponentDefinition)
  (l : list string) (acc : gset string) (x : string) :
  x ∈ foldl (fun (expanded : gset string) (componentName : string) =>
               match componentDefinitions !! componentName with
               | None => expanded
               | Some componentDefinition =>
                   match mdxTransform componentDefinition with
                   | None => expanded
                   | Some rule => addRenameFlowTargets expanded (read (renameFlow rule))
                   end
               end) acc l
  <-> x ∈ acc \/ exists c, c ∈ l /\ introduced_by componentDefinitions c x.
Proof.
  revert acc. induction l as [|c l IH]; intros acc; simpl.
  - split; [auto|]. intros [H|(c & Hc & _)]; [done|]. by apply elem_of_nil in Hc.
  - rewrite IH. clear IH. split.
    + intros [H|(c' & Hc' & Hi)].
      * destruct (componentDefinitions !! c) as [d|] eqn:Hd; [|auto].
        destruct (mdxTransform d) as [rule|] eqn:Hr; [|auto].
        apply elem_of_addRenameFlowTargets in H
          as [H|(m & source & target & Hm & Hlk & Hn)]; [auto|].
        right. exists c. split; [apply list_elem_of_here|].
        exists d, rule, m, source, target. auto.
      * right. exists c'. split; [by apply list_elem_of_further | done].
    + intros [H|(c' & Hc' & Hi)].
      * left. destruct (componentDefinitions !! c) as [d|]; [|done].
        destruct (mdxTransform d) as [rule|]; [|done].
        apply elem_of_addRenameFlowTargets. auto.
      * apply elem_of_cons in Hc' as [->|Hc']; [|right; eauto].
        left. destruct Hi as (d & rule & m & source & target & Hd & Hr & Hm & Hlk & Hn).
        rewrite Hd, Hr. apply elem_of_addRenameFlowTargets.
        right. exists m, source, target. auto.
Qed.

(** X23. What the expansion computes: exactly the input names together with
    the target component names of the rename maps declared by those registry
    entries whose own key is one of the input names.  It makes one step: the
    rename map of an entry that is named only by an added target is not
    read. *)
Theorem expandHydratedComponentNames_spec (componentNames : gset string)
  (componentDefinitions : gmap string ComponentDefinition) (x : string) :
  x ∈ expandHydratedComponentNames componentNames componentDefinitions
  <-> x ∈ componentNames
      \/ exists componentName,
           componentName ∈ componentNames
           /\ introduced_by componentDefinitions componentName x.
Proof.
  unfold expandHydratedComponentNames. rewrite expand_loop_elem_of.
  split; (intros [H|(c & Hc & Hi)]; [auto|]); right; exists c; split; try done.
  - by apply elem_of_elements in Hc.
  - by apply elem_of_elements.
Qed.

(** ** The generic traversal *)

Section Traversal.

Variable go : Path -> Node -> VisitResult.

Lemma visit_children_length (p : Path) (offset : nat) (cs : list Node) :
  length (l_nodes (visit_children go p offset cs)) = length cs.
Proof.
  revert offset. induction cs as [|c cs IH]; intros offset; simpl; [done|].
  destruct (r_completion (go (p ++ [offset]) c)); simpl; auto.
Qed.

(** Every child of the loop's result is the child as its traversal left it,
    or, when the loop was stopped before reaching it, the child itself. *)
Lemma visit_children_nodes (p : Path) (offset : nat) (cs : list Node)
  (k : nat) (c : Node) :
  cs !! k = Some c ->
  l_nodes (visit_children go p offset cs) !! k
    = Some (r_node (go (p ++ [offset + k]) c))
  \/ l_nodes (visit_children go p offset cs) !! k = Some c.
Proof.
  revert offset k. induction cs as [|c0 cs IH]; intros offset k Hk; [done|].
  destruct k as [|k]; simpl in Hk.
  - injection Hk as ->. rewrite Nat.add_0_r. simpl.
    destruct (r_completion (go (p ++ [offset]) c)); simpl; auto.
  - simpl. destruct (r_completion (go (p ++ [offset]) c0)); simpl; auto.
    rewrite Nat.add_succ_r. apply (IH (S offset) k Hk).
Qed.

Lemma visit_children_nodes_inv (p : Path) (offset : nat) (cs : list Node)
  (k : nat) (c' : Node) :
  l_nodes (visit_children go p offset cs) !! k = Some c' ->
  exists c, cs !! k = Some c
            /\ (c' = r_node (go (p ++ [offset + k]) c) \/ c' = c).
Proof.
  intros Hk.
  destruct (cs !! k) as [c|] eqn:Hc.
  - exists c. split; [done|].
    destruct (visit_children_nodes p offset cs k c Hc) as [H|H];
      rewrite H in Hk; injection Hk as <-; auto.
  - apply lookup_ge_None in Hc. rewrite <- (visit_children_length p offset) in Hc.
    apply lookup_ge_None in Hc. congruence.
Qed.

(** A rename recorded by the loop was recorded by the traversal of one child,
    and that child of the result is the child as this traversal left it. *)
Lemma visit_children_renamed (p : Path) (offset : nat) (cs : list Node)
  (q : Path) (t : MdxRenameTarget) :
  (q, t) ∈ l_renamed (visit_children go p offset cs) ->
  exists k c q',
    q = (offset + k) :: q' /\ cs !! k = Some c
    /\ (q', t) ∈ r_renamed (go (p ++ [offset + k]) c)
    /\ l_nodes (visit_children go p offset cs) !! k
       = Some (r_node (go (p ++ [offset + k]) c)).
Proof.
  revert offset. induction cs as [|c0 cs IH]; intros offset; simpl.
  - intros H. by apply elem_of_nil in H.
  - assert (Hhere : (q, t) ∈ shift offset (r_renamed (go (p ++ [offset]) c0)) ->
              exists q', q = offset :: q' /\ (q', t) ∈ r_renamed (go (p ++ [offset]) c0)).
    { unfold shift. intros H. apply list_elem_of_fmap in H as ([q' t'] & [= -> ->] & H).
      eauto. }
    destruct (r_completion (go (p ++ [offset]) c0)) eqn:Hc; simpl.
    + intros H. apply elem_of_app in H as [H|H].
      * destruct (Hhere H) as (q' & -> & Hq').
        exists 0, c0, q'. rewrite Nat.add_0_r. auto.
      * destruct (IH (S offset) H) as (k & c & q' & -> & Hk & Hq' & Hn).
        exists (S k), c, q'. rewrite Nat.add_succ_r. auto.
    + intros H. destruct (Hhere H) as (q' & -> & Hq').
      exists 0, c0, q'. rewrite Nat.add_0_r. auto.
    + intros H. destruct (Hhere H) as (q' & -> & Hq').
      exists 0, c0, q'. rewrite Nat.add_0_r. auto.
Qed.

Lemma visit_children_renamed_head (p : Path) (offset : nat) (cs : list Node)
  (q : Path) (t : MdxRenameTarget) :
  (q, t) ∈ l_renamed (visit_children go p offset cs) ->
  exists k q', q = (offset + k) :: q'.
Proof.
  intros H. apply visit_children_renamed in H as (k & c & q' & -> & _). eauto.
Qed.



(** When every child traversal that completes has visited exactly the
    positions of the subtree it leaves, so has a loop that completes. *)
Lemma visit_children_visited (p : Path) (offset : nat) (cs : list Node) :
  (forall p' c, r_completion (go p' c) = Returned tt ->
                r_visited (go p' c) = positions (r_node (go p' c))) ->
  l_completion (visit_children go p offset cs) = Returned tt ->
  l_visited (visit_children go p offset cs)
  = positions_from offset (l_nodes (visit_children go p offset cs)).
Proof.
  intros Hgo. revert offset. induction cs as [|c cs IH]; intros offset; simpl; [done|].
  destruct (r_completion (go (p ++ [offset]) c)) as [[]| |] eqn:Hc; simpl; try done.
  intros Hl. rewrite (Hgo _ _ Hc), (IH _ Hl). done.
Qed.

Section Abort.

(** [fails t e]: applying target [t] throws [e]. *)
Variable fails : MdxRenameTarget -> Thrown -> Prop.

Lemma last_shift {A} (i : nat) (l : list (Path * A)) (q : Path) (a : A) :
  last l = Some (q, a) -> last (shift i l) = Some (i :: q, a).
Proof. unfold shift. intros H. rewrite fmap_last, H. reflexivity. Qed.


End Abort.

End Traversal.

Section Visit.

Variable test : Node -> bool.
Variable visitor : Visitor.

(** What the traversal does at a node before it walks the children. *)
Local Abbreviation at_node p n :=
  (if test n then visitor p n else mkVisitorResult n [] (Returned CONTINUE)).

Lemma visit_fuel_S (fuel : nat) (p : Path) (n : Node) :
  visit_fuel (S fuel) test visitor p n
  = match v_completion (at_node p n) with
    | Returned CONTINUE =>
        mkVisitResult
          (set_children (v_node (at_node p n))
             (l_nodes (visit_children (visit_fuel fuel test visitor) p 0
                         (children (v_node (at_node p n))))))
          ([] :: l_visited (visit_children (visit_fuel fuel test visitor) p 0
                              (children (v_node (at_node p n)))))
          (v_renamed (at_node p n)
           ++ l_renamed (visit_children (visit_fuel fuel test visitor) p 0
                           (children (v_node (at_node p n)))))
          (l_completion (visit_children (visit_fuel fuel test visitor) p 0
                           (children (v_node (at_node p n)))))
    | Returned SKIP =>
        mkVisitResult (v_node (at_node p n)) [[]] (v_renamed (at_node p n)) (Returned tt)
    | Threw e =>
        mkVisitResult (v_node (at_node p n)) [[]] (v_renamed (at_node p n)) (Threw e)
    | Exhausted =>
        mkVisitResult (v_node (at_node p n)) [[]] (v_renamed (at_node p n)) Exhausted
    end.
Proof. reflexivity. Qed.

Lemma positions_eq (n : Node) :
  positions n = [] :: positions_from 0 (children n).
Proof.
  destruct n as [ty nm attrs cs v]. reflexivity.
Qed.

(** A traversal whose visitor never returns [SKIP], when it
    completes, has visited every position of the tree it leaves, in
    document order. *)
Lemma visit_fuel_visited :
  (forall p n, v_completion (visitor p n) <> Returned SKIP) ->
  forall fuel p n,
    r_completion (visit_fuel fuel test visitor p n) = Returned tt ->
    r_visited (visit_fuel fuel test visitor p n)
    = positions (r_node (visit_fuel fuel test visitor p n)).
Proof.
  intros Hv. induction fuel as [|fuel IH]; intros p n; [discriminate|].
  rewrite visit_fuel_S.
  assert (Hat : v_completion (at_node p n) <> Returned SKIP).
  { destruct (test n); [apply Hv|discriminate]. }
  destruct (v_completion (at_node p n)) as [[|]| |];
    cbn [r_completion r_visited r_node]; try done.
  intros Hl. rewrite positions_eq. cbn [children set_children]. f_equal.
  by apply visit_children_visited.
Qed.


(** Positions are never created: a rename is recorded at a position of the
    tree given to the traversal, and so is every position of the tree it
    leaves. *)
Lemma visit_fuel_positions :
  (forall p n q t, (q, t) ∈ v_renamed (visitor p n) -> is_Some (node_at n q)) ->
  (forall p n q, is_Some (node_at (v_node (visitor p n)) q) -> is_Some (node_at n q)) ->
  forall fuel p n q,
    (forall t, (q, t) ∈ r_renamed (visit_fuel fuel test visitor p n) ->
               is_Some (node_at n q))
    /\ (is_Some (node_at (r_node (visit_fuel fuel test visitor p n)) q) ->
        is_Some (node_at n q)).
Proof.
  intros Hv1 Hv2. induction fuel as [|fuel IH]; intros p n q.
  { simpl. split; [|done]. intros t H. by apply elem_of_nil in H. }
  rewrite visit_fuel_S.
  assert (Hat1 : forall q t, (q, t) ∈ v_renamed (at_node p n) -> is_Some (node_at n q)).
  { destruct (test n); [apply Hv1|]. simpl. intros ? ? H. by apply elem_of_nil in H. }
  assert (Hat2 : forall q, is_Some (node_at (v_node (at_node p n)) q) ->
                           is_Some (node_at n q)).
  { destruct (test n); [apply Hv2|done]. }
  destruct (v_completion (at_node p n)) as [[|]|e0|]; simpl; try (split; eauto; done).
  split.
  - intros t H. apply elem_of_app in H as [H|H]; [eauto|].
    apply visit_children_renamed in H as (k & c & q' & -> & Hk & Hq' & _).
    apply (Hat2 ((0 + k) :: q')). simpl in *. rewrite Hk. exact (proj1 (IH _ c q') t Hq').
  - destruct q as [|k q']; [by eauto|]. simpl.
    destruct (l_nodes _ !! k) as [c'|] eqn:Hc'; [|by intros []].
    apply visit_children_nodes_inv in Hc' as (c & Hc & Hcase).
    intros H. apply (Hat2 (k :: q')). simpl. rewrite Hc.
    destruct Hcase as [-> | ->]; [|done]. exact (proj2 (IH _ c q') H).
Qed.

Lemma height_eq (n : Node) : height n = S (max_height (children n)).
Proof. destruct n; reflexivity. Qed.

Lemma visit_children_height (go : Path -> Node -> VisitResult) (fuel : nat)
  (p : Path) (offset : nat) (cs : list Node) :
  (forall p' c, height c <= fuel ->
                r_completion (go p' c) <> Exhausted
                /\ height (r_node (go p' c)) <= height c) ->
  max_height cs <= fuel ->
  l_completion (visit_children go p offset cs) <> Exhausted
  /\ max_height (l_nodes (visit_children go p offset cs)) <= max_height cs.
Proof.
  intros Hgo. revert offset. induction cs as [|c cs IH]; intros offset Hfuel.
  { simpl. split; [done|lia]. }
  cbn [max_height fold_right] in Hfuel. fold (max_height cs) in Hfuel.
  destruct (Hgo (p ++ [offset]) c) as [Hc Hh]; [lia|].
  destruct (IH (S offset)) as [IHc IHh]; [lia|].
  cbn [visit_children].
  destruct (r_completion (go (p ++ [offset]) c)) eqn:Hcompl;
    cbn [l_completion l_nodes max_height fold_right];
    fold (max_height cs);
    fold (max_height (l_nodes (visit_children go p (S offset) cs)));
    (split; [done|lia]).
Qed.

(** The budget [height tree] is enough: a traversal whose visitor adds no
    level to the tree and does not run out of budget does not run out of
    budget itself, and adds no level either. *)
Lemma visit_fuel_terminates :
  (forall p n, height (v_node (visitor p n)) <= height n
               /\ v_completion (visitor p n) <> Exhausted) ->
  forall fuel p n,
    height n <= fuel ->
    r_completion (visit_fuel fuel test visitor p n) <> Exhausted
    /\ height (r_node (visit_fuel fuel test visitor p n)) <= height n.
Proof.
  intros Hv. induction fuel as [|fuel IH]; intros p n Hfuel.
  { rewrite height_eq in Hfuel. lia. }
  rewrite visit_fuel_S.
  assert (Hat : height (v_node (at_node p n)) <= height n
                /\ v_completion (at_node p n) <> Exhausted).
  { destruct (test n); [apply Hv|]. simpl. split; [lia|done]. }
  destruct Hat as [Hh Hc].
  destruct (v_completion (at_node p n)) as [[|]|e0|];
    cbn [r_completion r_node]; [|split; [done|lia]..].
  rewrite height_eq in Hh.
  destruct (visit_children_height (visit_fuel fuel test visitor) fuel p 0
              (children (v_node (at_node p n)))) as [Hlc Hlh]; [exact IH|lia|].
  split; [done|]. rewrite (height_eq (set_children _ _)). cbn [children set_children]. lia.
Qed.

End Visit.

(** ** Reading a plain object *)

Lemma get_property_own {A} (obj : gmap string A) (key : string) (a : A) :
  get_property obj key = FoundOwn a <-> obj !! key = Some a.
Proof.
  unfold get_property. destruct (obj !! key) as [a'|].
  - split; by intros [= ->].
  - by case_bool_decide.
Qed.

Lemma get_property_not_found {A} (obj : gmap string A) (key : string) :
  get_property obj key = NotFound
  <-> obj !! key = None /\ key ∉ object_prototype_names.
Proof.
  unfold get_property. destruct (obj !! key) as [a'|].
  - split; [done|by intros [? _]].
  - case_bool_decide as Hk; split; try done. by intros [_ ?].
Qed.

(** ** The inner traversal of a scope *)

Section InnerWalk.

Variable valueToEstree : JsValue -> Result Expression.
Variable renameFlow : gmap string MdxRenameTarget.
Variable names : gset string.

(** The inner traversal below position [p] of the scope element. *)
Local Abbreviation walk fuel :=
  (visit_fuel fuel isNamedMdxJsxFlowElement
              (renameVisitor valueToEstree renameFlow names)).

(** What the inner traversal does at one node: nothing, nothing and prune, or
    one call of [applyFlowRename]. *)
Lemma inner_step_cases (p : Path) (n : Node) :
  let vr := if isNamedMdxJsxFlowElement n
            then renameVisitor valueToEstree renameFlow names p n
            else mkVisitorResult n [] (Returned CONTINUE) in
  (vr = mkVisitorResult n [] (Returned CONTINUE)
   /\ (isNamedMdxJsxFlowElement n = false \/ p = []
       \/ exists k, name n = Some k /\ (k ∉ names) /\ renameFlow !! k = None
                    /\ k ∉ object_prototype_names))
  \/ (vr = mkVisitorResult n [] (Returned SKIP)
      /\ p <> [] /\ isNamedMdxJsxFlowElement n = true
      /\ exists k, name n = Some k /\ k ∈ names)
  \/ (exists k t,
        p <> [] /\ isNamedMdxJsxFlowElement n = true
        /\ name n = Some k /\ (k ∉ names) /\ renameFlow !! k = Some t
        /\ vr = mkVisitorResult (applyFlowRename valueToEstree n t).1 [([], t)]
                  match (applyFlowRename valueToEstree n t).2 with
                  | Ok _ => Returned CONTINUE
                  | Throw e => Threw e
                  end)
  \/ (vr = mkVisitorResult n [] (Threw read_name_of_undefined)
      /\ p <> [] /\ isNamedMdxJsxFlowElement n = true
      /\ exists k, name n = Some k /\ (k ∉ names) /\ renameFlow !! k = None
                   /\ k ∈ object_prototype_names).
Proof.
  simpl. destruct (isNamedMdxJsxFlowElement n) eqn:Hn; [|left; auto].
  unfold renameVisitor. case_bool_decide as Hp; [left; auto|].
  destruct (name n) as [k|] eqn:Hk.
  2:{ unfold isNamedMdxJsxFlowElement in Hn. rewrite Hk in Hn.
      apply andb_true_iff in Hn as [_ Hn]. apply bool_decide_eq_true in Hn.
      by destruct Hn. }
  case_bool_decide as Hin.
  - right. left. eauto 10.
  - unfold get_property. destruct (renameFlow !! k) as [t|] eqn:Ht.
    + right. right. left. exists k, t. repeat (split; [done|]).
      destruct (applyFlowRename valueToEstree n t) as [n' [[]|e]]; reflexivity.
    + case_bool_decide as Hproto.
      * right. right. right. eauto 10.
      * left. split; [done|]. right. right. eauto 10.
Qed.

Lemma walk_0 (p : Path) (n : Node) :
  walk 0 p n = mkVisitResult n [] [] Exhausted.
Proof. reflexivity. Qed.

(** One level of the inner traversal, case by case. *)
Lemma walk_S (fuel : nat) (p : Path) (n : Node) :
  (let l := visit_children (walk fuel) p 0 (children n) in
   walk (S fuel) p n
   = mkVisitResult (set_children n (l_nodes l)) ([] :: l_visited l)
                   (l_renamed l) (l_completion l)
   /\ (isNamedMdxJsxFlowElement n = false \/ p = []
       \/ exists k, name n = Some k /\ (k ∉ names) /\ renameFlow !! k = None
                    /\ k ∉ object_prototype_names))
  \/ (walk (S fuel) p n = mkVisitResult n [[]] [] (Returned tt)
      /\ p <> [] /\ isNamedMdxJsxFlowElement n = true
      /\ exists k, name n = Some k /\ k ∈ names)
  \/ (exists k t,
        p <> [] /\ isNamedMdxJsxFlowElement n = true
        /\ name n = Some k /\ (k ∉ names) /\ renameFlow !! k = Some t
        /\ let n' := (applyFlowRename valueToEstree n t).1 in
           match (applyFlowRename valueToEstree n t).2 with
           | Ok _ =>
               let l := visit_children (walk fuel) p 0 (children n') in
               walk (S fuel) p n
               = mkVisitResult (set_children n' (l_nodes l)) ([] :: l_visited l)
                               (([], t) :: l_renamed l) (l_completion l)
           | Throw e =>
               walk (S fuel) p n = mkVisitResult n' [[]] [([], t)] (Threw e)
           end)
  \/ (walk (S fuel) p n = mkVisitResult n [[]] [] (Threw read_name_of_undefined)
      /\ p <> [] /\ isNamedMdxJsxFlowElement n = true
      /\ exists k, name n = Some k /\ (k ∉ names) /\ renameFlow !! k = None
                   /\ k ∈ object_prototype_names).
Proof.
  destruct (inner_step_cases p n)
    as [[Hvr Hc]|[[Hvr Hc]|[(k & t & Hp & Hn & Hk & Hin & Ht & Hvr)|[Hvr Hc]]]].
  - left. split; [|done]. simpl. rewrite Hvr. reflexivity.
  - right. left. split; [|done]. simpl. rewrite Hvr. reflexivity.
  - right. right. left. exists k, t. repeat (split; [done|]).
    simpl. rewrite Hvr.
    destruct (applyFlowRename valueToEstree n t) as [n' [[]|e]]; reflexivity.
  - right. right. right. split; [|done]. simpl. rewrite Hvr. reflexivity.
Qed.

Lemma node_at_cons (n : Node) (i : nat) (q : Path) :
  node_at n (i :: q) = children n !! i ≫= fun c => node_at c q.
Proof. simpl. by destruct (children n !! i). Qed.

(** The inner traversal stops at a nested scope element: nothing is renamed
    at or below it, and it is left as it was. *)
Lemma walk_boundary (fuel : nat) (p : Path) (n : Node) (q : Path) (s2 : Node)
  (k : string) :
  p <> [] \/ q <> [] ->
  node_at n q = Some s2 ->
  isNamedMdxJsxFlowElement s2 = true -> name s2 = Some k -> k ∈ names ->
  (forall q' t, (q ++ q', t) ∉ r_renamed (walk fuel p n))
  /\ (node_at (r_node (walk fuel p n)) q = None
      \/ node_at (r_node (walk fuel p n)) q = Some s2).
Proof.
  intros Hpq Hat Hflow Hname Hin. revert p n q Hpq Hat.
  induction fuel as [|fuel IH]; intros p n q Hpq Hat.
  { rewrite walk_0. simpl. split; [|auto]. intros q' t H. by apply elem_of_nil in H. }
  assert (Hloop : forall cs, cs = children n \/ cs = [] ->
            forall i q1, q = i :: q1 ->
            (forall q' t, ((i :: q1) ++ q', t)
                          ∉ l_renamed (visit_children (walk fuel) p 0 cs))
            /\ (l_nodes (visit_children (walk fuel) p 0 cs) !! i
                  ≫= (fun c => node_at c q1) = None
                \/ l_nodes (visit_children (walk fuel) p 0 cs) !! i
                     ≫= (fun c => node_at c q1) = Some s2)).
  { intros cs Hcs i q1 ->. rewrite node_at_cons in Hat.
    destruct Hcs as [-> | ->].
    - destruct (children n !! i) as [c|] eqn:Hc; [|done]. simpl in Hat.
      assert (Hp' : p ++ [0 + i] <> [] \/ q1 <> []) by (left; by destruct p).
      destruct (IH (p ++ [0 + i]) c q1 Hp' Hat) as [IHr IHn].
      split.
      + intros q' t H. apply visit_children_renamed in H
          as (k0 & c0 & q0 & [= <- <-] & Hc0 & Hq0 & _).
        simpl in Hc0. rewrite Hc in Hc0. injection Hc0 as <-.
        by apply (IHr q' t).
      + destruct (visit_children_nodes (walk fuel) p 0 _ i c Hc) as [H|H];
          rewrite H; simpl; auto.
    - simpl. split; [|auto]. intros q' t H. by apply elem_of_nil in H. }
  destruct (walk_S fuel p n)
    as [[Hw Hc]|[[Hw Hc]|[(k0 & t0 & Hp & Hn & Hk0 & Hin0 & Ht0 & Hw)|[Hw Hc]]]];
    [| |
     |rewrite Hw; cbn [r_node r_renamed]; split; [|auto];
      intros q' t H; by apply elem_of_nil in H].
  - cbv zeta in Hw. rewrite Hw. cbn [r_node r_renamed].
    destruct q as [|i q1].
    + injection Hat as ->. destruct Hpq as [Hp|]; [|done].
      destruct Hc as [Hc|[Hc|(k' & Hk' & Hnin & _)]]; [congruence|done|].
      rewrite Hname in Hk'. injection Hk' as <-. done.
    + destruct (Hloop (children n) (or_introl eq_refl) i q1 eq_refl) as [Hr Hnode].
      split; [done|]. rewrite node_at_cons. cbn [set_children children]. exact Hnode.
  - rewrite Hw. cbn [r_node r_renamed]. split; [|auto].
    intros q' t H. by apply elem_of_nil in H.
  - cbv zeta in Hw.
    pose proof (applyFlowRename_children valueToEstree n t0) as Hch.
    destruct q as [|i q1].
    { injection Hat as ->. rewrite Hname in Hk0. injection Hk0 as <-. done. }
    destruct ((applyFlowRename valueToEstree n t0).2) as [[]|e].
    + rewrite Hw. cbn [r_node r_renamed].
      assert (Hcs : children (applyFlowRename valueToEstree n t0).1 = children n
                    \/ children (applyFlowRename valueToEstree n t0).1 = []) by exact Hch.
      destruct (Hloop _ Hcs i q1 eq_refl) as [Hr Hnode].
      split.
      * intros q' t H. apply elem_of_cons in H as [[=]|H]. by apply (Hr q' t).
      * rewrite node_at_cons. cbn [set_children children]. exact Hnode.
    + rewrite Hw. cbn [r_node r_renamed]. split.
      * intros q' t H. apply elem_of_cons in H as [[=]|H]. by apply elem_of_nil in H.
      * rewrite !node_at_cons in *. destruct Hch as [-> | ->]; simpl; auto.
Qed.

Lemma applyFlowRename_completion (n : Node) (t : MdxRenameTarget) :
  (applyFlowRename valueToEstree n t).2
  = match buildAttributes valueToEstree (component_props (component t)) with
    | Ok _ => Ok tt
    | Throw e => Throw e
    end.
Proof.
  unfold applyFlowRename.
  destruct (buildAttributes _ _); [destruct (policy_is_clear t)|]; reflexivity.
Qed.

Lemma renameVisitor_cases (p : Path) (n : Node) :
  renameVisitor valueToEstree renameFlow names p n
    = mkVisitorResult n [] (Returned CONTINUE)
  \/ renameVisitor valueToEstree renameFlow names p n
     = mkVisitorResult n [] (Returned SKIP)
  \/ (exists k t,
        renameFlow !! k = Some t
        /\ renameVisitor valueToEstree renameFlow names p n
           = mkVisitorResult (applyFlowRename valueToEstree n t).1 [([], t)]
               match (applyFlowRename valueToEstree n t).2 with
               | Ok _ => Returned CONTINUE
               | Throw e => Threw e
               end)
  \/ (exists k,
        name n = Some k /\ k ∈ object_prototype_names /\ renameFlow !! k = None
        /\ renameVisitor valueToEstree renameFlow names p n
           = mkVisitorResult n [] (Threw read_name_of_undefined)).
Proof.
  unfold renameVisitor. case_bool_decide; [auto|].
  destruct (name n) as [k|]; [|auto].
  case_bool_decide; [auto|].
  unfold get_property. destruct (renameFlow !! k) as [t|] eqn:Ht.
  - right. right. left. exists k, t. split; [done|].
    destruct (applyFlowRename valueToEstree n t) as [n' [[]|e]]; reflexivity.
  - case_bool_decide; [|auto]. right. right. right. by exists k.
Qed.

Lemma renameVisitor_height (p : Path) (n : Node) :
  height (v_node (renameVisitor valueToEstree renameFlow names p n)) <= height n
  /\ v_completion (renameVisitor valueToEstree renameFlow names p n) <> Exhausted.
Proof.
  destruct (renameVisitor_cases p n)
    as [-> | [-> | [(k & t & _ & ->) | (k & _ & _ & _ & ->)]]]; simpl;
    try (split; [lia|done]).
  split.
  - rewrite !height_eq.
    destruct (applyFlowRename_children valueToEstree n t) as [-> | ->]; simpl; lia.
  - by destruct ((applyFlowRename valueToEstree n t).2).
Qed.

Lemma renameVisitor_positions (p : Path) (n : Node) (q : Path) :
  (forall t, (q, t) ∈ v_renamed (renameVisitor valueToEstree renameFlow names p n) ->
             is_Some (node_at n q))
  /\ (is_Some (node_at (v_node (renameVisitor valueToEstree renameFlow names p n)) q) ->
      is_Some (node_at n q)).
Proof.
  destruct (renameVisitor_cases p n)
    as [-> | [-> | [(k & t & _ & ->) | (k & _ & _ & _ & ->)]]]; simpl;
    try (split; [|done]; intros t H; by apply elem_of_nil in H).
  split.
  - intros t' H. apply list_elem_of_singleton in H as [= -> _]. by eexists.
  - destruct q as [|i q']; [by eexists|]. rewrite !node_at_cons.
    destruct (applyFlowRename_children valueToEstree n t) as [-> | ->]; [done|].
    simpl. by intros [].
Qed.

(** [fails t e]: building the attributes of target [t] throws [e]. *)
Local Abbreviation fails t e :=
  (buildAttributes valueToEstree (component_props (component t)) = Throw e).


Lemma walk_terminates (fuel : nat) (p : Path) (n : Node) :
  height n <= fuel ->
  r_completion (walk fuel p n) <> Exhausted
  /\ height (r_node (walk fuel p n)) <= height n.
Proof. apply visit_fuel_terminates. apply renameVisitor_height. Qed.

Lemma walk_positions (fuel : nat) (p : Path) (n : Node) (q : Path) :
  (forall t, (q, t) ∈ r_renamed (walk fuel p n) -> is_Some (node_at n q))
  /\ (is_Some (node_at (r_node (walk fuel p n)) q) -> is_Some (node_at n q)).
Proof.
  apply visit_fuel_positions.
  - intros p' n' q' t. apply renameVisitor_positions.
  - intros p' n' q'. apply renameVisitor_positions.
Qed.


(** At its root the inner traversal only walks the children. *)
Lemma walk_root (fuel : nat) (n : Node) :
  walk (S fuel) [] n
  = mkVisitResult
      (set_children n (l_nodes (visit_children (walk fuel) [] 0 (children n))))
      ([] :: l_visited (visit_children (walk fuel) [] 0 (children n)))
      (l_renamed (visit_children (walk fuel) [] 0 (children n)))
      (l_completion (visit_children (walk fuel) [] 0 (children n))).
Proof.
  destruct (walk_S fuel [] n)
    as [[Hw _]|[[_ [Hp _]]|[(k & t & Hp & _)|[_ [Hp _]]]]]; done.
Qed.


Section BelowScope.

(** [P] recognises scope roots: they are boundaries of the inner traversal,
    and no rename of this scope produces one. *)
Variable P : Node -> bool.
Hypothesis P_boundary :
  forall n, P n = true ->
            isNamedMdxJsxFlowElement n = true /\ exists k, name n = Some k /\ k ∈ names.
Hypothesis P_children : forall n cs, P (set_children n cs) = P n.
Hypothesis P_target :
  forall n k t, renameFlow !! k = Some t ->
                P (applyFlowRename valueToEstree n t).1 = false.



End BelowScope.

Section Frame.

(** A tag [T] that this scope does not rename, and a tag [Sc] that no rename
    of this scope produces. *)
Variables T Sc : string.
Hypothesis no_rule_for_T : renameFlow !! T = None.
Hypothesis no_target_S :
  forall k t, renameFlow !! k = Some t -> component_name (component t) <> Sc.

Lemma is_flow_named_set_children (tag : string) (n : Node) (cs : list Node) :
  is_flow_named tag (set_children n cs) = is_flow_named tag n.
Proof. reflexivity. Qed.

Lemma is_flow_named_renamed (n : Node) (k : string) (t : MdxRenameTarget) :
  renameFlow !! k = Some t ->
  is_flow_named Sc (applyFlowRename valueToEstree n t).1 = false.
Proof.
  intros Ht. unfold is_flow_named. rewrite applyFlowRename_name.
  rewrite (bool_decide_eq_false_2 (Some _ = Some Sc)); [apply andb_false_r|].
  intros [= H]. by eapply no_target_S.
Qed.

(** The inner traversal leaves an element named [T] alone, and puts no
    element named [Sc] above it. *)
Lemma walk_frame (fuel : nat) (p : Path) (n : Node) (q : Path) (m : Node) :
  node_at n q = Some m -> name m = Some T ->
  below (is_flow_named Sc) n q = false ->
  (forall t, (q, t) ∉ r_renamed (walk fuel p n))
  /\ (node_at (r_node (walk fuel p n)) q = None
      \/ exists m',
           node_at (r_node (walk fuel p n)) q = Some m'
           /\ own_fields m' = own_fields m
           /\ below (is_flow_named Sc) (r_node (walk fuel p n)) q = false).
Proof.
  intros Hat Hname Hbelow. revert p n q Hat Hbelow.
  induction fuel as [|fuel IH]; intros p n q Hat Hbelow.
  { rewrite walk_0. cbn [r_renamed r_node]. split; [|right; eauto].
    intros t H. by apply elem_of_nil in H. }
  assert (Hloop : forall n0,
            children n0 = children n \/ children n0 = [] ->
            is_flow_named Sc n0 = false ->
            forall i q1, q = i :: q1 ->
            (forall t, (q, t) ∉ l_renamed (visit_children (walk fuel) p 0 (children n0)))
            /\ (node_at (set_children n0
                           (l_nodes (visit_children (walk fuel) p 0 (children n0)))) q
                = None
                \/ exists m',
                     node_at (set_children n0
                                (l_nodes (visit_children (walk fuel) p 0 (children n0)))) q
                     = Some m'
                     /\ own_fields m' = own_fields m
                     /\ below (is_flow_named Sc)
                          (set_children n0
                             (l_nodes (visit_children (walk fuel) p 0 (children n0)))) q
                        = false)).
  { intros n0 Hcs HS i q1 ->. rewrite node_at_cons in Hat.
    cbn [below] in Hbelow. apply orb_false_iff in Hbelow as [_ Hbelow].
    destruct (children n !! i) as [c|] eqn:Hc; [|done]. simpl in Hat.
    destruct Hcs as [-> | ->].
    - destruct (IH (p ++ [i]) c q1 Hat Hbelow) as [IHr IHn].
      split.
      + intros t H. apply visit_children_renamed in H
          as (k0 & c0 & q0 & [= <- <-] & Hc0 & Hq0 & _).
        cbn [Nat.add] in Hc0, Hq0. rewrite Hc in Hc0. injection Hc0 as <-.
        by apply (IHr t).
      + rewrite node_at_cons. cbn [below children set_children].
        rewrite is_flow_named_set_children, HS. cbn [orb].
        destruct (visit_children_nodes (walk fuel) p 0 _ i c Hc) as [H|H];
          rewrite H; cbn [Nat.add mbind option_bind].
        * destruct IHn as [IHn|(m' & Hm' & Hown & Hb)]; [auto|].
          right. exists m'. auto.
        * right. exists m. auto.
    - simpl. split; [|auto]. intros t H. by apply elem_of_nil in H. }
  destruct (walk_S fuel p n)
    as [[Hw Hc]|[[Hw _]|[(k & t0 & _ & _ & Hk & _ & Ht0 & Hw)|[Hw _]]]];
    [| | |rewrite Hw; cbn [r_renamed r_node]; split; [|right; eauto];
          intros t H; by apply elem_of_nil in H].
  - cbv zeta in Hw. rewrite Hw. cbn [r_renamed r_node].
    destruct q as [|i q1].
    + injection Hat as <-. split.
      * intros t H. apply visit_children_renamed_head in H as (k0 & q' & [=]).
      * right. eexists. split; [reflexivity|]. split; [|done].
        unfold own_fields. cbn [type name attributes children value set_children].
        by rewrite visit_children_length.
    + cbn [below] in Hbelow. apply orb_false_iff in Hbelow as [HS _].
      apply (Hloop n (or_introl eq_refl) HS i q1 eq_refl).
  - rewrite Hw. cbn [r_renamed r_node]. split; [|right; eauto].
    intros t H. by apply elem_of_nil in H.
  - cbv zeta in Hw.
    destruct q as [|i q1].
    { injection Hat as <-. congruence. }
    pose proof (is_flow_named_renamed n k t0 Ht0) as HS.
    pose proof (applyFlowRename_children valueToEstree n t0) as Hch.
    destruct ((applyFlowRename valueToEstree n t0).2); rewrite Hw;
      cbn [r_renamed r_node].
    + destruct (Hloop _ Hch HS i q1 eq_refl) as [Hr Hn].
      split; [|done].
      intros t H. apply elem_of_cons in H as [[=]|H]. by apply (Hr t).
    + split.
      { intros t H. apply list_elem_of_singleton in H as [=]. }
      rewrite node_at_cons in Hat |- *. cbn [below] in Hbelow |- *.
      rewrite HS. apply orb_false_iff in Hbelow as [_ Hbelow].
      destruct Hch as [-> | ->]; [|auto].
      destruct (children n !! i) as [c|]; [|done]. simpl in *.
      right. exists m. auto.
Qed.

End Frame.

End InnerWalk.

(** ** Checking a registry *)

Lemma every_target_check_spec (registry : gmap string MdxTransformRule)
  (ok : string -> string -> MdxRenameTarget -> bool) :
  every_target_check registry ok = true ->
  every_target registry (fun scope source target => ok scope source target = true).
Proof.
  unfold every_target_check, every_target, rename_map_of.
  intros Hall scope rf source target (rule & Hrule & Hrf) Ht.
  rewrite forallb_forall in Hall.
  assert (Hin : In (scope, rule) (map_to_list registry)).
  { apply list_elem_of_In. by apply elem_of_map_to_list. }
  specialize (Hall _ Hin). simpl in Hall. rewrite Hrf in Hall.
  rewrite forallb_forall in Hall.
  apply (Hall (source, target)).
  apply list_elem_of_In. by apply elem_of_map_to_list.
Qed.

Lemma renamed_only_under_check (registry : gmap string MdxTransformRule) (T S : string) :
  every_target_check registry
    (fun scope source _ => negb (String.eqb source T) || String.eqb scope S) = true ->
  renamed_only_under registry T S.
Proof.
  intros H scope rf source target Hrf Ht ->.
  pose proof (every_target_check_spec _ _ H scope rf T target Hrf Ht) as Hok.
  simpl in Hok. rewrite String.eqb_refl in Hok. simpl in Hok.
  by apply String.eqb_eq.
Qed.

Lemma no_target_named_check (registry : gmap string MdxTransformRule) (S : string) :
  every_target_check registry
    (fun _ _ target => negb (String.eqb (component_name (component target)) S)) = true ->
  no_target_named registry S.
Proof.
  intros H scope rf source target Hrf Ht Heq.
  pose proof (every_target_check_spec _ _ H scope rf source target Hrf Ht) as Hok.
  simpl in Hok. apply negb_true_iff in Hok. apply String.eqb_neq in Hok. done.
Qed.

Lemma no_target_is_scope_check (registry : gmap string MdxTransformRule) :
  every_target_check registry
    (fun _ _ target =>
       bool_decide (component_name (component target) ∉ activeScopeNames registry))
  = true ->
  no_target_is_scope registry.
Proof.
  intros H scope rf source target Hrf Ht.
  pose proof (every_target_check_spec _ _ H scope rf source target Hrf Ht) as Hok.
  simpl in Hok. by apply bool_decide_eq_true in Hok.
Qed.

(** ** The outer traversal *)

Section OuterWalk.

Variable valueToEstree : JsValue -> Result Expression.
Variable registry : gmap string MdxTransformRule.

Local Abbreviation visitor :=
  (createScopeVisitor valueToEstree registry (scopeComponentNames registry)).

Local Abbreviation outer fuel :=
  (visit_fuel fuel (shouldProcessScope registry) visitor).

Local Abbreviation inner rf fuel :=
  (visit_fuel fuel isNamedMdxJsxFlowElement
              (renameVisitor valueToEstree rf (scopeComponentNames registry))).

Local Abbreviation fails t e :=
  (buildAttributes valueToEstree (component_props (component t)) = Throw e).

(** The scope visitor does nothing, or runs the inner traversal with the
    rename map that the registry declares for the tag of the element. *)
Lemma visitor_cases (p : Path) (n : Node) :
  visitor p n = mkVisitorResult n [] (Returned CONTINUE)
  \/ exists k rf fuel,
       name n = Some k /\ rename_map_of registry k rf /\ height n = S fuel
       /\ visitor p n
          = mkVisitorResult (r_node (inner rf (S fuel) [] n))
                            (r_renamed (inner rf (S fuel) [] n))
              match r_completion (inner rf (S fuel) [] n) with
              | Returned _ => Returned CONTINUE
              | Threw e => Threw e
              | Exhausted => Exhausted
              end.
Proof.
  unfold createScopeVisitor.
  destruct (name n) as [k|] eqn:Hk; [|auto]. simpl.
  destruct (registry !! k) as [rule|] eqn:Hrule; [|auto]. simpl.
  destruct (read (renameFlow rule)) as [rf|] eqn:Hrf; [|auto].
  right. exists k, rf, (max_height (children n)).
  split; [done|]. split; [by exists rule|]. split; [apply height_eq|].
  unfold visit. rewrite height_eq. reflexivity.
Qed.

Lemma visitor_never_skips (p : Path) (n : Node) :
  v_completion (visitor p n) <> Returned SKIP.
Proof.
  destruct (visitor_cases p n) as [-> | (k & rf & fuel & _ & _ & _ & ->)]; [done|].
  simpl. by destruct (r_completion _).
Qed.

Lemma visitor_height (p : Path) (n : Node) :
  height (v_node (visitor p n)) <= height n
  /\ v_completion (visitor p n) <> Exhausted.
Proof.
  destruct (visitor_cases p n) as [-> | (k & rf & fuel & _ & _ & Hh & ->)].
  { simpl. split; [lia|done]. }
  cbn [v_node v_completion].
  destruct (walk_terminates valueToEstree rf (scopeComponentNames registry)
              (S fuel) [] n) as [Hc Hle]; [lia|].
  split; [done|]. by destruct (r_completion _).
Qed.

Lemma visitor_positions (p : Path) (n : Node) (q : Path) :
  (forall t, (q, t) ∈ v_renamed (visitor p n) -> is_Some (node_at n q))
  /\ (is_Some (node_at (v_node (visitor p n)) q) -> is_Some (node_at n q)).
Proof.
  destruct (visitor_cases p n) as [-> | (k & rf & fuel & _ & _ & _ & ->)].
  { simpl. split; [|done]. intros t H. by apply elem_of_nil in H. }
  apply walk_positions.
Qed.


(** The scope visitor leaves the fields of the scope element itself as they
    are, and every rename it records is strictly below the element. *)
Lemma visitor_root (p : Path) (n : Node) :
  own_fields (v_node (visitor p n)) = own_fields n
  /\ forall q t, (q, t) ∈ v_renamed (visitor p n) -> exists k q', q = k :: q'.
Proof.
  destruct (visitor_cases p n) as [-> | (k & rf & fuel & _ & _ & _ & ->)].
  { simpl. split; [done|]. intros q t H. by apply elem_of_nil in H. }
  cbn [v_node v_renamed]. rewrite walk_root. cbn [r_node r_renamed]. split.
  - unfold own_fields. cbn [type name attributes children value set_children].
    by rewrite visit_children_length.
  - intros q t H. apply visit_children_renamed_head in H as (k0 & q' & ->). eauto.
Qed.

(** The transformer always returns or throws: the recursion budget of the
    model is never used up. *)
Lemma remarkScopedMdx_terminates (tree : Node) :
  r_completion (remarkScopedMdx valueToEstree registry tree) <> Exhausted.
Proof.
  unfold remarkScopedMdx, visit.
  apply visit_fuel_terminates; [apply visitor_height|lia].
Qed.

(** C2. While the scope visitor walks the subtree of a scope element, a flow
    element below it whose tag is a key of the registry, whether or not the
    key declares a rename map, is a boundary: no rename is applied to it
    or to anything beneath it, and the subtree it roots, if it is still
    attached, is left exactly as it was. *)
Theorem nested_boundary (p : Path) (scopeElement : Node) (q : Path) (s2 : Node)
  (k : string) :
  q <> [] ->
  node_at scopeElement q = Some s2 ->
  isNamedMdxJsxFlowElement s2 = true -> name s2 = Some k ->
  is_Some (registry !! k) ->
  (forall q' t,
      (q ++ q', t)
      ∉ v_renamed (createScopeVisitor valueToEstree registry
                     (scopeComponentNames registry) p scopeElement))
  /\ (node_at (v_node (createScopeVisitor valueToEstree registry
                         (scopeComponentNames registry) p scopeElement)) q = None
      \/ node_at (v_node (createScopeVisitor valueToEstree registry
                            (scopeComponentNames registry) p scopeElement)) q
         = Some s2).
Proof.
  intros Hq Hat Hflow Hname Hkey.
  destruct (visitor_cases p scopeElement) as [-> | (k0 & rf & fuel & _ & _ & _ & ->)].
  { simpl. split; [|auto]. intros q' t H. by apply elem_of_nil in H. }
  cbn [v_node v_renamed].
  apply (walk_boundary valueToEstree rf (scopeComponentNames registry)
           (S fuel) [] scopeElement q s2 k); auto.
  by apply elem_of_scopeComponentNames.
Qed.

(** C4 (as amended). The outer traversal does not stop at a matched scope
    root: after the inner traversal of the root it goes on into the children
    the root then has.  When the transformation completes, the outer
    traversal has visited every node of the resulting tree, in document
    order, the nodes strictly inside scope roots included. *)
Theorem outer_visits_all (tree : Node) :
  r_completion (remarkScopedMdx valueToEstree registry tree) = Returned tt ->
  r_visited (remarkScopedMdx valueToEstree registry tree)
  = positions (r_node (remarkScopedMdx valueToEstree registry tree)).
Proof.
  unfold remarkScopedMdx, visit.
  apply visit_fuel_visited. apply visitor_never_skips.
Qed.




(** Every rename of the transformation happens strictly below a node that
    is a scope root in the tree the traversal started from. *)
Lemma outer_renamed_below (fuel : nat) (p : Path) (n : Node) (q : Path)
  (t : MdxRenameTarget) :
  (q, t) ∈ r_renamed (outer fuel p n) ->
  below (shouldProcessScope registry) n q = true.
Proof.
  revert p n q. induction fuel as [|fuel IH]; intros p n q.
  { simpl. intros H. by apply elem_of_nil in H. }
  rewrite visit_fuel_S.
  destruct (shouldProcessScope registry n) eqn:Htest.
  - assert (Hq : (q, t) ∈ v_renamed (visitor p n)
                 \/ (q, t) ∈ l_renamed (visit_children (outer fuel) p 0
                                          (children (v_node (visitor p n)))) ->
                 below (shouldProcessScope registry) n q = true).
    { intros [H|H].
      - apply (proj2 (visitor_root p n)) in H as (k & q' & ->).
        cbn [below]. by rewrite Htest.
      - apply visit_children_renamed_head in H as (k & q' & ->).
        cbn [below]. by rewrite Htest. }
    destruct (v_completion (visitor p n)) as [[|]| |]; cbn [r_renamed]; intros H;
      apply Hq; auto.
    apply elem_of_app in H. tauto.
  - cbn [v_completion v_renamed v_node r_renamed app]. intros H.
    apply visit_children_renamed in H as (k & c & q' & -> & Hc & Hq' & _).
    cbn [below Nat.add]. cbn [Nat.add] in Hc. rewrite Hc, (IH _ _ _ Hq').
    apply orb_true_r.
Qed.

Lemma shouldProcessScope_boundary (n : Node) :
  shouldProcessScope registry n = true ->
  isNamedMdxJsxFlowElement n = true
  /\ exists k, name n = Some k /\ k ∈ scopeComponentNames registry.
Proof.
  intros H. apply shouldProcessScope_spec in H as [Hflow (k & Hk & Hin)].
  split; [done|]. exists k. split; [done|]. by apply activeScopeNames_subseteq.
Qed.



Lemma outer_positions (fuel : nat) (p : Path) (n : Node) (q : Path) :
  (forall t, (q, t) ∈ r_renamed (outer fuel p n) -> is_Some (node_at n q))
  /\ (is_Some (node_at (r_node (outer fuel p n)) q) -> is_Some (node_at n q)).
Proof.
  apply visit_fuel_positions.
  - intros p' n' q' t. apply visitor_positions.
  - intros p' n' q'. apply visitor_positions.
Qed.

Section OuterFrame.

Variables T Sc : string.
Hypothesis only_under_S : renamed_only_under registry T Sc.
Hypothesis no_target_S : no_target_named registry Sc.

Lemma outer_frame (fuel : nat) (p : Path) (n : Node) (q : Path) (m : Node) :
  node_at n q = Some m -> name m = Some T ->
  below (is_flow_named Sc) n q = false ->
  (forall t, (q, t) ∉ r_renamed (outer fuel p n))
  /\ (node_at (r_node (outer fuel p n)) q = None
      \/ exists m',
           node_at (r_node (outer fuel p n)) q = Some m'
           /\ own_fields m' = own_fields m).
Proof.
  revert p n q m. induction fuel as [|fuel IH]; intros p n q m Hat Hname Hbelow.
  { cbn [visit_fuel r_renamed r_node]. split; [|right; eauto].
    intros t H. by apply elem_of_nil in H. }
  assert (Hloop : forall n0,
            (node_at n0 q = None
             \/ exists m0, node_at n0 q = Some m0 /\ own_fields m0 = own_fields m
                           /\ below (is_flow_named Sc) n0 q = false) ->
            forall i q1, q = i :: q1 ->
            (forall t, (q, t) ∉ l_renamed (visit_children (outer fuel) p 0 (children n0)))
            /\ (node_at (set_children n0
                           (l_nodes (visit_children (outer fuel) p 0 (children n0)))) q
                = None
                \/ exists m',
                     node_at (set_children n0
                                (l_nodes (visit_children (outer fuel) p 0 (children n0)))) q
                     = Some m'
                     /\ own_fields m' = own_fields m)).
  { intros n0 Hn0 i q1 ->. rewrite node_at_cons in Hn0.
    rewrite node_at_cons. cbn [children set_children].
    destruct (children n0 !! i) as [c|] eqn:Hc.
    2:{ split.
        - intros t H. apply visit_children_renamed in H
            as (k0 & c0 & q0 & [= <- <-] & Hc0 & _). cbn [Nat.add] in Hc0. congruence.
        - left. destruct (l_nodes _ !! i) as [c'|] eqn:Hc'; [|done].
          apply visit_children_nodes_inv in Hc' as (c & Hc0 & _). congruence. }
    simpl in Hn0.
    destruct Hn0 as [Hnone | (m0 & Hm0 & Hown & Hb)].
    - split.
      + intros t H. apply visit_children_renamed in H
          as (k0 & c0 & q0 & [= <- <-] & Hc0 & Hq0 & _).
        cbn [Nat.add] in Hc0, Hq0. rewrite Hc in Hc0. injection Hc0 as <-.
        apply (proj1 (outer_positions _ _ _ _)) in Hq0 as [x Hx]. congruence.
      + left. destruct (visit_children_nodes (outer fuel) p 0 _ i c Hc) as [H|H];
          rewrite H; cbn [Nat.add mbind option_bind]; [|done].
        destruct (node_at (r_node _) q1) eqn:Hr; [|done].
        destruct (proj2 (outer_positions fuel (p ++ [i]) c q1)) as [x Hx];
          [by eexists|congruence].
    - cbn [below] in Hb. apply orb_false_iff in Hb as [_ Hb]. rewrite Hc in Hb.
      assert (Hname0 : name m0 = Some T).
      { unfold own_fields in Hown. injection Hown as _ Hn _ _ _. congruence. }
      destruct (IH (p ++ [i]) c q1 m0 Hm0 Hname0 Hb) as [IHr IHn].
      split.
      + intros t H. apply visit_children_renamed in H
          as (k0 & c0 & q0 & [= <- <-] & Hc0 & Hq0 & _).
        cbn [Nat.add] in Hc0, Hq0. rewrite Hc in Hc0. injection Hc0 as <-.
        by apply (IHr t).
      + destruct (visit_children_nodes (outer fuel) p 0 _ i c Hc) as [H|H];
          rewrite H; cbn [Nat.add mbind option_bind].
        * destruct IHn as [IHn|(m' & Hm' & Hown')]; [auto|].
          right. exists m'. split; [done|]. congruence.
        * right. exists m0. auto. }
  assert (Hplain :
    let l := visit_children (outer fuel) p 0 (children n) in
    (forall t, (q, t) ∉ l_renamed l)
    /\ (node_at (set_children n (l_nodes l)) q = None
        \/ exists m', node_at (set_children n (l_nodes l)) q = Some m'
                      /\ own_fields m' = own_fields m)).
  { cbv zeta. destruct q as [|i q1].
    - injection Hat as <-. split.
      + intros t H. apply visit_children_renamed_head in H as (k0 & q' & [=]).
      + right. eexists. split; [reflexivity|].
        unfold own_fields. cbn [type name attributes children value set_children].
        by rewrite visit_children_length.
    - refine (Hloop n _ i q1 eq_refl). right. exists m. auto. }
  rewrite visit_fuel_S.
  destruct (shouldProcessScope registry n) eqn:Htest;
    [|cbn [v_completion v_renamed v_node r_renamed r_node app]; exact Hplain].
  destruct (visitor_cases p n) as [Hv | (k & rf & fuel' & Hk & Hrf & Hh & Hv)];
    [rewrite Hv; cbn [v_completion v_renamed v_node r_renamed r_node app];
     exact Hplain|].
  pose proof (visitor_root p n) as [Hfields Hheads].
  destruct q as [|i q1].
  - injection Hat as <-.
    assert (Hno : forall t, ([], t) ∉ v_renamed (visitor p n)).
    { intros t H. apply Hheads in H as (k0 & q' & [=]). }
    destruct (v_completion (visitor p n)) as [[|]| |]; cbn [r_renamed r_node];
      try (split; [exact Hno|right; eexists; split; [reflexivity|exact Hfields]]).
    split.
    + intros t H. apply elem_of_app in H as [H|H]; [by apply (Hno t)|].
      apply visit_children_renamed_head in H as (k0 & q' & [=]).
    + right. eexists. split; [reflexivity|]. rewrite <- Hfields.
      unfold own_fields. cbn [type name attributes children value set_children].
      by rewrite visit_children_length.
  - assert (HkS : k <> Sc).
    { intros ->. apply shouldProcessScope_spec in Htest as [Hflow _].
      cbn [below] in Hbelow. apply orb_false_iff in Hbelow as [HS _].
      unfold is_flow_named in HS. rewrite Hflow, Hk in HS.
      by rewrite bool_decide_eq_true_2 in HS. }
    assert (HrfT : rf !! T = None).
    { destruct (rf !! T) as [t|] eqn:Ht; [|done].
      destruct HkS. by apply (only_under_S k rf T t). }
    destruct (walk_frame valueToEstree rf (scopeComponentNames registry) T Sc HrfT
                (fun k0 t0 Ht0 => no_target_S k rf k0 t0 Hrf Ht0)
                (S fuel') [] n (i :: q1) m Hat Hname Hbelow) as [Hwr Hwn].
    rewrite Hv. cbn [v_completion v_renamed v_node].
    assert (Hwn' : node_at (r_node (inner rf (S fuel') [] n)) (i :: q1) = None
                   \/ exists m', node_at (r_node (inner rf (S fuel') [] n)) (i :: q1)
                                 = Some m' /\ own_fields m' = own_fields m).
    { destruct Hwn as [Hwn|(m' & Hm' & Hown & _)]; [auto|]. right. eauto. }
    destruct (r_completion (inner rf (S fuel') [] n)) as [[]| |];
      cbn [r_renamed r_node]; try (split; [exact Hwr|exact Hwn']).
    destruct (Hloop (r_node (inner rf (S fuel') [] n)) Hwn i q1 eq_refl) as [Hr Hn].
    split; [|exact Hn].
    intros t H. apply elem_of_app in H as [H|H]; [by apply (Hwr t)|by apply (Hr t)].
Qed.

End OuterFrame.

Lemma below_false (P : Node -> bool) (n : Node) (q : Path) :
  (forall q0 a, strictly_above q0 q -> node_at n q0 = Some a -> P a = false) ->
  below P n q = false.
Proof.
  revert n. induction q as [|i q IH]; intros n Habove; [done|].
  cbn [below]. apply orb_false_iff. split.
  - apply (Habove [] n); [|done]. by exists i, q.
  - destruct (children n !! i) as [c|] eqn:Hc; [|done].
    apply IH. intros q0 a (j & rest & ->) Ha.
    apply (Habove (i :: q0) a); [by exists j, rest|].
    rewrite node_at_cons, Hc. done.
Qed.

Lemma below_false_inv (P : Node -> bool) (n : Node) (q : Path) :
  below P n q = false ->
  forall q0 a, strictly_above q0 q -> node_at n q0 = Some a -> P a = false.
Proof.
  revert n. induction q as [|i q IH]; intros n Hb q0 a (j & rest & Heq) Ha.
  { by destruct q0. }
  cbn [below] in Hb. apply orb_false_iff in Hb as [Hn Hb].
  destruct q0 as [|i0 q0]; simpl in Heq.
  - injection Ha as <-. done.
  - injection Heq as <- ->. rewrite node_at_cons in Ha.
    destruct (children n !! i) as [c|]; [|done].
    apply (IH c Hb q0 a); [by exists j, rest|done].
Qed.

(** C1 (as amended). Let [T] be a source key of the rename map of scope [Sc]
    only, in a registry where no rewrite target has tag name [Sc].  A node
    named [T] that does not lie below a flow element named [Sc] in the
    document is never renamed by the transformation: if it is still attached
    to the resulting tree, its name, its attributes and its children list are
    the ones it had (the children themselves are nodes of their own). *)
Theorem scope_exclusivity (T Sc : string) (tree : Node) (q : Path) (m : Node) :
  renamed_only_under registry T Sc ->
  no_target_named registry Sc ->
  node_at tree q = Some m -> name m = Some T ->
  (forall q0 a, strictly_above q0 q -> node_at tree q0 = Some a ->
                is_flow_named Sc a = false) ->
  (forall t, (q, t) ∉ r_renamed (remarkScopedMdx valueToEstree registry tree))
  /\ (node_at (r_node (remarkScopedMdx valueToEstree registry tree)) q = None
      \/ exists m',
           node_at (r_node (remarkScopedMdx valueToEstree registry tree)) q = Some m'
           /\ own_fields m' = own_fields m).
Proof.
  intros Honly Hnone Hat Hname Habove.
  unfold remarkScopedMdx, visit.
  apply (outer_frame T Sc Honly Hnone); [done|done|].
  by apply below_false.
Qed.

End OuterWalk.

(** ** The properties on concrete documents *)

(** Scenarios 1 to 3 of the specification. *)
Example scenario_clear :
  r_node (remarkScopedMdx referenceValueToEstree registry_blank tree_blank)
  = root [flow "Scope" [flow "Blank" []]].
Proof. vm_compute. reflexivity. Qed.

Example scenario_preserve :
  r_node (remarkScopedMdx referenceValueToEstree registry_note tree_note)
  = root [flow "Scope"
            [mkNode "mdxJsxFlowElement" (Some "Note")
               [MdxJsxAttribute "tone"
                  (ValueExpression
                     (mkValueExpression EmptyString
                        (mkProgram "module"
                           [ExpressionStatement (StringLiteral "info")])))]
               [text "Hello"] None]].
Proof. vm_compute. reflexivity. Qed.

Example scenario_nested :
  r_node (remarkScopedMdx referenceValueToEstree registry_nested tree_nested)
  = root [flow "Outer" [flow "A" [text "Hello"]; flow "Inner" [flow "B" []]]].
Proof. vm_compute. reflexivity. Qed.

(** C7 on the values [true] and ["red"]. *)
Lemma boolean_fast_path_witness :
  toMdxAttribute referenceValueToEstree "open" (JsBoolean true)
  = Ok (MdxJsxAttribute "open" ValueNull)
  /\ toMdxAttribute referenceValueToEstree "variant" (JsString "red")
     = Ok (MdxJsxAttribute "variant"
             (ValueExpression
                (mkValueExpression EmptyString
                   (mkProgram "module" [ExpressionStatement (StringLiteral "red")])))).
Proof.
  split.
  - apply (proj1 (boolean_fast_path referenceValueToEstree "open" (JsBoolean true))).
    reflexivity.
  - apply (proj2 (boolean_fast_path referenceValueToEstree "variant" (JsString "red"))).
    + discriminate.
    + reflexivity.
Defined.

(** C6 on an element with two children. *)
Lemma children_policy_witness :
  children (applyFlowRename referenceValueToEstree element_mark target_blank).1 = []
  /\ children (applyFlowRename referenceValueToEstree element_mark target_note).1
     = [text "a"; text "b"].
Proof.
  split.
  - apply (proj1 (children_policy referenceValueToEstree element_mark target_blank)).
    + reflexivity.
    + reflexivity.
  - apply (proj2 (children_policy referenceValueToEstree element_mark target_note)).
    left. reflexivity.
Defined.

(** C10 on an element that has an attribute. *)
Lemma attributes_replaced_witness :
  buildAttributes referenceValueToEstree (component_props (component target_note))
  = Ok (attributes (applyFlowRename referenceValueToEstree element_mark target_note).1)
  /\ exists element',
       applyFlowRename referenceValueToEstree element_mark target_blank = (element', Ok tt)
       /\ attributes element' = [].
Proof.
  split.
  - apply (proj1 (attributes_replaced referenceValueToEstree element_mark target_note)).
    reflexivity.
  - apply (proj2 (attributes_replaced referenceValueToEstree element_mark target_blank)).
    right. reflexivity.
Defined.

(** C2 on scenario 3: while [Outer] is walked, [Inner] and its [para] are
    left alone. *)
Lemma nested_boundary_witness :
  (forall q' t,
      ([1] ++ q', t)
      ∉ v_renamed (createScopeVisitor referenceValueToEstree registry_nested
                     (scopeComponentNames registry_nested) [0] outer_scope))
  /\ (node_at (v_node (createScopeVisitor referenceValueToEstree registry_nested
                         (scopeComponentNames registry_nested) [0] outer_scope)) [1]
      = None
      \/ node_at (v_node (createScopeVisitor referenceValueToEstree registry_nested
                            (scopeComponentNames registry_nested) [0] outer_scope)) [1]
         = Some inner_scope).
Proof.
  apply (nested_boundary referenceValueToEstree registry_nested [0] outer_scope [1]
           inner_scope "Inner").
  - discriminate.
  - reflexivity.
  - reflexivity.
  - reflexivity.
  - vm_compute. eexists. reflexivity.
Defined.

(** The amended C4 on scenario 3. *)
Lemma outer_visits_all_witness :
  r_visited (remarkScopedMdx referenceValueToEstree registry_nested tree_nested)
  = positions (r_node (remarkScopedMdx referenceValueToEstree registry_nested tree_nested)).
Proof.
  apply (outer_visits_all referenceValueToEstree registry_nested tree_nested).
  vm_compute. reflexivity.
Defined.

(** C4 as stated fails: [Scope] is matched as a scope root, and the outer
    traversal then visits its child. *)
Lemma outer_descends_into_scope :
  node_at tree_blank [0] = Some (flow "Scope" [flow "mark" [text "a"; text "b"]])
  /\ shouldProcessScope registry_blank (flow "Scope" [flow "mark" [text "a"; text "b"]])
     = true
  /\ [0; 0] ∈ r_visited (remarkScopedMdx referenceValueToEstree registry_blank tree_blank).
Proof.
  split; [reflexivity|]. split; [vm_compute; reflexivity|].
  apply (list_elem_of_lookup_2 _ 2). vm_compute. reflexivity.
Qed.




(** The amended C1: [mark] outside [Scope] is kept as it is. *)
Lemma scope_exclusivity_witness :
  (forall t,
      ([0], t) ∉ r_renamed (remarkScopedMdx referenceValueToEstree registry_blank tree_outside))
  /\ (node_at (r_node (remarkScopedMdx referenceValueToEstree registry_blank tree_outside)) [0]
      = None
      \/ exists m',
           node_at (r_node (remarkScopedMdx referenceValueToEstree registry_blank
                              tree_outside)) [0] = Some m'
           /\ own_fields m' = own_fields (flow "mark" [text "kept"])).
Proof.
  apply (scope_exclusivity referenceValueToEstree registry_blank "mark" "Scope"
           tree_outside [0] (flow "mark" [text "kept"])).
  - apply renamed_only_under_check. vm_compute. reflexivity.
  - apply no_target_named_check. vm_compute. reflexivity.
  - reflexivity.
  - reflexivity.
  - apply below_false_inv. reflexivity.
Defined.

(** C1 as stated fails: [br] is a source key of [Timeline] only and lies
    below no [Timeline] element of the document, yet it is renamed, because
    [Panel] renames the [slot] above it to [Timeline]. *)
Lemma rename_below_retargeted_scope :
  renamed_only_under registry_retarget "br" "Timeline"
  /\ node_at tree_retarget [0; 0; 0] = Some (flow "br" [])
  /\ below (is_flow_named "Timeline") tree_retarget [0; 0; 0] = false
  /\ r_renamed (remarkScopedMdx referenceValueToEstree registry_retarget tree_retarget) !! 1
     = Some ([0; 0; 0], renameTo "Blank")
  /\ node_at (r_node (remarkScopedMdx referenceValueToEstree registry_retarget
                        tree_retarget)) [0; 0; 0]
     = Some (flow "Blank" []).
Proof.
  split; [apply renamed_only_under_check; vm_compute; reflexivity|].
  repeat split; vm_compute; reflexivity.
Qed.

(** C9. The code at a chained registry: the transformation of [tree_chain]
    introduces the component [CardLine], a rewrite target of the rename map
    that the registry declares for [Card], and the expansion of the names of
    [tree_chain] does not contain it, although the expansion is documented to
    add every name that the transforms introduce. *)
Lemma expansion_misses_chained_target :
  deriveMdxTransformRegistry definitions_chain = registry_chain
  /\ introduced_by definitions_chain "Article" "Card"
  /\ introduced_by definitions_chain "Card" "CardLine"
  /\ (node_at (r_node (remarkScopedMdx referenceValueToEstree registry_chain tree_chain))
              [0; 0; 0]
      ≫= name) = Some "CardLine"
  /\ ("CardLine" ∉ expandHydratedComponentNames names_chain definitions_chain).
Proof.
  split; [vm_compute; reflexivity|]. split; [|split; [|split]].
  - exists (mkDefinition (Some (scopeRule [("section", renameTo "Card");
                                           ("para", renameTo "line")]))),
      (scopeRule [("section", renameTo "Card"); ("para", renameTo "line")]),
      (list_to_map [("section", renameTo "Card"); ("para", renameTo "line")]),
      "section", (renameTo "Card").
    repeat split; compute_done.
  - exists (mkDefinition (Some (scopeRule [("line", renameTo "CardLine")]))),
      (scopeRule [("line", renameTo "CardLine")]),
      (list_to_map [("line", renameTo "CardLine")]), "line", (renameTo "CardLine").
    repeat split; compute_done.
  - vm_compute. reflexivity.
  - compute_done.
Qed.

(** * Further properties of the code *)

(** ** The attribute list *)

Section AttributeList.

Variable valueToEstree : JsValue -> Result Expression.

Lemma toMdxAttribute_named (propName : string) (propValue : JsValue) (a : Attribute) :
  toMdxAttribute valueToEstree propName propValue = Ok a ->
  exists v, a = MdxJsxAttribute propName v.
Proof.
  unfold toMdxAttribute.
  destruct (is_true_value propValue); [intros [= <-]; eauto|].
  destruct (createAttributeValueExpression valueToEstree propValue);
    [intros [= <-]; eauto|discriminate].
Qed.

Lemma toMdxAttribute_completes (propName : string) (propValue : JsValue) :
  (exists a, toMdxAttribute valueToEstree propName propValue = Ok a)
  <-> is_true_value propValue = true \/ exists expression, valueToEstree propValue = Ok expression.
Proof.
  unfold toMdxAttribute, createAttributeValueExpression.
  destruct (is_true_value propValue); [split; eauto|].
  destruct (valueToEstree propValue) as [ex|e]; split; eauto.
  - intros [a Ha]. discriminate.
  - intros [H|[ex H]]; discriminate.
Qed.

Lemma buildAttributes_loop_ok (entries : list (string * JsValue))
  (acc attrs : list Attribute) :
  buildAttributes_loop valueToEstree entries acc = Ok attrs ->
  exists new,
    attrs = acc ++ new
    /\ Forall2 (fun (entry : string * JsValue) a =>
                  toMdxAttribute valueToEstree entry.1 entry.2 = Ok a)
               (filter (fun entry : string * JsValue => is_undefined entry.2 = false)
                       entries)
               new.
Proof.
  revert acc. induction entries as [|[k v] entries IH]; intros acc; simpl.
  - intros [= <-]. exists []. split; [by rewrite app_nil_r|constructor].
  - destruct (is_undefined v) eqn:Hu.
    + intros H. destruct (IH _ H) as (new & -> & Hnew). exists new. split; [done|].
      rewrite filter_cons_False; [done|]. simpl. congruence.
    + destruct (toMdxAttribute valueToEstree k v) as [a|e] eqn:Ha; [|discriminate].
      intros H. destruct (IH _ H) as (new & -> & Hnew). exists (a :: new).
      split; [by rewrite <- app_assoc|].
      rewrite filter_cons_True; [|done]. by constructor.
Qed.

(** X1. An entry whose value is [undefined] gives no attribute; every other entry
    gives one attribute, carrying the entry's name, and the attributes come
    in the order of the entries. *)
Theorem buildAttributes_defined_entries (entries : list (string * JsValue))
  (attrs : list Attribute) :
  buildAttributes valueToEstree (Some entries) = Ok attrs ->
  Forall2 (fun (entry : string * JsValue) a =>
             toMdxAttribute valueToEstree entry.1 entry.2 = Ok a
             /\ exists v, a = MdxJsxAttribute entry.1 v)
          (filter (fun entry : string * JsValue => is_undefined entry.2 = false) entries)
          attrs.
Proof.
  intros H. apply buildAttributes_loop_ok in H as (new & -> & Hnew). simpl.
  eapply Forall2_impl; [exact Hnew|].
  intros [k v] a Ha. split; [done|]. by eapply toMdxAttribute_named.
Qed.

Lemma buildAttributes_loop_completes (entries : list (string * JsValue))
  (acc : list Attribute) :
  (exists attrs, buildAttributes_loop valueToEstree entries acc = Ok attrs)
  <-> Forall (fun entry : string * JsValue => encodable valueToEstree entry.2) entries.
Proof.
  revert acc. induction entries as [|[k v] entries IH]; intros acc; simpl.
  - split; [constructor|eauto].
  - unfold encodable at 1. rewrite Forall_cons. simpl.
    destruct (is_undefined v) eqn:Hu.
    + rewrite IH. split; [auto|tauto].
    + pose proof (toMdxAttribute_completes k v) as Hc.
      destruct (toMdxAttribute valueToEstree k v) as [a|e].
      * rewrite IH. split; [|tauto]. intros H. split; [|done].
        right. apply Hc. eauto.
      * split; [intros [? ?]; discriminate|].
        intros [[?|H] _]; [discriminate|]. apply Hc in H as [? ?]. discriminate.
Qed.

(** X2. Building the attribute list completes exactly when every value is
    [undefined], [true], or accepted by the encoder. *)
Theorem buildAttributes_completes (entries : list (string * JsValue)) :
  (exists attrs, buildAttributes valueToEstree (Some entries) = Ok attrs)
  <-> Forall (fun entry : string * JsValue => encodable valueToEstree entry.2) entries.
Proof. apply buildAttributes_loop_completes. Qed.

Lemma buildAttributes_loop_throws (entries : list (string * JsValue))
  (acc : list Attribute) (e : Thrown) :
  buildAttributes_loop valueToEstree entries acc = Throw e ->
  exists before propName propValue after error,
    entries = before ++ (propName, propValue) :: after
    /\ Forall (fun entry : string * JsValue => encodable valueToEstree entry.2) before
    /\ is_undefined propValue = false /\ is_true_value propValue = false
    /\ valueToEstree propValue = Throw error
    /\ e = ThrownError (serialization_message propName (message_of error)).
Proof.
  revert acc. induction entries as [|[k v] entries IH]; intros acc; simpl; [discriminate|].
  assert (Hrest : forall acc',
            encodable valueToEstree v ->
            buildAttributes_loop valueToEstree entries acc' = Throw e ->
            exists before propName propValue after error,
              (k, v) :: entries = before ++ (propName, propValue) :: after
              /\ Forall (fun entry : string * JsValue =>
                           encodable valueToEstree entry.2) before
              /\ is_undefined propValue = false /\ is_true_value propValue = false
              /\ valueToEstree propValue = Throw error
              /\ e = ThrownError (serialization_message propName (message_of error))).
  { intros acc' Hv H.
    destruct (IH _ H) as (before & pn & pv & after & err & -> & Hb & Hrest').
    exists ((k, v) :: before), pn, pv, after, err. split; [done|].
    split; [by constructor|done]. }
  destruct (is_undefined v) eqn:Hu; [apply Hrest; by left|].
  destruct (toMdxAttribute valueToEstree k v) as [a|e'] eqn:Ha.
  - apply Hrest. right. apply (proj1 (toMdxAttribute_completes k v)). eauto.
  - intros [= ->]. unfold toMdxAttribute, createAttributeValueExpression in Ha.
    destruct (is_true_value v) eqn:Ht; [discriminate|].
    destruct (valueToEstree v) as [ex|err] eqn:Hv; [discriminate|].
    injection Ha as <-.
    exists [], k, v, entries, err. repeat split; done.
Qed.

End AttributeList.

(** ** The registry adapter *)

Lemma set_property_lookup {A} (obj : gmap string A) (key : string) (value : A)
  (k : string) :
  set_property obj key value !! k
  = if decide (k = key /\ k <> "__proto__") then Some value else obj !! k.
Proof.
  unfold set_property. case_bool_decide as Hkey.
  - subst key. rewrite decide_False; [done|]. by intros [-> ?].
  - destruct (decide (k = key)) as [->|Hne].
    + rewrite lookup_insert_eq. by rewrite decide_True.
    + rewrite lookup_insert_ne by done. rewrite decide_False; [done|]. by intros [? _].
Qed.

Lemma derive_loop_lookup (l : list (string * ComponentDefinition)) (k : string) :
  NoDup l.*1 ->
  foldl (fun (registry : gmap string MdxTransformRule)
             (entry : string * ComponentDefinition) =>
           match mdxTransform entry.2 with
           | Some rule => set_property registry entry.1 rule
           | None => registry
           end) ∅ l !! k
  = if decide (k = "__proto__") then None
    else (list_to_map l : gmap string ComponentDefinition) !! k ≫= mdxTransform.
Proof.
  induction l as [|[k0 d] l IH] using rev_ind; intros Hnd.
  { simpl. rewrite lookup_empty. by destruct (decide _). }
  rewrite fmap_app in Hnd. apply NoDup_app in Hnd as (Hnd & Hfresh & _).
  assert (Hk0 : k0 ∉ l.*1).
  { intros Hin. apply (Hfresh k0 Hin). simpl. apply list_elem_of_here. }
  rewrite foldl_app. simpl.
  assert (Hmap : (list_to_map (l ++ [(k0, d)]) : gmap string ComponentDefinition) !! k
                 = if decide (k = k0) then Some d
                   else (list_to_map l : gmap string ComponentDefinition) !! k).
  { rewrite list_to_map_app. simpl. rewrite lookup_union.
    destruct (decide (k = k0)) as [->|Hne].
    - rewrite (not_elem_of_list_to_map_1 _ k0 Hk0), lookup_insert_eq. done.
    - rewrite lookup_insert_ne, lookup_empty by done.
      by destruct (list_to_map l !! k). }
  rewrite Hmap. specialize (IH Hnd).
  destruct (mdxTransform d) as [rule|] eqn:Hd.
  - rewrite set_property_lookup, IH.
    destruct (decide (k = "__proto__")) as [->|Hproto].
    + rewrite decide_False; [done|]. by intros [_ ?].
    + destruct (decide (k = k0)) as [->|Hne].
      * rewrite decide_True by done. simpl. by rewrite Hd.
      * rewrite decide_False; [done|]. by intros [? _].
  - rewrite IH. destruct (decide (k = "__proto__")); [done|].
    destruct (decide (k = k0)) as [->|Hne]; [|done].
    rewrite (not_elem_of_list_to_map_1 _ k0 Hk0). simpl. by rewrite Hd.
Qed.

Lemma derive_lookup (componentDefinitions : gmap string ComponentDefinition)
  (componentName : string) :
  deriveMdxTransformRegistry componentDefinitions !! componentName
  = if decide (componentName = "__proto__") then None
    else componentDefinitions !! componentName ≫= mdxTransform.
Proof.
  unfold deriveMdxTransformRegistry.
  rewrite derive_loop_lookup by apply NoDup_fst_map_to_list.
  by rewrite list_to_map_to_list.
Qed.

Lemma derive_lookup_Some (componentDefinitions : gmap string ComponentDefinition)
  (componentName : string) (rule : MdxTransformRule) :
  deriveMdxTransformRegistry componentDefinitions !! componentName = Some rule ->
  componentDefinitions !! componentName ≫= mdxTransform = Some rule.
Proof. rewrite derive_lookup. by destruct (decide _). Qed.

(** X3. The derived registry has a rule for exactly the component names,
    other than [__proto__], whose definition declares [mdxTransform], and it
    is that rule.  It never has the key [__proto__]: the assignment of the
    rule of a definition with that name replaces the prototype of the
    registry. *)
Theorem deriveMdxTransformRegistry_lookup
  (componentDefinitions : gmap string ComponentDefinition) (componentName : string) :
  deriveMdxTransformRegistry componentDefinitions !! componentName
  = if decide (componentName = "__proto__") then None
    else componentDefinitions !! componentName ≫= mdxTransform.
Proof. apply derive_lookup. Qed.

(** X4. The expansion keeps every input name and grows with the input. *)
Theorem expansion_extensive_monotone (names1 names2 : gset string)
  (componentDefinitions : gmap string ComponentDefinition) :
  names1 ⊆ expandHydratedComponentNames names1 componentDefinitions
  /\ (names1 ⊆ names2 ->
      expandHydratedComponentNames names1 componentDefinitions
      ⊆ expandHydratedComponentNames names2 componentDefinitions).
Proof.
  unfold expandHydratedComponentNames. split.
  - intros x Hx. apply expand_loop_elem_of. auto.
  - intros Hsub x Hx. apply expand_loop_elem_of in Hx as [Hx|(c & Hc & Hi)];
      apply expand_loop_elem_of; [auto|].
    right. exists c. split; [|done].
    apply elem_of_elements. apply Hsub. by apply elem_of_elements.
Qed.

(** X5. The expansion returns the input set itself exactly when the set already
    contains every target of the rename maps of its own members; in
    particular when none of its members declares a rename map. *)
Theorem expansion_fixed_iff_closed (componentNames : gset string)
  (componentDefinitions : gmap string ComponentDefinition) :
  expandHydratedComponentNames componentNames componentDefinitions = componentNames
  <-> forall componentName x,
        componentName ∈ componentNames ->
        introduced_by componentDefinitions componentName x ->
        x ∈ componentNames.
Proof.
  unfold expandHydratedComponentNames. split.
  - intros Heq c x Hc Hi. rewrite <- Heq. apply expand_loop_elem_of.
    right. exists c. split; [by apply elem_of_elements|done].
  - intros Hclosed. apply set_eq. intros x. rewrite expand_loop_elem_of. split; [|auto].
    intros [Hx|(c & Hc & Hi)]; [done|].
    apply (Hclosed c x); [by apply elem_of_elements in Hc|done].
Qed.

(** ** The loader utilities *)

Section LoaderProperties.

Context {Entry Component : Type}.
Variable resolveEntry : Entry -> Component.
Variable resolveInherited : string -> Component.

Lemma get_property_proto (components : gmap string Entry) :
  get_property components "__proto__" <> NotFound.
Proof. unfold get_property. by destruct (components !! "__proto__"). Qed.

Lemma load_loop_spec (components : gmap string Entry) (ids : list string) :
  match foldl (loadComponent resolveEntry resolveInherited components) (Object ∅) ids with
  | PrototypeReplaced => "__proto__" ∈ ids
  | Object resolved =>
      ("__proto__" ∉ ids)
      /\ forall id,
           resolved !! id
           = if decide (id ∈ ids)
             then match get_property components id with
                  | FoundOwn entry => Some (resolveEntry entry)
                  | FoundInherited => Some (resolveInherited id)
                  | NotFound => None
                  end
             else None
  end.
Proof.
  induction ids as [|i ids IH] using rev_ind.
  { cbn [foldl]. split; [apply not_elem_of_nil|]. intros id. rewrite lookup_empty.
    destruct (decide _) as [H|_]; [by apply elem_of_nil in H|done]. }
  assert (Hin : forall id, id ∈ ids ++ [i] <-> id ∈ ids \/ id = i).
  { intros id. by rewrite elem_of_app, list_elem_of_singleton. }
  rewrite foldl_app. cbn [foldl].
  destruct (foldl _ _ ids) as [resolved|]; cbn [loadComponent].
  2:{ apply Hin. by left. }
  destruct IH as [Hno IH].
  assert (Hassign : forall value : Component,
            get_property components i <> NotFound ->
            (forall id, id = i ->
                        match get_property components id with
                        | FoundOwn entry => Some (resolveEntry entry)
                        | FoundInherited => Some (resolveInherited id)
                        | NotFound => None
                        end = Some value) ->
            match assign_property resolved i value with
            | PrototypeReplaced => "__proto__" ∈ ids ++ [i]
            | Object resolved =>
                ("__proto__" ∉ ids ++ [i])
                /\ forall id,
                     resolved !! id
                     = if decide (id ∈ ids ++ [i])
                       then match get_property components id with
                            | FoundOwn entry => Some (resolveEntry entry)
                            | FoundInherited => Some (resolveInherited id)
                            | NotFound => None
                            end
                       else None
            end).
  { intros value Hfound Hvalue. unfold assign_property.
    destruct (decide (i = "__proto__")) as [->|Hne].
    - rewrite bool_decide_eq_true_2 by done.
      rewrite bool_decide_eq_true_2 by (by rewrite IH, decide_False).
      apply Hin. by right.
    - rewrite (bool_decide_eq_false_2 _ Hne). cbn [andb]. split.
      + intros H. apply Hin in H as [H|H]; [done|]. by destruct Hne.
      + intros id. destruct (decide (id = i)) as [->|Hid].
        * rewrite lookup_insert_eq, decide_True by (apply Hin; by right).
          symmetry. by apply Hvalue.
        * rewrite lookup_insert_ne, IH by done.
          destruct (decide (id ∈ ids)), (decide (id ∈ ids ++ [i])) as [H|H]; try done.
          -- destruct H. apply Hin. by left.
          -- apply Hin in H as [H|H]; done. }
  destruct (get_property components i) as [entry| |] eqn:Hi.
  - apply Hassign; [done|]. intros id ->. by rewrite Hi.
  - apply Hassign; [done|]. intros id ->. by rewrite Hi.
  - split.
    + intros H. apply Hin in H as [H|H]; [done|]. subst i.
      by apply (get_property_proto components).
    + intros id. rewrite IH.
      destruct (decide (id ∈ ids)), (decide (id ∈ ids ++ [i])) as [H|H]; try done.
      * destruct H. apply Hin. by left.
      * apply Hin in H as [H| ->]; [done|]. by rewrite Hi.
Qed.


Lemma load_from_set_spec (registry : gmap string Entry) (allowed : gset string) :
  match getLoadableComponentsFromSet resolveEntry resolveInherited
          (createComponentSet registry) allowed with
  | PrototypeReplaced => "__proto__" ∈ allowed /\ is_Some (registry !! "__proto__")
  | Object loaded =>
      ~ ("__proto__" ∈ allowed /\ is_Some (registry !! "__proto__"))
      /\ forall id,
           loaded !! id = if decide (id ∈ allowed) then resolveEntry <$> registry !! id
                          else None
  end.
Proof.
  unfold getLoadableComponentsFromSet, createComponentSet, filterAllowedIds, stringKeysOf.
  cbn [prepared_registry prepared_keys]. unfold getLoadableComponents. simpl.
  assert (Hkeys : forall id,
            id ∈ filter (fun id => id ∈ allowed) (map_to_list registry).*1
            <-> id ∈ allowed /\ is_Some (registry !! id)).
  { intros id. rewrite list_elem_of_filter, list_elem_of_fmap. split.
    - intros [Ha ([k entry] & -> & Hin)]. apply elem_of_map_to_list in Hin. eauto.
    - intros [Ha [entry Hr]]. split; [done|]. exists (id, entry).
      split; [done|]. by apply elem_of_map_to_list. }
  pose proof (load_loop_spec registry
                (filter (fun id => id ∈ allowed) (map_to_list registry).*1)) as Hspec.
  destruct (foldl _ _ _) as [loaded|].
  - destruct Hspec as [Hno Hlk]. split; [by rewrite <- Hkeys|].
    intros id. rewrite Hlk.
    destruct (decide (id ∈ allowed)) as [Ha|Hna].
    + destruct (registry !! id) as [entry|] eqn:Hr.
      * rewrite decide_True by (apply Hkeys; eauto).
        by rewrite (proj2 (get_property_own registry id entry) Hr).
      * rewrite decide_False; [done|]. intros H. apply Hkeys in H as [_ [? ?]]. congruence.
    + rewrite decide_False; [done|]. intros H. apply Hkeys in H as [Ha _]. done.
  - by apply Hkeys.
Qed.

Lemma load_from_set_lookup (registry : gmap string Entry) (allowed : gset string)
  (loaded : gmap string Component) (id : string) :
  getLoadableComponentsFromSet resolveEntry resolveInherited
    (createComponentSet registry) allowed = Object loaded ->
  loaded !! id = if decide (id ∈ allowed) then resolveEntry <$> registry !! id else None.
Proof.
  intros Hl. pose proof (load_from_set_spec registry allowed) as Hspec.
  rewrite Hl in Hspec. by destruct Hspec as [_ Hlk].
Qed.

(** X7. Loading from a prepared registry replaces the prototype of the
    result exactly when [__proto__] is an own key of the registry and is in
    the allowed set.  Otherwise it resolves exactly the entries of the
    registry whose key is in the allowed set; allowed names that are no key
    of the registry are ignored. *)
Theorem getLoadableComponentsFromSet_lookup (registry : gmap string Entry)
  (allowed : gset string) :
  (getLoadableComponentsFromSet resolveEntry resolveInherited
     (createComponentSet registry) allowed = PrototypeReplaced
   <-> "__proto__" ∈ allowed /\ is_Some (registry !! "__proto__"))
  /\ forall loaded id,
       getLoadableComponentsFromSet resolveEntry resolveInherited
         (createComponentSet registry) allowed = Object loaded ->
       loaded !! id
       = if decide (id ∈ allowed) then resolveEntry <$> registry !! id else None.
Proof.
  split.
  - pose proof (load_from_set_spec registry allowed) as Hspec.
    destruct (getLoadableComponentsFromSet _ _ _ _) as [loaded|].
    + destruct Hspec as [Hno _]. split; [done|tauto].
    + done.
  - intros loaded id. apply load_from_set_lookup.
Qed.

End LoaderProperties.

(** ** The authoring layer *)

(** The transform map has a rule under [__proto__] and the registry has no
    own property of that name. *)
Local Abbreviation replaces_prototype transformMap registry :=
  ((exists rule : MdxTransformRule, transformMap !! "__proto__" = Some (Some rule))
   /\ registry !! "__proto__" = None).

Lemma define_loop_spec (transformMap : gmap string (option MdxTransformRule))
  (registry : gmap string AuthoredEntry) (l : list string) :
  NoDup l ->
  match foldl (attachTransform transformMap) (Object registry) l with
  | PrototypeReplaced => "__proto__" ∈ l /\ replaces_prototype transformMap registry
  | Object defined =>
      ~ ("__proto__" ∈ l /\ replaces_prototype transformMap registry)
      /\ forall k,
           defined !! k
           = if decide (k ∈ l)
             then match transformMap !! k with
                  | Some (Some rule) => Some (withMdxTransform (registry !! k) rule)
                  | _ => registry !! k
                  end
             else registry !! k
  end.
Proof.
  induction l as [|i l IH] using rev_ind; intros Hnd.
  { cbn [foldl]. split; [by intros [H _]; apply elem_of_nil in H|].
    intros k. destruct (decide (k ∈ [])) as [H|_]; [by apply elem_of_nil in H|done]. }
  apply NoDup_app in Hnd as (Hnd & Hfresh & _). specialize (IH Hnd).
  assert (Hi : i ∉ l).
  { intros Hin. apply (Hfresh i Hin). apply list_elem_of_here. }
  assert (Hin : forall k, k ∈ l ++ [i] <-> k ∈ l \/ k = i).
  { intros k. by rewrite elem_of_app, list_elem_of_singleton. }
  rewrite foldl_app. cbn [foldl].
  destruct (foldl (attachTransform transformMap) (Object registry) l)
    as [defined|] eqn:Hfold; cbn [attachTransform]; unfold assign_property.
  2:{ destruct IH as [Hl Hcorner]. split; [|done]. apply Hin. by left. }
  destruct IH as [Hno IH].
  assert (Hdi : defined !! i = registry !! i).
  { rewrite IH. by rewrite decide_False. }
  destruct (transformMap !! i) as [[rule|]|] eqn:Hti.
  - destruct (bool_decide (i = "__proto__") && bool_decide (defined !! i = None))
      eqn:Hcheck.
    + apply andb_true_iff in Hcheck as [H1 H2].
      apply bool_decide_eq_true in H1. apply bool_decide_eq_true in H2. subst i.
      split; [apply Hin; by right|]. split; [by exists rule|]. by rewrite <- Hdi.
    + split.
      * intros [Hl Hcorner]. apply Hin in Hl as [Hl|Hl]; [by apply Hno|].
        destruct Hcorner as [_ Hreg]. subst i.
        apply andb_false_iff in Hcheck as [H|H].
        -- by apply bool_decide_eq_false in H.
        -- apply bool_decide_eq_false in H. by rewrite Hdi in H.
      * intros k. destruct (decide (k = i)) as [->|Hne].
        -- rewrite lookup_insert_eq, Hdi, decide_True by (apply Hin; by right).
           by rewrite Hti.
        -- rewrite lookup_insert_ne, IH by done.
           destruct (decide (k ∈ l)), (decide (k ∈ l ++ [i])) as [H|H]; try done.
           ++ destruct H. apply Hin. by left.
           ++ apply Hin in H as [H|H]; done.
  - split.
    + intros [Hl Hcorner]. apply Hin in Hl as [Hl|Hl]; [by apply Hno|].
      destruct Hcorner as [[rule Hrule] _]. subst i. congruence.
    + intros k. rewrite IH. destruct (decide (k = i)) as [->|Hne].
      * rewrite decide_False, decide_True by (done || (apply Hin; by right)).
        by rewrite Hti.
      * destruct (decide (k ∈ l)), (decide (k ∈ l ++ [i])) as [H|H]; try done.
        -- destruct H. apply Hin. by left.
        -- apply Hin in H as [H|H]; done.
  - split.
    + intros [Hl Hcorner]. apply Hin in Hl as [Hl|Hl]; [by apply Hno|].
      destruct Hcorner as [[rule Hrule] _]. subst i. congruence.
    + intros k. rewrite IH. destruct (decide (k = i)) as [->|Hne].
      * rewrite decide_False, decide_True by (done || (apply Hin; by right)).
        by rewrite Hti.
      * destruct (decide (k ∈ l)), (decide (k ∈ l ++ [i])) as [H|H]; try done.
        -- destruct H. apply Hin. by left.
        -- apply Hin in H as [H|H]; done.
Qed.

Lemma define_spec (registry : gmap string AuthoredEntry)
  (buildTransforms : TransformContext -> gmap string (option MdxTransformRule)) :
  match defineComponents registry (Some buildTransforms) with
  | PrototypeReplaced =>
      replaces_prototype (buildTransforms createTransformContext) registry
  | Object defined =>
      ~ replaces_prototype (buildTransforms createTransformContext) registry
      /\ forall k,
           defined !! k
           = match buildTransforms createTransformContext !! k with
             | Some (Some rule) => Some (withMdxTransform (registry !! k) rule)
             | _ => registry !! k
             end
  end.
Proof.
  unfold defineComponents, stringKeysOf.
  pose proof (define_loop_spec (buildTransforms createTransformContext) registry
                (map_to_list (buildTransforms createTransformContext)).*1
                (NoDup_fst_map_to_list _)) as Hspec.
  assert (Hkeys : forall k o, buildTransforms createTransformContext !! k = Some o ->
                              k ∈ (map_to_list (buildTransforms createTransformContext)).*1).
  { intros k o Hk. apply list_elem_of_fmap. exists (k, o). split; [done|].
    by apply elem_of_map_to_list. }
  destruct (foldl _ _ _) as [defined|]; [|by destruct Hspec].
  destruct Hspec as [Hno Hlk]. split.
  - intros [[rule Hrule] Hreg]. apply Hno. split; [by eapply Hkeys|eauto].
  - intros k. rewrite Hlk. destruct (decide _) as [Hin|Hnin]; [done|].
    destruct (buildTransforms createTransformContext !! k) as [o|] eqn:Hk; [|done].
    destruct Hnin. by eapply Hkeys.
Qed.

Lemma define_lookup (registry defined : gmap string AuthoredEntry)
  (buildTransforms : TransformContext -> gmap string (option MdxTransformRule))
  (k : string) :
  defineComponents registry (Some buildTransforms) = Object defined ->
  defined !! k
  = match buildTransforms createTransformContext !! k with
    | Some (Some rule) => Some (withMdxTransform (registry !! k) rule)
    | _ => registry !! k
    end.
Proof.
  intros Hd. pose proof (define_spec registry buildTransforms) as Hspec.
  rewrite Hd in Hspec. by destruct Hspec as [_ Hlk].
Qed.

(** X8. [defineComponents] with a builder attaches the rules of the transform
    map: an entry whose key has a rule in the map is the old entry with
    [mdxTransform] set to that rule (a new entry with nothing else when the
    registry has no such key), and every other entry, also one whose key maps
    to [undefined], is the old one.  The one exception is a rule under
    [__proto__] when the registry has no entry of that name: then the
    function replaces the prototype of its result, and only then. *)
Theorem defineComponents_lookup (registry : gmap string AuthoredEntry)
  (buildTransforms : TransformContext -> gmap string (option MdxTransformRule)) :
  (defineComponents registry (Some buildTransforms) = PrototypeReplaced
   <-> (exists rule, buildTransforms createTransformContext !! "__proto__"
                     = Some (Some rule))
       /\ registry !! "__proto__" = None)
  /\ forall defined k,
       defineComponents registry (Some buildTransforms) = Object defined ->
       defined !! k
       = match buildTransforms createTransformContext !! k with
         | Some (Some rule) =>
             Some {| entry_fields := default ∅ (entry_fields <$> registry !! k);
                     entry_mdxTransform := Some rule |}
         | _ => registry !! k
         end.
Proof.
  pose proof (define_spec registry buildTransforms) as Hspec. split.
  - destruct (defineComponents registry (Some buildTransforms)) as [defined|].
    + destruct Hspec as [Hno _]. split; [done|tauto].
    + done.
  - intros defined k Hd. rewrite (define_lookup registry defined buildTransforms k Hd).
    destruct (buildTransforms createTransformContext !! k) as [[rule|]|]; try done.
    unfold withMdxTransform. by destruct (registry !! k).
Qed.

Lemma derive_define_lookup (registry defined : gmap string AuthoredEntry)
  (buildTransforms : TransformContext -> gmap string (option MdxTransformRule))
  (k : string) :
  defineComponents registry (Some buildTransforms) = Object defined ->
  deriveMdxTransformRegistry (transformAware defined) !! k
  = if decide (k = "__proto__") then None
    else match buildTransforms createTransformContext !! k with
         | Some (Some rule) => Some rule
         | _ => registry !! k ≫= entry_mdxTransform
         end.
Proof.
  intros Hd. rewrite derive_lookup. destruct (decide _); [done|].
  unfold transformAware.
  rewrite lookup_fmap, (define_lookup registry defined buildTransforms k Hd).
  destruct (buildTransforms createTransformContext !! k) as [[rule|]|]; try done;
    by destruct (registry !! k).
Qed.

(** X9. The rules attached by [defineComponents] are the rules the plugin
    gets: in the registry derived from the defined components, a key with a
    rule in the transform map has that rule, and any other key has the rule
    its entry already declared, if any; the key [__proto__] has none. *)
Theorem derive_after_defineComponents (registry defined : gmap string AuthoredEntry)
  (buildTransforms : TransformContext -> gmap string (option MdxTransformRule))
  (k : string) :
  defineComponents registry (Some buildTransforms) = Object defined ->
  deriveMdxTransformRegistry (transformAware defined) !! k
  = if decide (k = "__proto__") then None
    else match buildTransforms createTransformContext !! k with
         | Some (Some rule) => Some rule
         | _ => registry !! k ≫= entry_mdxTransform
         end.
Proof. apply derive_define_lookup. Qed.

(** X10. A component, not named [__proto__], whose rule is authored with
    [transform] and [flow] is an active scope of the plugin, with the
    authored map as its rename map, also when that map is empty; [to] hands
    its target over unchanged. *)
Theorem authored_flow_activates_scope (registry defined : gmap string AuthoredEntry)
  (buildTransforms : TransformContext -> gmap string (option MdxTransformRule))
  (k : string) (author : ToContext -> gmap string MdxRenameTarget) :
  buildTransforms createTransformContext !! k
  = Some (Some (ctx_transform createTransformContext
                  (fun mdx => ctx_flow mdx author))) ->
  k <> "__proto__" ->
  defineComponents registry (Some buildTransforms) = Object defined ->
  k ∈ activeScopeNames (deriveMdxTransformRegistry (transformAware defined))
  /\ rename_map_of (deriveMdxTransformRegistry (transformAware defined))
       k (author (mkToContext (fun target => target))).
Proof.
  intros Hk Hne Hd.
  pose proof (derive_define_lookup registry defined buildTransforms k Hd) as Hlk.
  rewrite decide_False, Hk in Hlk by done. split.
  - apply elem_of_activeScopeNames. eexists. split; [exact Hlk|reflexivity].
  - eexists. split; [exact Hlk|reflexivity].
Qed.

(** ** Invariants of the generic traversal *)

Section VisitInvariants.

Variable test : Node -> bool.
Variable visitor : Visitor.

Local Abbreviation at_node p n :=
  (if test n then visitor p n else mkVisitorResult n [] (Returned CONTINUE)).

Lemma set_children_same (n : Node) : set_children n (children n) = n.
Proof. by destruct n. Qed.

Section Unchanged.

(** [other e]: an exception that a visitor throws without having done
    anything. *)
Variable other : Thrown -> Prop.

Lemma visit_children_unchanged (go : Path -> Node -> VisitResult) (p : Path)
  (offset : nat) (cs : list Node) :
  (forall p' c, r_renamed (go p' c) = [] ->
                r_node (go p' c) = c
                /\ forall e, r_completion (go p' c) = Threw e -> other e) ->
  l_renamed (visit_children go p offset cs) = [] ->
  l_nodes (visit_children go p offset cs) = cs
  /\ forall e, l_completion (visit_children go p offset cs) = Threw e -> other e.
Proof.
  intros Hgo. revert offset. induction cs as [|c cs IH]; intros offset; simpl; [done|].
  assert (Hshift : forall l : list Rename, shift offset l = [] -> l = []).
  { intros l. unfold shift. by destruct l. }
  destruct (r_completion (go (p ++ [offset]) c)) eqn:Hc; simpl.
  - intros H. apply app_eq_nil in H as [H1 H2]. apply Hshift in H1.
    destruct (Hgo _ _ H1) as [-> _]. destruct (IH _ H2) as [-> Hl]. done.
  - intros H. apply Hshift in H. destruct (Hgo _ _ H) as [-> Hno].
    split; [done|]. intros e0 [= <-]. by apply Hno.
  - intros H. apply Hshift in H. destruct (Hgo _ _ H) as [-> _]. done.
Qed.

(** A traversal that records no rename leaves the tree as it is, and when
    it throws, it throws what a visitor threw without having done
    anything. *)
Lemma visit_fuel_unchanged :
  (forall p n, test n = true -> v_renamed (visitor p n) = [] ->
               v_node (visitor p n) = n
               /\ forall e, v_completion (visitor p n) = Threw e -> other e) ->
  forall fuel p n,
    r_renamed (visit_fuel fuel test visitor p n) = [] ->
    r_node (visit_fuel fuel test visitor p n) = n
    /\ forall e, r_completion (visit_fuel fuel test visitor p n) = Threw e -> other e.
Proof.
  intros Hv. induction fuel as [|fuel IH]; intros p n; [done|].
  rewrite visit_fuel_S.
  assert (Hat : v_renamed (at_node p n) = [] ->
                v_node (at_node p n) = n
                /\ forall e, v_completion (at_node p n) = Threw e -> other e).
  { destruct (test n) eqn:Ht; [by apply Hv|done]. }
  destruct (v_completion (at_node p n)) as [[|]|e0|] eqn:Hc;
    cbn [r_renamed r_node r_completion]; intros H.
  - apply app_eq_nil in H as [H1 H2]. destruct (Hat H1) as [Hn _]. rewrite Hn in *.
    destruct (visit_children_unchanged _ p 0 (children n) IH H2) as [-> Hl].
    by rewrite set_children_same.
  - destruct (Hat H) as [-> _]. done.
  - destruct (Hat H) as [-> Hno]. split; [done|]. intros e [= <-]. by apply Hno.
  - destruct (Hat H) as [-> _]. done.
Qed.

End Unchanged.

Section Quiet.

(** [Inv p n]: the traversal of [n] at position [p] finds nothing to do. *)
Variable Inv : Path -> Node -> Prop.
Hypothesis Inv_step :
  forall p n, Inv p n ->
    v_renamed (at_node p n) = [] /\ v_node (at_node p n) = n
    /\ (forall e, v_completion (at_node p n) <> Threw e)
    /\ (v_completion (at_node p n) = Returned CONTINUE ->
        forall i c, children n !! i = Some c -> Inv (p ++ [i]) c).

Lemma visit_children_quiet (go : Path -> Node -> VisitResult) (p : Path)
  (offset : nat) (cs : list Node) :
  (forall i c, cs !! i = Some c ->
               r_renamed (go (p ++ [offset + i]) c) = []
               /\ forall e, r_completion (go (p ++ [offset + i]) c) <> Threw e) ->
  l_renamed (visit_children go p offset cs) = []
  /\ forall e, l_completion (visit_children go p offset cs) <> Threw e.
Proof.
  revert offset. induction cs as [|c cs IH]; intros offset Hgo; [done|].
  destruct (Hgo 0 c eq_refl) as [H0 Hno]. rewrite Nat.add_0_r in H0, Hno.
  assert (Hrest : l_renamed (visit_children go p (S offset) cs) = []
                  /\ forall e, l_completion (visit_children go p (S offset) cs)
                               <> Threw e).
  { apply IH. intros i c' Hi. rewrite Nat.add_succ_l, <- Nat.add_succ_r.
    by apply (Hgo (S i)). }
  destruct Hrest as [Hr Hl]. cbn [visit_children].
  destruct (r_completion (go (p ++ [offset]) c)) as [u|e0|] eqn:Hc;
    cbn [l_renamed l_completion]; rewrite H0; simpl.
  - by rewrite Hr.
  - by destruct (Hno e0).
  - done.
Qed.

(** A traversal that finds nothing to do applies no rename and does not
    throw. *)
Lemma visit_fuel_quiet (fuel : nat) (p : Path) (n : Node) :
  Inv p n ->
  r_renamed (visit_fuel fuel test visitor p n) = []
  /\ forall e, r_completion (visit_fuel fuel test visitor p n) <> Threw e.
Proof.
  revert p n. induction fuel as [|fuel IH]; intros p n H; [done|].
  rewrite visit_fuel_S. destruct (Inv_step p n H) as (Hr & Hn & Hno & Hc).
  destruct (v_completion (at_node p n)) as [[|]|e0|]; cbn [r_renamed r_completion];
    rewrite Hr; try done.
  - rewrite Hn. simpl. apply visit_children_quiet.
    intros i c Hi. apply IH. by apply Hc.
  - by destruct (Hno e0).
Qed.

End Quiet.

Section Pointwise.

(** [R m m']: what a node [m'] of the tree left by the traversal has in
    common with the node [m] that was at its position at the start. *)
Variable R : Node -> Node -> Prop.
Hypothesis R_refl : forall m, R m m.
Hypothesis R_trans : forall m1 m2 m3, R m1 m2 -> R m2 m3 -> R m1 m3.
Hypothesis R_children :
  forall m m' cs, length cs = length (children m') -> R m m' ->
                  R m (set_children m' cs).
Hypothesis visitor_pointwise :
  forall p n q m', test n = true -> node_at (v_node (visitor p n)) q = Some m' ->
                   exists m, node_at n q = Some m /\ R m m'.

Lemma visit_fuel_pointwise (fuel : nat) (p : Path) (n : Node) (q : Path) (m' : Node) :
  node_at (r_node (visit_fuel fuel test visitor p n)) q = Some m' ->
  exists m, node_at n q = Some m /\ R m m'.
Proof.
  revert p n q m'. induction fuel as [|fuel IH]; intros p n q m'.
  { cbn [visit_fuel r_node]. eauto. }
  rewrite visit_fuel_S.
  assert (Hat : forall q m', node_at (v_node (at_node p n)) q = Some m' ->
                             exists m, node_at n q = Some m /\ R m m').
  { destruct (test n) eqn:Ht; [intros q0 m0; by apply visitor_pointwise|]. simpl. eauto. }
  destruct (v_completion (at_node p n)) as [[|]|e0|]; cbn [r_node]; try apply Hat.
  destruct q as [|k q].
  - intros [= <-]. destruct (Hat [] _ eq_refl) as (m & Hm & HR).
    exists m. split; [done|]. apply R_children; [|done]. apply visit_children_length.
  - rewrite node_at_cons. cbn [children set_children].
    destruct (l_nodes _ !! k) as [c'|] eqn:Hc'; [|done]. simpl. intros Hm'.
    apply visit_children_nodes_inv in Hc' as (c & Hc & Hcase).
    assert (Hc1 : exists m1, node_at c q = Some m1 /\ R m1 m').
    { destruct Hcase as [-> | ->]; [by apply IH in Hm'|eauto]. }
    destruct Hc1 as (m1 & Hm1 & HR1).
    destruct (Hat (k :: q) m1) as (m & Hm & HR).
    { rewrite node_at_cons, Hc. done. }
    exists m. split; [done|]. by eapply R_trans.
Qed.

(** [Q] holds of the node that was, at the start, at the position of a
    rename, and [Pt] of the target applied. *)
Variable Q : Node -> Prop.
Variable Pt : MdxRenameTarget -> Prop.
Hypothesis Q_back : forall m m1, R m m1 -> Q m1 -> Q m.
Hypothesis visitor_renamed :
  forall p n q t, test n = true -> (q, t) ∈ v_renamed (visitor p n) ->
                  Pt t /\ exists m, node_at n q = Some m /\ Q m.

Lemma visit_fuel_renamed (fuel : nat) (p : Path) (n : Node) (q : Path)
  (t : MdxRenameTarget) :
  (q, t) ∈ r_renamed (visit_fuel fuel test visitor p n) ->
  Pt t /\ exists m, node_at n q = Some m /\ Q m.
Proof.
  revert p n q. induction fuel as [|fuel IH]; intros p n q.
  { cbn [visit_fuel r_renamed]. intros H. by apply elem_of_nil in H. }
  rewrite visit_fuel_S.
  assert (Hat : forall q, (q, t) ∈ v_renamed (at_node p n) ->
                          Pt t /\ exists m, node_at n q = Some m /\ Q m).
  { destruct (test n) eqn:Ht; [intros q0; by apply visitor_renamed|].
    simpl. intros ? H. by apply elem_of_nil in H. }
  assert (Hat' : forall q m', node_at (v_node (at_node p n)) q = Some m' ->
                              exists m, node_at n q = Some m /\ R m m').
  { destruct (test n) eqn:Ht; [intros q0 m0; by apply visitor_pointwise|]. simpl. eauto. }
  destruct (v_completion (at_node p n)) as [[|]|e0|]; cbn [r_renamed]; try apply Hat.
  intros H. apply elem_of_app in H as [H|H]; [by apply Hat|].
  apply visit_children_renamed in H as (k & c & q' & -> & Hc & Hq' & _).
  cbn [Nat.add] in *. apply IH in Hq' as [HPt (m1 & Hm1 & HQ)].
  split; [done|].
  destruct (Hat' (k :: q') m1) as (m & Hm & HR).
  { rewrite node_at_cons, Hc. done. }
  exists m. split; [done|]. by eapply Q_back.
Qed.

End Pointwise.

Section AllNodes.

(** [G] is a property of a node that does not depend on its children. *)
Variable G : Node -> Prop.
Hypothesis G_children : forall a cs, G a -> G (set_children a cs).
Hypothesis visitor_all :
  forall p n, test n = true ->
              (forall q a, node_at n q = Some a -> G a) ->
              forall q a, node_at (v_node (visitor p n)) q = Some a -> G a.

Lemma visit_fuel_all (fuel : nat) (p : Path) (n : Node) :
  (forall q a, node_at n q = Some a -> G a) ->
  forall q a, node_at (r_node (visit_fuel fuel test visitor p n)) q = Some a -> G a.
Proof.
  revert p n. induction fuel as [|fuel IH]; intros p n Hn; [exact Hn|].
  rewrite visit_fuel_S.
  assert (Hat : forall q a, node_at (v_node (at_node p n)) q = Some a -> G a).
  { destruct (test n) eqn:Ht; [by apply visitor_all|exact Hn]. }
  destruct (v_completion (at_node p n)) as [[|]|e0|]; cbn [r_node]; try exact Hat.
  intros [|k q] a.
  - intros [= <-]. apply G_children. by apply (Hat []).
  - rewrite node_at_cons. cbn [children set_children].
    destruct (l_nodes _ !! k) as [c'|] eqn:Hc'; [|done]. simpl. intros Ha.
    apply visit_children_nodes_inv in Hc' as (c & Hc & Hcase).
    assert (Hchild : forall q a, node_at c q = Some a -> G a).
    { intros q0 a0 H0. apply (Hat (k :: q0)). by rewrite node_at_cons, Hc. }
    destruct Hcase as [-> | ->]; [by eapply (IH _ c Hchild)|by eapply Hchild].
Qed.

(** [fails t e]: the rename with target [t] throws [e]; [other e]: an
    exception that a visitor throws without having done anything. *)
Variable fails : MdxRenameTarget -> Thrown -> Prop.
Variable other : Thrown -> Prop.
Variable e : Thrown.
Hypothesis visitor_threw :
  forall p n, test n = true ->
              (forall q a, node_at n q = Some a -> G a) ->
              v_completion (visitor p n) = Threw e ->
              (exists q t, last (v_renamed (visitor p n)) = Some (q, t) /\ fails t e)
              \/ other e.

Lemma visit_children_threw (go : Path -> Node -> VisitResult) (p : Path)
  (offset : nat) (cs : list Node) :
  (forall i c, cs !! i = Some c ->
               r_completion (go (p ++ [offset + i]) c) = Threw e ->
               (exists q t, last (r_renamed (go (p ++ [offset + i]) c)) = Some (q, t)
                            /\ fails t e)
               \/ other e) ->
  l_completion (visit_children go p offset cs) = Threw e ->
  (exists q t, last (l_renamed (visit_children go p offset cs)) = Some (q, t)
               /\ fails t e)
  \/ other e.
Proof.
  revert offset. induction cs as [|c cs IH]; intros offset Hgo; simpl; [done|].
  pose proof (Hgo 0 c eq_refl) as H0. rewrite Nat.add_0_r in H0.
  destruct (r_completion (go (p ++ [offset]) c)) eqn:Hc; simpl; [| |done].
  - intros H. destruct (IH (S offset)) as [(q & t & Hlast & Hf)|Ho]; [|done| |by right].
    { intros i c' Hi. rewrite Nat.add_succ_l, <- Nat.add_succ_r. by apply (Hgo (S i)). }
    left. exists q, t. split; [|done]. by rewrite last_app, Hlast.
  - intros [= ->]. destruct (H0 eq_refl) as [(q & t & Hlast & Hf)|Ho]; [|by right].
    left. exists (offset :: q), t. split; [|done]. by apply last_shift.
Qed.

(** A traversal throws what its last rename threw, or what a visitor threw
    without having done anything. *)
Lemma visit_fuel_threw (fuel : nat) (p : Path) (n : Node) :
  (forall q a, node_at n q = Some a -> G a) ->
  r_completion (visit_fuel fuel test visitor p n) = Threw e ->
  (exists q t, last (r_renamed (visit_fuel fuel test visitor p n)) = Some (q, t)
               /\ fails t e)
  \/ other e.
Proof.
  revert p n. induction fuel as [|fuel IH]; intros p n Hn; [done|].
  rewrite visit_fuel_S.
  assert (Hall : forall q a, node_at (v_node (at_node p n)) q = Some a -> G a).
  { destruct (test n) eqn:Ht; [by apply visitor_all|exact Hn]. }
  assert (Hat : v_completion (at_node p n) = Threw e ->
                (exists q t, last (v_renamed (at_node p n)) = Some (q, t) /\ fails t e)
                \/ other e).
  { destruct (test n) eqn:Ht; [by apply visitor_threw|done]. }
  destruct (v_completion (at_node p n)) as [[|]|e0|] eqn:Hc;
    cbn [r_renamed r_completion]; try done.
  - intros H.
    destruct (visit_children_threw (visit_fuel fuel test visitor) p 0
                (children (v_node (at_node p n))))
      as [(q & t & Hlast & Hf)|Ho]; [|done| |by right].
    { intros i c Hi. apply IH. intros q a Ha. apply (Hall (i :: q)).
      by rewrite node_at_cons, Hi. }
    left. exists q, t. split; [|done]. by rewrite last_app, Hlast.
  - intros [= ->]. by apply Hat.
Qed.

End AllNodes.

Section Attached.

Hypothesis visitor_attached :
  forall p n q, test n = true -> is_Some (node_at n q) ->
                is_Some (node_at (v_node (visitor p n)) q).

(** When the visitor detaches no node, the traversal detaches none. *)
Lemma visit_fuel_attached (fuel : nat) (p : Path) (n : Node) (q : Path) :
  is_Some (node_at n q) ->
  is_Some (node_at (r_node (visit_fuel fuel test visitor p n)) q).
Proof.
  revert p n q. induction fuel as [|fuel IH]; intros p n q; [done|].
  rewrite visit_fuel_S. intros Hq.
  assert (Hat : forall q, is_Some (node_at n q) ->
                          is_Some (node_at (v_node (at_node p n)) q)).
  { destruct (test n) eqn:Ht; [intros q0; by apply visitor_attached|done]. }
  apply Hat in Hq.
  destruct (v_completion (at_node p n)) as [[|]|e0|]; cbn [r_node]; try done.
  destruct q as [|k q]; [done|].
  rewrite node_at_cons in *. cbn [children set_children].
  destruct (children (v_node (at_node p n)) !! k) as [c|] eqn:Hc;
    [|by destruct Hq as [? [=]]].
  simpl in Hq.
  destruct (visit_children_nodes (visit_fuel fuel test visitor) p 0 _ k c Hc)
    as [-> | ->]; simpl; [by apply IH|done].
Qed.

End Attached.

End VisitInvariants.

(** ** What the transformation keeps *)

Section Keeps.

Variable valueToEstree : JsValue -> Result Expression.
Variable registry : gmap string MdxTransformRule.

Local Abbreviation visitor :=
  (createScopeVisitor valueToEstree registry (scopeComponentNames registry)).

Local Abbreviation outer fuel :=
  (visit_fuel fuel (shouldProcessScope registry) visitor).

Local Abbreviation inner rf fuel :=
  (visit_fuel fuel isNamedMdxJsxFlowElement
              (renameVisitor valueToEstree rf (scopeComponentNames registry))).

Local Abbreviation fails t e :=
  (buildAttributes valueToEstree (component_props (component t)) = Throw e).

(** What a node of the result has in common with the node of the document
    at its position. *)
Local Abbreviation keeps m m' :=
  (type m' = type m /\ value m' = value m
   /\ (renamable registry m = false -> own_fields m' = own_fields m)).

Local Abbreviation declared t :=
  (exists scope rf source,
      rename_map_of registry scope rf /\ rf !! source = Some t).

Lemma applyFlowRename_value (element : Node) (target : MdxRenameTarget) :
  value (applyFlowRename valueToEstree element target).1 = value element.
Proof.
  unfold applyFlowRename.
  destruct (buildAttributes _ _); [destruct (policy_is_clear target)|]; reflexivity.
Qed.

Lemma renamable_own_fields (m m1 : Node) :
  own_fields m1 = own_fields m -> renamable registry m1 = renamable registry m.
Proof.
  unfold own_fields, renamable, isNamedMdxJsxFlowElement.
  intros [= Ht Hn _ _ _]. by rewrite Ht, Hn.
Qed.

Lemma keeps_refl (m : Node) : keeps m m.
Proof. done. Qed.

Lemma keeps_trans (m1 m2 m3 : Node) : keeps m1 m2 -> keeps m2 m3 -> keeps m1 m3.
Proof.
  intros (Ht & Hv & Hk) (Ht' & Hv' & Hk').
  split; [congruence|]. split; [congruence|].
  intros Hr. rewrite <- (Hk Hr). apply Hk'.
  rewrite <- Hr. apply renamable_own_fields. by apply Hk.
Qed.

Lemma keeps_children (m m' : Node) (cs : list Node) :
  length cs = length (children m') -> keeps m m' -> keeps m (set_children m' cs).
Proof.
  intros Hlen (Ht & Hv & Hk). split; [done|]. split; [done|].
  intros Hr. rewrite <- (Hk Hr). unfold own_fields.
  cbn [type name attributes children value set_children]. by rewrite Hlen.
Qed.

Lemma renamable_back (m m1 : Node) :
  keeps m m1 -> renamable registry m1 = true -> renamable registry m = true.
Proof.
  intros (_ & _ & Hk) H1. destruct (renamable registry m) eqn:Hr; [done|].
  rewrite (renamable_own_fields m m1) in H1 by (by apply Hk). congruence.
Qed.

Section InnerKeeps.

Variable rf : gmap string MdxRenameTarget.

Lemma renameVisitor_keeps (p : Path) (n : Node) (q : Path) (m' : Node) :
  isNamedMdxJsxFlowElement n = true ->
  node_at (v_node (renameVisitor valueToEstree rf (scopeComponentNames registry) p n)) q
  = Some m' ->
  exists m, node_at n q = Some m /\ keeps m m'.
Proof.
  intros Hn.
  pose proof (inner_step_cases valueToEstree rf (scopeComponentNames registry) p n) as Hc.
  cbv zeta in Hc. rewrite Hn in Hc.
  destruct Hc as [[-> _]|[[-> _]|[(k & t & _ & _ & Hk & Hin & Ht & ->)|[-> _]]]];
    cbn [v_node]; [eauto|eauto| |eauto].
  destruct q as [|i q].
  - intros [= <-]. exists n. split; [done|].
    split; [apply applyFlowRename_type|]. split; [apply applyFlowRename_value|].
    intros Hr. unfold renamable in Hr. rewrite Hn, Hk in Hr. simpl in Hr.
    apply bool_decide_eq_false in Hr. destruct Hr.
    apply not_elem_of_dom. exact Hin.
  - rewrite !node_at_cons.
    destruct (applyFlowRename_children valueToEstree n t) as [-> | ->]; [eauto|done].
Qed.

Lemma renameVisitor_renamed (p : Path) (n : Node) (q : Path) (t : MdxRenameTarget) :
  isNamedMdxJsxFlowElement n = true ->
  (q, t) ∈ v_renamed (renameVisitor valueToEstree rf (scopeComponentNames registry) p n) ->
  (exists source, rf !! source = Some t)
  /\ exists m, node_at n q = Some m /\ renamable registry m = true.
Proof.
  intros Hn.
  pose proof (inner_step_cases valueToEstree rf (scopeComponentNames registry) p n) as Hc.
  cbv zeta in Hc. rewrite Hn in Hc.
  destruct Hc as [[-> _]|[[-> _]|[(k & t0 & _ & _ & Hk & Hin & Ht & ->)|[-> _]]]];
    cbn [v_renamed]; try (intros H; by apply elem_of_nil in H).
  intros H. apply list_elem_of_singleton in H as [= -> ->].
  split; [eauto|]. exists n. split; [done|].
  unfold renamable. rewrite Hn, Hk. simpl. apply bool_decide_eq_true.
  apply not_elem_of_dom. exact Hin.
Qed.

Lemma inner_keeps (fuel : nat) (p : Path) (n : Node) (q : Path) (m' : Node) :
  node_at (r_node (inner rf fuel p n)) q = Some m' ->
  exists m, node_at n q = Some m /\ keeps m m'.
Proof.
  apply (visit_fuel_pointwise _ _ (fun m m' => keeps m m')).
  - exact keeps_refl.
  - exact keeps_trans.
  - exact keeps_children.
  - exact renameVisitor_keeps.
Qed.

Lemma inner_renamed (fuel : nat) (p : Path) (n : Node) (q : Path)
  (t : MdxRenameTarget) :
  (q, t) ∈ r_renamed (inner rf fuel p n) ->
  (exists source, rf !! source = Some t)
  /\ exists m, node_at n q = Some m /\ renamable registry m = true.
Proof.
  apply (visit_fuel_renamed _ _ (fun m m' => keeps m m') keeps_refl
           renameVisitor_keeps
           (fun m => renamable registry m = true)
           (fun t => exists source, rf !! source = Some t)).
  - exact renamable_back.
  - exact renameVisitor_renamed.
Qed.

End InnerKeeps.

Lemma visitor_keeps (p : Path) (n : Node) (q : Path) (m' : Node) :
  shouldProcessScope registry n = true ->
  node_at (v_node (visitor p n)) q = Some m' ->
  exists m, node_at n q = Some m /\ keeps m m'.
Proof.
  intros _.
  destruct (visitor_cases valueToEstree registry p n)
    as [-> | (k & rf & fuel & _ & _ & _ & ->)]; cbn [v_node]; [eauto|].
  apply inner_keeps.
Qed.

Lemma visitor_renamed (p : Path) (n : Node) (q : Path) (t : MdxRenameTarget) :
  shouldProcessScope registry n = true ->
  (q, t) ∈ v_renamed (visitor p n) ->
  declared t /\ exists m, node_at n q = Some m /\ renamable registry m = true.
Proof.
  intros _.
  destruct (visitor_cases valueToEstree registry p n)
    as [-> | (k & rf & fuel & _ & Hrf & _ & ->)]; cbn [v_renamed].
  { intros H. by apply elem_of_nil in H. }
  intros H. apply inner_renamed in H as [[source Hs] Hm]. split; [|done].
  exists k, rf, source. done.
Qed.

Lemma outer_keeps (fuel : nat) (p : Path) (n : Node) (q : Path) (m' : Node) :
  node_at (r_node (outer fuel p n)) q = Some m' ->
  exists m, node_at n q = Some m /\ keeps m m'.
Proof.
  apply (visit_fuel_pointwise _ _ (fun m m' => keeps m m')).
  - exact keeps_refl.
  - exact keeps_trans.
  - exact keeps_children.
  - exact visitor_keeps.
Qed.

Lemma outer_renamed (fuel : nat) (p : Path) (n : Node) (q : Path)
  (t : MdxRenameTarget) :
  (q, t) ∈ r_renamed (outer fuel p n) ->
  declared t /\ exists m, node_at n q = Some m /\ renamable registry m = true.
Proof.
  apply (visit_fuel_renamed _ _ (fun m m' => keeps m m') keeps_refl visitor_keeps
           (fun m => renamable registry m = true) (fun t => declared t)).
  - exact renamable_back.
  - exact visitor_renamed.
Qed.

(** X11. A rename, that is a call of [applyFlowRename] that assigns the name
    of an element, is only ever made with a target that the registry
    declares, and on a node that is, in the document, a flow element with a
    tag name that is not a key of the registry: never on a scope element, a
    fragment, an inline element or a Markdown node.  (A call with a value
    that the rename map inherits assigns nothing: it throws, see
    [unchanged_without_rename].) *)
Theorem renames_unregistered_flow_elements (tree : Node) (q : Path)
  (t : MdxRenameTarget) :
  (q, t) ∈ r_renamed (remarkScopedMdx valueToEstree registry tree) ->
  (exists scope rf source, rename_map_of registry scope rf /\ rf !! source = Some t)
  /\ exists m, node_at tree q = Some m /\ renamable registry m = true.
Proof. unfold remarkScopedMdx, visit. apply outer_renamed. Qed.

(** X12. The transformation adds no node and changes no type: a node of the
    result is at a position of the document and has the type and the literal
    value of the node there; it also has its name, its attributes and its
    number of children, unless that node is a flow element with a tag name
    that is not a key of the registry. *)
Theorem result_keeps_shape (tree : Node) (q : Path) (m' : Node) :
  node_at (r_node (remarkScopedMdx valueToEstree registry tree)) q = Some m' ->
  exists m,
    node_at tree q = Some m
    /\ type m' = type m /\ value m' = value m
    /\ (renamable registry m = false -> own_fields m' = own_fields m).
Proof. unfold remarkScopedMdx, visit. apply outer_keeps. Qed.

Lemma renameVisitor_unchanged (rf : gmap string MdxRenameTarget) (p : Path) (n : Node) :
  isNamedMdxJsxFlowElement n = true ->
  v_renamed (renameVisitor valueToEstree rf (scopeComponentNames registry) p n) = [] ->
  v_node (renameVisitor valueToEstree rf (scopeComponentNames registry) p n) = n
  /\ forall e,
       v_completion (renameVisitor valueToEstree rf (scopeComponentNames registry) p n)
       = Threw e ->
       e = read_name_of_undefined.
Proof.
  intros _.
  destruct (renameVisitor_cases valueToEstree rf (scopeComponentNames registry) p n)
    as [-> | [-> | [(k & t & _ & ->) | (k & _ & _ & _ & ->)]]];
    cbn [v_renamed v_node v_completion]; try done.
  intros _. split; [done|]. by intros e [= <-].
Qed.

Lemma visitor_unchanged (p : Path) (n : Node) :
  shouldProcessScope registry n = true ->
  v_renamed (visitor p n) = [] ->
  v_node (visitor p n) = n
  /\ forall e, v_completion (visitor p n) = Threw e -> e = read_name_of_undefined.
Proof.
  intros _.
  destruct (visitor_cases valueToEstree registry p n)
    as [-> | (k & rf & fuel & _ & _ & _ & ->)]; cbn [v_renamed v_node v_completion];
    [done|].
  intros H.
  destruct (visit_fuel_unchanged _ _ (fun e => e = read_name_of_undefined)
              (renameVisitor_unchanged rf) _ _ _ H) as [-> Hno].
  split; [done|]. intros e. destruct (r_completion _) eqn:Hc; try done.
  intros [= ->]. by apply Hno.
Qed.

Lemma unchanged_without_rename_aux (tree : Node) :
  r_renamed (remarkScopedMdx valueToEstree registry tree) = [] ->
  r_node (remarkScopedMdx valueToEstree registry tree) = tree
  /\ (r_completion (remarkScopedMdx valueToEstree registry tree) = Returned tt
      \/ r_completion (remarkScopedMdx valueToEstree registry tree)
         = Threw read_name_of_undefined).
Proof.
  intros H.
  pose proof (remarkScopedMdx_terminates valueToEstree registry tree) as Hterm.
  unfold remarkScopedMdx, visit in *.
  destruct (visit_fuel_unchanged _ _ (fun e => e = read_name_of_undefined)
              visitor_unchanged _ _ _ H) as [Hn Hno].
  split; [done|].
  destruct (r_completion _) as [[]|e|]; [by left| |done].
  right. by rewrite (Hno e eq_refl).
Qed.

(** X13. The tree changes through renames only: a transformation that
    applies no rename leaves the document as it was given; it returns, or it
    throws the [TypeError] of a rename called with a value that a rename map
    inherits. *)
Theorem unchanged_without_rename (tree : Node) :
  r_renamed (remarkScopedMdx valueToEstree registry tree) = [] ->
  r_node (remarkScopedMdx valueToEstree registry tree) = tree
  /\ (r_completion (remarkScopedMdx valueToEstree registry tree) = Returned tt
      \/ r_completion (remarkScopedMdx valueToEstree registry tree)
         = Threw (ThrownError "Cannot read properties of undefined (reading 'name')")).
Proof. apply unchanged_without_rename_aux. Qed.

Lemma below_true_inv (P : Node -> bool) (n : Node) (q : Path) :
  below P n q = true -> exists q0 a, node_at n q0 = Some a /\ P a = true.
Proof.
  revert n. induction q as [|i q IH]; intros n; [done|]. cbn [below].
  intros H. apply orb_true_iff in H as [H|H]; [by exists [], n|].
  destruct (children n !! i) as [c|] eqn:Hc; [|done].
  destruct (IH c H) as (q0 & a & Ha & HP). exists (i :: q0), a.
  split; [|done]. by rewrite node_at_cons, Hc.
Qed.

Lemma tag_names_children (cs : list Node) (i : nat) (c : Node) (k : string) :
  cs !! i = Some c -> k ∈ tag_names c ->
  k ∈ (fix over (l : list Node) : list string :=
         match l with
         | [] => []
         | c :: l' => tag_names c ++ over l'
         end) cs.
Proof.
  revert i. induction cs as [|c0 cs IH]; intros i; [done|].
  destruct i as [|i]; simpl.
  - intros [= ->] Hk. apply elem_of_app. auto.
  - intros Hc Hk. apply elem_of_app. right. by apply (IH i).
Qed.

Lemma tag_names_node_at (n : Node) (q : Path) (a : Node) (k : string) :
  node_at n q = Some a -> name a = Some k -> k ∈ tag_names n.
Proof.
  revert n. induction q as [|i q IH]; intros n.
  - intros [= <-] Hk. destruct n as [ty nm attrs cs v]. simpl in *. subst nm.
    apply elem_of_app. left. apply list_elem_of_here.
  - rewrite node_at_cons. destruct (children n !! i) as [c|] eqn:Hc; [|done].
    simpl. intros Ha Hk. destruct n as [ty nm attrs cs v]. simpl in *.
    apply elem_of_app. right. apply (tag_names_children cs i c k Hc). by apply IH.
Qed.

(** A tree without scope elements gives the outer traversal nothing to
    do. *)
Lemma outer_without_scopes (fuel : nat) (p : Path) (n : Node) :
  (forall q a, node_at n q = Some a -> shouldProcessScope registry a = false) ->
  r_renamed (outer fuel p n) = [] /\ forall e, r_completion (outer fuel p n) <> Threw e.
Proof.
  apply (visit_fuel_quiet _ _
           (fun _ n => forall q a, node_at n q = Some a ->
                                   shouldProcessScope registry a = false)).
  intros p' n' Hn'. rewrite (Hn' [] n' eq_refl). cbn [v_renamed v_node v_completion].
  repeat (split; [done|]). intros _ i c Hc q a Ha. apply (Hn' (i :: q)).
  by rewrite node_at_cons, Hc.
Qed.

(** X14. A document in which no node has the tag name of a scope that declares a
    rename map, in particular any document under an empty registry, comes
    back unchanged, with no rename applied. *)
Theorem no_scope_no_change (tree : Node) :
  Forall (fun k => k ∉ activeScopeNames registry) (tag_names tree) ->
  r_node (remarkScopedMdx valueToEstree registry tree) = tree
  /\ r_renamed (remarkScopedMdx valueToEstree registry tree) = []
  /\ r_completion (remarkScopedMdx valueToEstree registry tree) = Returned tt.
Proof.
  intros Hnone. rewrite Forall_forall in Hnone.
  pose proof (remarkScopedMdx_terminates valueToEstree registry tree) as Hterm.
  destruct (outer_without_scopes (height tree) [] tree) as [Hnil Hno].
  { intros q a Ha. destruct (shouldProcessScope registry a) eqn:HP; [|done].
    apply shouldProcessScope_spec in HP as [_ (k & Hk & Hactive)].
    destruct (Hnone k); [|done]. by eapply tag_names_node_at. }
  destruct (unchanged_without_rename_aux tree Hnil) as [Hn _].
  split; [done|]. split; [done|]. unfold remarkScopedMdx, visit in *.
  destruct (r_completion _) as [[]|e|]; [done|by destruct (Hno e)|done].
Qed.

(** *** The names of the elements and the exceptions *)

Section Names.

(** [S] holds of the tag names that elements may have. *)
Variable S : string -> Prop.

Local Abbreviation named a := (forall k, name a = Some k -> S k).

(** The exception of a rename called with a value that a rename map
    inherits: the element has a tag that is a property name of
    [Object.prototype]. *)
Local Abbreviation inherited e :=
  (e = read_name_of_undefined /\ exists k, k ∈ object_prototype_names /\ S k).

Lemma renameVisitor_named (rf : gmap string MdxRenameTarget) (p : Path) (n : Node) :
  (forall source t, rf !! source = Some t -> S (component_name (component t))) ->
  isNamedMdxJsxFlowElement n = true ->
  (forall q a, node_at n q = Some a -> named a) ->
  forall q a,
    node_at (v_node (renameVisitor valueToEstree rf (scopeComponentNames registry) p n)) q
    = Some a ->
    named a.
Proof.
  intros Hrf _ Hn.
  destruct (renameVisitor_cases valueToEstree rf (scopeComponentNames registry) p n)
    as [-> | [-> | [(k & t & Ht & ->) | (k & _ & _ & _ & ->)]]];
    cbn [v_node]; [exact Hn|exact Hn| |exact Hn].
  intros [|i q] a.
  - intros [= <-] k0. rewrite applyFlowRename_name. intros [= <-]. by eapply Hrf.
  - rewrite node_at_cons.
    destruct (applyFlowRename_children valueToEstree n t) as [-> | ->]; [|done].
    intros Ha. apply (Hn (i :: q)). by rewrite node_at_cons.
Qed.

Lemma renameVisitor_threw (rf : gmap string MdxRenameTarget) (e : Thrown) (p : Path)
  (n : Node) :
  isNamedMdxJsxFlowElement n = true ->
  (forall q a, node_at n q = Some a -> named a) ->
  v_completion (renameVisitor valueToEstree rf (scopeComponentNames registry) p n)
  = Threw e ->
  (exists q t,
      last (v_renamed (renameVisitor valueToEstree rf (scopeComponentNames registry) p n))
      = Some (q, t)
      /\ fails t e)
  \/ inherited e.
Proof.
  intros _ Hn.
  destruct (renameVisitor_cases valueToEstree rf (scopeComponentNames registry) p n)
    as [-> | [-> | [(k & t & _ & ->) | (k & Hk & Hproto & _ & ->)]]];
    cbn [v_renamed v_completion]; try done.
  - rewrite applyFlowRename_completion.
    destruct (buildAttributes valueToEstree _) as [attrs|e'] eqn:Hb; [done|].
    intros [= ->]. left. exists [], t. done.
  - intros [= <-]. right. split; [done|]. exists k. split; [done|]. by apply (Hn [] n).
Qed.

Hypothesis targets_named :
  every_target registry (fun _ _ target => S (component_name (component target))).

Lemma visitor_named (p : Path) (n : Node) :
  shouldProcessScope registry n = true ->
  (forall q a, node_at n q = Some a -> named a) ->
  forall q a, node_at (v_node (visitor p n)) q = Some a -> named a.
Proof.
  intros _ Hn.
  destruct (visitor_cases valueToEstree registry p n)
    as [-> | (k & rf & fuel & Hk & Hrf & _ & ->)]; cbn [v_node]; [exact Hn|].
  apply (visit_fuel_all _ _ (fun a => named a)); [done| |exact Hn].
  intros p' n'. apply renameVisitor_named.
  intros source t Ht. by apply (targets_named k rf source t).
Qed.

Lemma visitor_threw (e : Thrown) (p : Path) (n : Node) :
  shouldProcessScope registry n = true ->
  (forall q a, node_at n q = Some a -> named a) ->
  v_completion (visitor p n) = Threw e ->
  (exists q t, last (v_renamed (visitor p n)) = Some (q, t) /\ fails t e)
  \/ inherited e.
Proof.
  intros _ Hn.
  destruct (visitor_cases valueToEstree registry p n)
    as [-> | (k & rf & fuel & Hk & Hrf & _ & ->)]; cbn [v_renamed v_completion]; [done|].
  destruct (r_completion _) eqn:Hc; try done. intros [= ->].
  apply (visit_fuel_threw isNamedMdxJsxFlowElement
           (renameVisitor valueToEstree rf (scopeComponentNames registry))
           (fun a => named a)) with (fails := fun t e => fails t e)
                                    (other := fun e => inherited e) in Hc; try done.
  - intros p' n'. apply renameVisitor_named.
    intros source t Ht. by apply (targets_named k rf source t).
  - intros p' n'. apply renameVisitor_threw.
Qed.

Lemma outer_threw (fuel : nat) (p : Path) (n : Node) (e : Thrown) :
  (forall q a, node_at n q = Some a -> named a) ->
  r_completion (outer fuel p n) = Threw e ->
  (exists q t, last (r_renamed (outer fuel p n)) = Some (q, t) /\ fails t e)
  \/ inherited e.
Proof.
  intros Hn Hc.
  apply (visit_fuel_threw (shouldProcessScope registry) visitor
           (fun a => named a)) with (fails := fun t e => fails t e)
                                    (other := fun e => inherited e) in Hc; try done.
  - exact visitor_named.
  - exact (visitor_threw e).
Qed.

End Names.

(** X15. The transformation throws two kinds of exception only.  One is the
    error of [toMdxAttribute]: its message names a prop of the target of the
    last rename, whose value the encoder rejected, and ends with the
    encoder's message (the character 034 is the double quote).  The other is
    the [TypeError] of a rename called with a value that a rename map
    inherits: then a property name of [Object.prototype] is the tag of an
    element of the document or of a rewrite target of the registry. *)
Theorem thrown_errors (tree : Node) (e : Thrown) :
  r_completion (remarkScopedMdx valueToEstree registry tree) = Threw e ->
  (exists q t before propName propValue after error,
      last (r_renamed (remarkScopedMdx valueToEstree registry tree)) = Some (q, t)
      /\ component_props (component t) = Some (before ++ (propName, propValue) :: after)
      /\ valueToEstree propValue = Throw error
      /\ e = ThrownError
               ("Failed to serialize MDX prop "
                +:+ String "034"
                      (propName
                       +:+ String "034"
                             (" into an attribute expression: "
                              +:+ message_of error))))
  \/ (e = ThrownError "Cannot read properties of undefined (reading 'name')"
      /\ exists k,
           k ∈ object_prototype_names
           /\ (k ∈ tag_names tree
               \/ exists scope rf source t,
                    rename_map_of registry scope rf /\ rf !! source = Some t
                    /\ component_name (component t) = k)).
Proof.
  unfold remarkScopedMdx, visit. intros H.
  apply (outer_threw
           (fun k => k ∈ tag_names tree
                     \/ exists scope rf source t,
                          rename_map_of registry scope rf /\ rf !! source = Some t
                          /\ component_name (component t) = k)) in H
    as [(q & t & Hlast & Hf)|[-> Hk]].
  - left. unfold buildAttributes in Hf.
    destruct (component_props (component t)) as [entries|] eqn:Hp; [|done].
    apply buildAttributes_loop_throws in Hf
      as (before & pn & pv & after & err & -> & _ & _ & _ & Hv & ->).
    exists q, t, before, pn, pv, after, err. done.
  - by right.
  - intros scope rf source t Hrf Ht. right. by exists scope, rf, source, t.
  - intros q a Ha k Hk. left. by eapply tag_names_node_at.
Qed.

(** X16. With a registry in which every prop value of every rewrite target is
    [undefined], [true] or accepted by the encoder, and no rewrite target is
    named like a property of [Object.prototype], the transformation
    completes on every document in which no node is named like one. *)
Theorem serializable_registry_completes (tree : Node) :
  every_target registry
    (fun _ _ target =>
       forall entries, component_props (component target) = Some entries ->
                       Forall (fun entry : string * JsValue =>
                                 encodable valueToEstree entry.2) entries) ->
  every_target registry
    (fun _ _ target => component_name (component target) ∉ object_prototype_names) ->
  Forall (fun k => k ∉ object_prototype_names) (tag_names tree) ->
  r_completion (remarkScopedMdx valueToEstree registry tree) = Returned tt.
Proof.
  intros Hall Htargets Htree. rewrite Forall_forall in Htree.
  pose proof (remarkScopedMdx_terminates valueToEstree registry tree) as Hterm.
  destruct (r_completion (remarkScopedMdx valueToEstree registry tree))
    as [[]|e|] eqn:Hc; [done| |done].
  unfold remarkScopedMdx, visit in Hc.
  apply (outer_threw (fun k => k ∉ object_prototype_names)) in Hc
    as [(q & t & Hlast & Hf)|[_ (k & Hk & Hnot)]]; [|done|done|].
  - apply last_Some_elem_of in Hlast.
    apply outer_renamed in Hlast as [(scope & rf & source & Hrf & Ht) _].
    destruct (component_props (component t)) as [entries|] eqn:Hp; [|done].
    specialize (Hall scope rf source t Hrf Ht entries Hp).
    apply (proj2 (buildAttributes_loop_completes valueToEstree entries [])) in Hall
      as [attrs Hok].
    simpl in Hf. congruence.
  - intros q a Ha k Hk. apply Htree. by eapply tag_names_node_at.
Qed.

Lemma outer_outside (fuel : nat) (p : Path) (n : Node) (q : Path) (a : Node) :
  node_at n q = Some a ->
  below (shouldProcessScope registry) n q = false ->
  exists a', node_at (r_node (outer fuel p n)) q = Some a'
             /\ own_fields a' = own_fields a.
Proof.
  revert p n q. induction fuel as [|fuel IH]; intros p n q Ha Hb.
  { exists a. done. }
  destruct q as [|i q].
  - injection Ha as <-. exists (r_node (outer (S fuel) p n)). split; [done|].
    rewrite visit_fuel_S.
    assert (Hown : own_fields
                     (v_node (if shouldProcessScope registry n then visitor p n
                              else mkVisitorResult n [] (Returned CONTINUE)))
                   = own_fields n).
    { destruct (shouldProcessScope registry n); [|done].
      apply (visitor_root valueToEstree registry p n). }
    destruct (v_completion _) as [[|]|e0|]; cbn [r_node]; try done.
    unfold own_fields in *. cbn [type name attributes children value set_children].
    rewrite visit_children_length. done.
  - cbn [below] in Hb. apply orb_false_iff in Hb as [Htest Hb].
    rewrite node_at_cons in Ha.
    destruct (children n !! i) as [c|] eqn:Hc; [|done]. simpl in Ha.
    rewrite visit_fuel_S, Htest. cbn [v_completion v_node r_node].
    destruct (IH (p ++ [0 + i]) c q Ha Hb) as (a1 & Ha1 & Hown1).
    destruct (visit_children_nodes (outer fuel) p 0 _ i c Hc) as [H|H].
    + exists a1. rewrite node_at_cons. cbn [children set_children]. by rewrite H.
    + exists a. rewrite node_at_cons. cbn [children set_children]. by rewrite H.
Qed.

(** X17. Outside the scopes nothing happens: a node of the document that has no
    flow element above it whose tag declares a rename map is still at its
    position in the result, with the type, name, attributes, value and number
    of children it had, and no rename is applied to it. *)
Theorem outside_scopes_untouched (tree : Node) (q : Path) (a : Node) :
  node_at tree q = Some a ->
  below (shouldProcessScope registry) tree q = false ->
  (exists a', node_at (r_node (remarkScopedMdx valueToEstree registry tree)) q = Some a'
              /\ own_fields a' = own_fields a)
  /\ forall t, (q, t) ∉ r_renamed (remarkScopedMdx valueToEstree registry tree).
Proof.
  intros Ha Hb. unfold remarkScopedMdx, visit. split.
  - by apply outer_outside.
  - intros t Hin. apply outer_renamed_below in Hin. congruence.
Qed.

Section NoClear.

Hypothesis no_clear :
  every_target registry (fun _ _ target => declaredPolicy target <> Some clear).

Lemma applyFlowRename_attached (n : Node) (t : MdxRenameTarget) :
  declaredPolicy t <> Some clear ->
  children (applyFlowRename valueToEstree n t).1 = children n.
Proof.
  intros Hp. unfold applyFlowRename, policy_is_clear.
  destruct (buildAttributes _ _); [|done].
  destruct (declaredPolicy t) as [[]|]; done.
Qed.

Lemma renameVisitor_attached (scope : string) (rf : gmap string MdxRenameTarget)
  (p : Path) (n : Node) (q : Path) :
  rename_map_of registry scope rf ->
  is_Some (node_at n q) ->
  is_Some (node_at (v_node (renameVisitor valueToEstree rf (scopeComponentNames registry)
                                          p n)) q).
Proof.
  intros Hrf.
  destruct (renameVisitor_cases valueToEstree rf (scopeComponentNames registry) p n)
    as [-> | [-> | [(k & t & Ht & ->) | (k & _ & _ & _ & ->)]]]; cbn [v_node]; try done.
  destruct q as [|i q]; [done|]. rewrite !node_at_cons.
  rewrite applyFlowRename_attached; [done|]. by apply (no_clear scope rf k t).
Qed.

Lemma visitor_attached (p : Path) (n : Node) (q : Path) :
  is_Some (node_at n q) -> is_Some (node_at (v_node (visitor p n)) q).
Proof.
  destruct (visitor_cases valueToEstree registry p n)
    as [-> | (k & rf & fuel & _ & Hrf & _ & ->)]; cbn [v_node]; [done|].
  apply visit_fuel_attached. intros p' n' q' _. by apply (renameVisitor_attached k).
Qed.

(** X18. When no rewrite target declares the children policy [clear], the
    transformation detaches no node: the resulting tree has a node at exactly
    the positions at which the document has one. *)
Theorem no_clear_keeps_all_nodes (tree : Node) (q : Path) :
  is_Some (node_at (r_node (remarkScopedMdx valueToEstree registry tree)) q)
  <-> is_Some (node_at tree q).
Proof.
  unfold remarkScopedMdx, visit. split.
  - apply outer_positions.
  - apply visit_fuel_attached. intros p' n' q' _. apply visitor_attached.
Qed.

End NoClear.

End Keeps.

(** ** The expansion and the transformation together *)

Lemma node_induction (P : Node -> Prop) :
  (forall ty nm attrs cs v, Forall P cs -> P (mkNode ty nm attrs cs v)) ->
  forall n, P n.
Proof.
  intros Hnode. fix IH 1. intros [ty nm attrs cs v]. apply Hnode.
  induction cs as [|c cs IHcs]; constructor; [apply IH|exact IHcs].
Qed.

Lemma tag_names_inv (n : Node) (k : string) :
  k ∈ tag_names n -> exists q a, node_at n q = Some a /\ name a = Some k.
Proof.
  revert k. induction n as [ty nm attrs cs v IH] using node_induction. intros k.
  simpl. intros H. apply elem_of_app in H as [H|H].
  - destruct nm as [k'|]; [|by apply elem_of_nil in H].
    apply list_elem_of_singleton in H as ->. by exists [], (mkNode ty (Some k') attrs cs v).
  - assert (Hchild : exists i c, cs !! i = Some c /\ k ∈ tag_names c).
    { clear IH. induction cs as [|c cs IHcs]; [by apply elem_of_nil in H|].
      apply elem_of_app in H as [H|H]; [by exists 0, c|].
      destruct (IHcs H) as (i & c' & Hc' & Hk). by exists (S i), c'. }
    destruct Hchild as (i & c & Hc & Hk).
    rewrite Forall_forall in IH.
    destruct (IH c (list_elem_of_lookup_2 _ _ _ Hc) k Hk) as (q & a & Ha & Hn).
    exists (i :: q), a. split; [|done]. rewrite node_at_cons. simpl. by rewrite Hc.
Qed.

Section Hydration.

Variable valueToEstree : JsValue -> Result Expression.
Variable componentDefinitions : gmap string ComponentDefinition.
Variable componentNames : gset string.

Local Abbreviation registry := (deriveMdxTransformRegistry componentDefinitions).

Local Abbreviation expanded :=
  (expandHydratedComponentNames componentNames componentDefinitions).

Hypothesis targets_are_no_scopes : no_target_is_scope registry.

Lemma rename_map_introduces (scope : string) (rf : gmap string MdxRenameTarget)
  (source : string) (t : MdxRenameTarget) :
  rename_map_of registry scope rf -> rf !! source = Some t ->
  introduced_by componentDefinitions scope (component_name (component t)).
Proof.
  intros (rule & Hrule & Hrf) Ht. apply derive_lookup_Some in Hrule.
  destruct (componentDefinitions !! scope) as [d|] eqn:Hd; [|done]. simpl in Hrule.
  exists d, rule, rf, source, t. done.
Qed.

(** The tag names that elements get: the names of the document, and the
    targets of the scopes of the derived registry that the document names. *)
Local Abbreviation reachable k :=
  (k ∈ componentNames
   \/ exists scope rf source t,
        scope ∈ componentNames /\ rename_map_of registry scope rf
        /\ rf !! source = Some t /\ component_name (component t) = k).

Lemma reachable_expanded (k : string) : reachable k -> k ∈ expanded.
Proof.
  unfold expandHydratedComponentNames. intros Hk. apply expand_loop_elem_of.
  destruct Hk as [Hk|(scope & rf & source & t & Hs & Hrf & Ht & <-)]; [by left|].
  right. exists scope. split; [by apply elem_of_elements|].
  by eapply rename_map_introduces.
Qed.

Lemma reachable_scope_is_input (k : string) :
  reachable k -> k ∈ activeScopeNames registry -> k ∈ componentNames.
Proof.
  intros [Hk|(scope & rf & source & t & Hs & Hrf & Ht & <-)] Hactive; [done|].
  by destruct (targets_are_no_scopes scope rf source t Hrf Ht).
Qed.

Local Abbreviation covered a := (forall k, name a = Some k -> reachable k).

Lemma visitor_covered (p : Path) (n : Node) :
  shouldProcessScope registry n = true ->
  (forall q a, node_at n q = Some a -> covered a) ->
  forall q a,
    node_at (v_node (createScopeVisitor valueToEstree registry
                       (scopeComponentNames registry) p n)) q = Some a ->
    covered a.
Proof.
  intros Htest Hn.
  destruct (visitor_cases valueToEstree registry p n)
    as [-> | (k & rf & fuel & Hk & Hrf & _ & ->)]; cbn [v_node]; [exact Hn|].
  apply shouldProcessScope_spec in Htest as [_ (k' & Hk' & Hactive)].
  rewrite Hk in Hk'. injection Hk' as <-.
  assert (Hinput : k ∈ componentNames).
  { apply reachable_scope_is_input; [|done]. by apply (Hn [] n). }
  apply (visit_fuel_all _ _ (fun a => covered a)); [done| |exact Hn].
  intros p' n'. apply (renameVisitor_named valueToEstree registry (fun k => reachable k)).
  intros source t Ht. right. by exists k, rf, source, t.
Qed.

Lemma outer_covered (fuel : nat) (p : Path) (n : Node) :
  (forall q a, node_at n q = Some a -> covered a) ->
  forall q a,
    node_at (r_node (visit_fuel fuel (shouldProcessScope registry)
                       (createScopeVisitor valueToEstree registry
                          (scopeComponentNames registry)) p n)) q = Some a ->
    covered a.
Proof.
  apply (visit_fuel_all _ _ (fun a => covered a)); [done|].
  exact visitor_covered.
Qed.

Lemma expansion_covers (tree : Node) (k : string) :
  Forall (fun k => k ∈ componentNames) (tag_names tree) ->
  k ∈ tag_names (r_node (remarkScopedMdx valueToEstree registry tree)) ->
  k ∈ expanded.
Proof.
  intros Hinput Hk. rewrite Forall_forall in Hinput.
  apply tag_names_inv in Hk as (q & a & Ha & Hname).
  unfold remarkScopedMdx, visit in Ha. apply reachable_expanded.
  refine (outer_covered (height tree) [] tree _ q a Ha k Hname).
  intros q0 a0 Ha0 k0 Hk0. left. apply Hinput. by eapply tag_names_node_at.
Qed.

(** X19. When no rewrite target has the tag name of a scope that declares a
    rename map, the expansion of a name set that contains every tag name of
    the document contains every tag name of the transformed document: a
    renderer given the expanded set misses no component that the
    transformation introduces. *)
Theorem expansion_covers_result (tree : Node) :
  Forall (fun k => k ∈ componentNames) (tag_names tree) ->
  Forall (fun k => k ∈ expandHydratedComponentNames componentNames componentDefinitions)
         (tag_names (r_node (remarkScopedMdx valueToEstree
                               (deriveMdxTransformRegistry componentDefinitions) tree))).
Proof.
  intros Hinput. apply Forall_forall. intros k Hk. by apply (expansion_covers tree).
Qed.

(** X20. When no rewrite target has the tag name of a scope that declares a
    rename map and the name set contains every tag name of the document, the
    map of components loaded for the expanded name set includes the
    resolution of every registry entry whose key is a tag name of the
    transformed document. *)
Theorem loaded_components_cover_result {Entry Component : Type}
  (resolveEntry : Entry -> Component) (resolveInherited : string -> Component)
  (loadable : gmap string Entry) (loaded : gmap string Component)
  (tree : Node) (k : string) :
  Forall (fun k => k ∈ componentNames) (tag_names tree) ->
  k ∈ tag_names (r_node (remarkScopedMdx valueToEstree
                           (deriveMdxTransformRegistry componentDefinitions) tree)) ->
  getLoadableComponentsFromSet resolveEntry resolveInherited
    (createComponentSet loadable)
    (expandHydratedComponentNames componentNames componentDefinitions) = Object loaded ->
  loaded !! k = resolveEntry <$> loadable !! k.
Proof.
  intros Hinput Hk Hl.
  rewrite (load_from_set_lookup _ _ _ _ _ k Hl).
  rewrite decide_True; [done|]. by apply (expansion_covers tree).
Qed.

End Hydration.

(** ** What a completed scope walk has rewritten *)

Lemma visit_children_returned (go : Path -> Node -> VisitResult) (p : Path)
  (offset : nat) (cs : list Node) :
  l_completion (visit_children go p offset cs) = Returned tt ->
  forall i c, cs !! i = Some c ->
    l_nodes (visit_children go p offset cs) !! i
    = Some (r_node (go (p ++ [offset + i]) c))
    /\ r_completion (go (p ++ [offset + i]) c) = Returned tt
    /\ forall q t, (q, t) ∈ r_renamed (go (p ++ [offset + i]) c) ->
                   ((offset + i) :: q, t) ∈ l_renamed (visit_children go p offset cs).
Proof.
  revert offset. induction cs as [|c0 cs IH]; intros offset; [done|]. simpl.
  destruct (r_completion (go (p ++ [offset]) c0)) as [[]| |] eqn:Hc0; simpl; try done.
  intros Hl [|i] c.
  - intros [= <-]. rewrite Nat.add_0_r. split; [done|]. split; [done|].
    intros q t Hq. apply elem_of_app. left. unfold shift.
    apply list_elem_of_fmap. by exists (q, t).
  - simpl. intros Hc. rewrite Nat.add_succ_r.
    destruct (IH (S offset) Hl i c Hc) as (Hn & Hcompl & Hren).
    split; [done|]. split; [done|].
    intros q t Hq. apply elem_of_app. right. by apply Hren.
Qed.

Section Exhaustive.

Variable valueToEstree : JsValue -> Result Expression.
Variable registry : gmap string MdxTransformRule.
Variable rf : gmap string MdxRenameTarget.

Local Abbreviation walk fuel :=
  (visit_fuel fuel isNamedMdxJsxFlowElement
              (renameVisitor valueToEstree rf (scopeComponentNames registry))).

(** The three ways a flow element is found after a completed walk. *)
Local Abbreviation settled renamed q a :=
  ((exists t, (q, t) ∈ renamed
              /\ name a = Some (component_name (component t))
              /\ buildAttributes valueToEstree (component_props (component t))
                 = Ok (attributes a))
   \/ exists k, name a = Some k
                /\ (is_Some (registry !! k) \/ get_property rf k = NotFound)).

Lemma applyFlowRename_ok (n : Node) (t : MdxRenameTarget) :
  (applyFlowRename valueToEstree n t).2 = Ok tt ->
  buildAttributes valueToEstree (component_props (component t))
  = Ok (attributes (applyFlowRename valueToEstree n t).1).
Proof.
  unfold applyFlowRename.
  destruct (buildAttributes _ _); [destruct (policy_is_clear t)|]; done.
Qed.

Lemma is_boundary_set_children (n : Node) (cs : list Node) :
  is_boundary registry (set_children n cs) = is_boundary registry n.
Proof. reflexivity. Qed.

Lemma walk_exhaustive (fuel : nat) (p : Path) (n : Node) (q : Path) (a : Node) :
  p <> [] ->
  r_completion (walk fuel p n) = Returned tt ->
  node_at (r_node (walk fuel p n)) q = Some a ->
  isNamedMdxJsxFlowElement a = true ->
  below (is_boundary registry) (r_node (walk fuel p n)) q = false ->
  settled (r_renamed (walk fuel p n)) q a.
Proof.
  revert p n q. induction fuel as [|fuel IH]; intros p n q Hp; [done|].
  assert (Hloop : forall n0 i q',
            l_completion (visit_children (walk fuel) p 0 (children n0)) = Returned tt ->
            node_at (set_children n0
                       (l_nodes (visit_children (walk fuel) p 0 (children n0))))
                    (i :: q') = Some a ->
            isNamedMdxJsxFlowElement a = true ->
            below (is_boundary registry)
                  (set_children n0
                     (l_nodes (visit_children (walk fuel) p 0 (children n0))))
                  (i :: q') = false ->
            settled (l_renamed (visit_children (walk fuel) p 0 (children n0)))
                    (i :: q') a).
  { intros n0 i q' Hl Ha Hflow Hb.
    rewrite node_at_cons in Ha. cbn [below children set_children] in Ha, Hb.
    apply orb_false_iff in Hb as [_ Hb].
    destruct (l_nodes _ !! i) as [c'|] eqn:Hc'; [|done]. simpl in Ha.
    destruct (visit_children_nodes_inv _ _ _ _ _ _ Hc') as (c & Hc & _).
    destruct (visit_children_returned _ p 0 _ Hl i c Hc) as (Hn & Hcompl & Hren).
    cbn [Nat.add] in *. rewrite Hn in Hc'. injection Hc' as <-.
    destruct (IH (p ++ [i]) c q' ltac:(by destruct p) Hcompl Ha Hflow Hb)
      as [(t & Ht & Hname & Hattrs)|Hrest]; [|by right].
    left. exists t. split; [by apply Hren|done]. }
  destruct (walk_S valueToEstree rf (scopeComponentNames registry) fuel p n)
    as [[Hw Hc]|[[Hw (_ & Hflow & k & Hk & Hin)]
                |[(k & t0 & _ & _ & Hk & Hin & Ht0 & Hw)|[Hw _]]]];
    [| | |by rewrite Hw].
  - cbv zeta in Hw. rewrite Hw. cbn [r_completion r_node r_renamed].
    destruct q as [|i q']; [|by apply Hloop].
    intros _ [= <-] Hflow _. right.
    change (isNamedMdxJsxFlowElement n = true) in Hflow.
    destruct Hc as [Hc|[Hc|(k & Hk & _ & Hnone)]]; [congruence|done|].
    exists k. split; [done|]. right. by apply get_property_not_found.
  - rewrite Hw. cbn [r_completion r_node r_renamed].
    assert (HB : is_boundary registry n = true).
    { unfold is_boundary. rewrite Hflow, Hk. simpl. apply bool_decide_eq_true.
      by apply elem_of_dom. }
    destruct q as [|i q'].
    + intros _ [= <-] _ _. right. exists k. split; [done|]. left.
      by apply elem_of_dom.
    + intros _ _ _ Hb. cbn [below] in Hb. by rewrite HB in Hb.
  - cbv zeta in Hw.
    pose proof (applyFlowRename_ok n t0) as Hok.
    destruct ((applyFlowRename valueToEstree n t0).2) as [[]|e]; rewrite Hw;
      cbn [r_completion r_node r_renamed]; [|done].
    destruct q as [|i q'].
    + intros _ [= <-] _ _. left. exists t0. split; [apply list_elem_of_here|].
      cbn [name attributes set_children]. split; [apply applyFlowRename_name|].
      by apply Hok.
    + intros Hl Ha Hfl Hb.
      destruct (Hloop _ i q' Hl Ha Hfl Hb) as [(t & Ht & Hrest)|Hrest]; [|by right].
      left. exists t. split; [by apply list_elem_of_further|done].
Qed.

End Exhaustive.

Section ExhaustiveScope.

Variable valueToEstree : JsValue -> Result Expression.
Variable registry : gmap string MdxTransformRule.

(** X21. After the walk of a scope element has completed, every flow element of
    its subtree that is reached without crossing a boundary is settled: it
    has been renamed with a target of the scope's rename map, and then
    carries the target's name and the attributes built from the target, or
    it is a boundary itself, or the rename map has no rule for its tag. *)
Theorem scope_walk_exhaustive (p : Path) (scopeElement : Node) (k : string)
  (rf : gmap string MdxRenameTarget) (i : nat) (c : Node) (q : Path) (a : Node) :
  name scopeElement = Some k ->
  rename_map_of registry k rf ->
  v_completion (createScopeVisitor valueToEstree registry
                  (scopeComponentNames registry) p scopeElement) = Returned CONTINUE ->
  children (v_node (createScopeVisitor valueToEstree registry
                      (scopeComponentNames registry) p scopeElement)) !! i = Some c ->
  node_at c q = Some a ->
  isNamedMdxJsxFlowElement a = true ->
  below (is_boundary registry) c q = false ->
  (exists source t,
      (i :: q, t) ∈ v_renamed (createScopeVisitor valueToEstree registry
                                 (scopeComponentNames registry) p scopeElement)
      /\ rf !! source = Some t
      /\ name a = Some (component_name (component t))
      /\ buildAttributes valueToEstree (component_props (component t))
         = Ok (attributes a))
  \/ exists k0, name a = Some k0 /\ (is_Some (registry !! k0) \/ rf !! k0 = None).
Proof.
  intros Hk (rule & Hrule & Hread).
  unfold createScopeVisitor. rewrite Hk. simpl. rewrite Hrule. simpl. rewrite Hread.
  cbn [v_completion v_node v_renamed]. unfold visit. rewrite height_eq, walk_root.
  cbn [r_completion r_node r_renamed children set_children].
  intros Hl Hc Ha Hflow Hb.
  assert (Hl' : l_completion
                  (visit_children
                     (visit_fuel (max_height (children scopeElement))
                        isNamedMdxJsxFlowElement
                        (renameVisitor valueToEstree rf (scopeComponentNames registry)))
                     [] 0 (children scopeElement)) = Returned tt).
  { destruct (l_completion _) as [[]| |]; done. }
  destruct (visit_children_nodes_inv _ _ _ _ _ _ Hc) as (c0 & Hc0 & _).
  destruct (visit_children_returned _ [] 0 _ Hl' i c0 Hc0) as (Hn & Hcompl & Hren).
  cbn [Nat.add] in *. rewrite Hn in Hc. injection Hc as <-.
  destruct (walk_exhaustive valueToEstree registry rf
              (max_height (children scopeElement)) ([] ++ [i]) c0 q a)
    as [(t & Ht & Hname & Hattrs)|(k0 & Hk0 & Hcase)]; [done..| |].
  2:{ right. exists k0. split; [done|].
      destruct Hcase as [Hkey|Hnone]; [by left|right].
      by apply get_property_not_found in Hnone as [? _]. }
  left. destruct (inner_renamed valueToEstree registry rf _ _ _ _ _ Ht) as [[source Hs] _].
  exists source, t. split; [by apply Hren|done].
Qed.

End ExhaustiveScope.

(** ** Applying the transformation twice *)

Section Idempotence.

Variable valueToEstree : JsValue -> Result Expression.
Variable registry : gmap string MdxTransformRule.

Local Abbreviation visitor :=
  (createScopeVisitor valueToEstree registry (scopeComponentNames registry)).

Local Abbreviation outer fuel :=
  (visit_fuel fuel (shouldProcessScope registry) visitor).

Local Abbreviation inner rf fuel :=
  (visit_fuel fuel isNamedMdxJsxFlowElement
              (renameVisitor valueToEstree rf (scopeComponentNames registry))).

(** A lookup in rename map [rf] finds nothing for a flow element that is
    reached from [n] without crossing a boundary and is no boundary
    itself. *)
Local Abbreviation region_quiet rf n :=
  (forall q a k, node_at n q = Some a -> isNamedMdxJsxFlowElement a = true ->
                 below (is_boundary registry) n q = false ->
                 is_boundary registry a = false -> name a = Some k ->
                 get_property rf k = NotFound).

(** Every flow element of the tree whose tag declares a rename map has
    children that are quiet under this map. *)
Local Abbreviation tree_quiet n :=
  (forall pR R k rf i c,
      node_at n pR = Some R -> isNamedMdxJsxFlowElement R = true ->
      name R = Some k -> rename_map_of registry k rf ->
      children R !! i = Some c -> region_quiet rf c).

Lemma is_boundary_fields (a b : Node) :
  type a = type b -> name a = name b ->
  is_boundary registry a = is_boundary registry b.
Proof.
  intros Ht Hn. unfold is_boundary, isNamedMdxJsxFlowElement. by rewrite Ht, Hn.
Qed.

Lemma isNamed_fields (a b : Node) :
  type a = type b -> name a = name b ->
  isNamedMdxJsxFlowElement a = isNamedMdxJsxFlowElement b.
Proof. intros Ht Hn. unfold isNamedMdxJsxFlowElement. by rewrite Ht, Hn. Qed.

Lemma region_quiet_child (rf : gmap string MdxRenameTarget) (n : Node) (i : nat)
  (c : Node) :
  is_boundary registry n = false -> children n !! i = Some c ->
  region_quiet rf n -> region_quiet rf c.
Proof.
  intros Hb Hc Hn q a k Ha Hflow Hbelow Hnb Hk.
  apply (Hn (i :: q) a k); try done.
  - by rewrite node_at_cons, Hc.
  - cbn [below]. by rewrite Hb, Hc.
Qed.

Lemma inner_quiet_step (rf : gmap string MdxRenameTarget) (p : Path) (n : Node) :
  (p = [] -> forall i c, children n !! i = Some c -> region_quiet rf c)
  /\ (p <> [] -> region_quiet rf n) ->
  let vr := if isNamedMdxJsxFlowElement n
            then renameVisitor valueToEstree rf (scopeComponentNames registry) p n
            else mkVisitorResult n [] (Returned CONTINUE) in
  v_renamed vr = [] /\ v_node vr = n
  /\ (forall e, v_completion vr <> Threw e)
  /\ (v_completion vr = Returned CONTINUE ->
      forall i c, children n !! i = Some c ->
        (p ++ [i] = [] -> forall j d, children c !! j = Some d -> region_quiet rf d)
        /\ (p ++ [i] <> [] -> region_quiet rf c)).
Proof.
  intros [H0 H1]. cbv zeta.
  assert (Hnext : forall i c, region_quiet rf c ->
            (p ++ [i] = [] -> forall j d, children c !! j = Some d -> region_quiet rf d)
            /\ (p ++ [i] <> [] -> region_quiet rf c)).
  { intros i c Hc. split; [by destruct p|done]. }
  destruct (decide (p = [])) as [->|Hp].
  { assert (Hv : (if isNamedMdxJsxFlowElement n
                  then renameVisitor valueToEstree rf (scopeComponentNames registry) [] n
                  else mkVisitorResult n [] (Returned CONTINUE))
                 = mkVisitorResult n [] (Returned CONTINUE)).
    { by destruct (isNamedMdxJsxFlowElement n). }
    rewrite Hv. cbn [v_renamed v_node v_completion].
    split; [done|]. split; [done|]. split; [done|].
    intros _ i c Hc. apply Hnext. by apply (H0 eq_refl i c). }
  specialize (H1 Hp).
  destruct (isNamedMdxJsxFlowElement n) eqn:Hflow.
  - unfold renameVisitor. rewrite bool_decide_eq_false_2 by done.
    destruct (name n) as [k|] eqn:Hk.
    2:{ unfold isNamedMdxJsxFlowElement in Hflow. rewrite Hk in Hflow.
        apply andb_true_iff in Hflow as [_ Hs]. apply bool_decide_eq_true in Hs.
        by destruct Hs. }
    case_bool_decide as Hin; [done|].
    assert (Hnb : is_boundary registry n = false).
    { unfold is_boundary. rewrite Hflow, Hk. simpl. apply bool_decide_eq_false.
      intros Hs. apply Hin. by apply elem_of_dom. }
    rewrite (H1 [] n k eq_refl Hflow eq_refl Hnb Hk).
    cbn [v_renamed v_node v_completion]. split; [done|]. split; [done|]. split; [done|].
    intros _ i c Hc. apply Hnext. by apply (region_quiet_child rf n i c).
  - cbn [v_renamed v_node v_completion]. split; [done|]. split; [done|]. split; [done|].
    intros _ i c Hc. apply Hnext. apply (region_quiet_child rf n i c); [|done..].
    unfold is_boundary. by rewrite Hflow.
Qed.

Lemma inner_quiet (rf : gmap string MdxRenameTarget) (fuel : nat) (n : Node) :
  (forall i c, children n !! i = Some c -> region_quiet rf c) ->
  r_renamed (inner rf fuel [] n) = []
  /\ forall e, r_completion (inner rf fuel [] n) <> Threw e.
Proof.
  intros H.
  apply (visit_fuel_quiet _ _
           (fun p n => (p = [] -> forall i c, children n !! i = Some c -> region_quiet rf c)
                       /\ (p <> [] -> region_quiet rf n))
           (inner_quiet_step rf)).
  split; [done|done].
Qed.

Lemma tree_quiet_child (n : Node) (i : nat) (c : Node) :
  children n !! i = Some c -> tree_quiet n -> tree_quiet c.
Proof.
  intros Hc Hn pR R k rf j d HR. apply (Hn (i :: pR)). by rewrite node_at_cons, Hc.
Qed.

Lemma outer_quiet_step (p : Path) (n : Node) :
  tree_quiet n ->
  let vr := if shouldProcessScope registry n then visitor p n
            else mkVisitorResult n [] (Returned CONTINUE) in
  v_renamed vr = [] /\ v_node vr = n
  /\ (forall e, v_completion vr <> Threw e)
  /\ (v_completion vr = Returned CONTINUE ->
      forall i c, children n !! i = Some c -> tree_quiet c).
Proof.
  intros Hn. cbv zeta.
  assert (Hchildren : forall i c, children n !! i = Some c -> tree_quiet c).
  { intros i c Hc. by apply (tree_quiet_child n i c). }
  destruct (shouldProcessScope registry n) eqn:Htest; [|done].
  assert (Hquiet : v_renamed (visitor p n) = []
                   /\ forall e, v_completion (visitor p n) <> Threw e).
  { destruct (visitor_cases valueToEstree registry p n)
      as [-> | (k & rf & fuel & Hk & Hrf & _ & ->)]; [done|].
    cbn [v_renamed v_completion].
    destruct (inner_quiet rf (Datatypes.S fuel) n) as [Hr Hno].
    { intros i c Hc. apply (Hn [] n k rf i c); try done.
      by apply shouldProcessScope_spec in Htest as [? _]. }
    split; [done|]. intros e. destruct (r_completion _) eqn:Hc; try done.
    intros [= ->]. by destruct (Hno e). }
  destruct Hquiet as [Hren Hno].
  split; [done|]. split; [|done].
  by apply visitor_unchanged.
Qed.

Lemma outer_quiet (fuel : nat) (p : Path) (n : Node) :
  tree_quiet n ->
  r_renamed (outer fuel p n) = [] /\ forall e, r_completion (outer fuel p n) <> Threw e.
Proof.
  apply (visit_fuel_quiet _ _ (fun _ n => tree_quiet n)).
  intros p' n' H. by apply outer_quiet_step.
Qed.

Lemma at_node_fields (p : Path) (n : Node) :
  let vr := if shouldProcessScope registry n then visitor p n
            else mkVisitorResult n [] (Returned CONTINUE) in
  type (v_node vr) = type n /\ name (v_node vr) = name n.
Proof.
  cbv zeta. destruct (shouldProcessScope registry n); [|done].
  destruct (visitor_root valueToEstree registry p n) as [H _].
  unfold own_fields in H. by injection H.
Qed.

Lemma outer_root_fields (fuel : nat) (p : Path) (n : Node) :
  type (r_node (outer fuel p n)) = type n /\ name (r_node (outer fuel p n)) = name n.
Proof.
  destruct fuel as [|fuel]; [done|]. rewrite visit_fuel_S.
  pose proof (at_node_fields p n) as H. cbv zeta in H.
  by destruct (v_completion _) as [[|]|e0|]; cbn [r_node].
Qed.

(** The outer traversal changes nothing above the boundaries: a node of the
    result with no boundary above it has the type and the tag it had, and
    had no boundary above it. *)
Lemma outer_above_boundaries (fuel : nat) (p : Path) (n : Node) (q : Path) (a' : Node) :
  node_at (r_node (outer fuel p n)) q = Some a' ->
  below (is_boundary registry) (r_node (outer fuel p n)) q = false ->
  exists a, node_at n q = Some a /\ type a' = type a /\ name a' = name a
            /\ below (is_boundary registry) n q = false.
Proof.
  revert p n q. induction fuel as [|fuel IH]; intros p n q.
  { cbn [visit_fuel r_node]. intros Ha Hb. by exists a'. }
  destruct q as [|i q].
  { intros [= <-] _. exists n. split; [done|].
    destruct (outer_root_fields (S fuel) p n) as [Ht Hn]. done. }
  intros Ha Hb.
  assert (Hroot : is_boundary registry (r_node (outer (S fuel) p n)) = false).
  { cbn [below] in Hb. by apply orb_false_iff in Hb as [? _]. }
  assert (Hnb : is_boundary registry n = false).
  { rewrite <- Hroot. symmetry.
    destruct (outer_root_fields (S fuel) p n) as [Ht Hn]. by apply is_boundary_fields. }
  assert (Htest : shouldProcessScope registry n = false).
  { destruct (shouldProcessScope registry n) eqn:Ht; [|done].
    apply shouldProcessScope_boundary in Ht as [Hflow (k & Hk & Hin)].
    unfold is_boundary in Hnb. rewrite Hflow, Hk in Hnb. simpl in Hnb.
    apply bool_decide_eq_false in Hnb. destruct Hnb. by apply elem_of_dom. }
  revert Ha Hb. rewrite visit_fuel_S, Htest. cbn [v_completion v_node r_node].
  rewrite node_at_cons. cbn [below children set_children].
  intros Ha Hb. apply orb_false_iff in Hb as [_ Hb].
  destruct (l_nodes _ !! i) as [c'|] eqn:Hc'; [|done]. simpl in Ha.
  apply visit_children_nodes_inv in Hc' as (c & Hc & Hcase).
  assert (Hchild : exists a, node_at c q = Some a /\ type a' = type a
                             /\ name a' = name a
                             /\ below (is_boundary registry) c q = false).
  { destruct Hcase as [-> | ->]; [exact (IH _ _ _ Ha Hb)|by exists a']. }
  destruct Hchild as (a & Hq & Ht & Hn & Hbelow). exists a.
  split; [by rewrite node_at_cons, Hc|]. split; [done|]. split; [done|].
  cbn [below]. by rewrite Hnb, Hc.
Qed.

Lemma rename_map_unique (k : string) (rf1 rf2 : gmap string MdxRenameTarget) :
  rename_map_of registry k rf1 -> rename_map_of registry k rf2 -> rf1 = rf2.
Proof. intros (r1 & H1 & E1) (r2 & H2 & E2). congruence. Qed.

Hypothesis targets_inert : no_target_is_found registry.

Lemma target_has_no_rule (scope1 scope2 : string) (rf1 rf2 : gmap string MdxRenameTarget)
  (source : string) (t : MdxRenameTarget) :
  rename_map_of registry scope1 rf1 -> rf1 !! source = Some t ->
  rename_map_of registry scope2 rf2 ->
  get_property rf2 (component_name (component t)) = NotFound.
Proof.
  intros H1 Ht H2. destruct (targets_inert scope1 rf1 source t H1 Ht) as [Hproto Hkeys].
  apply get_property_not_found. split; [|done].
  destruct (rf2 !! _) as [t'|] eqn:Ht'; [|done].
  by destruct (Hkeys scope2 rf2 _ t' H2 Ht').
Qed.

(** After a completed scope walk, the rename map has nothing left to do in
    the part of the subtree that it walks. *)
Lemma scope_walk_quiet (p : Path) (n : Node) (k : string)
  (rf : gmap string MdxRenameTarget) (i : nat) (c : Node) :
  name n = Some k -> rename_map_of registry k rf ->
  v_completion (visitor p n) = Returned CONTINUE ->
  children (v_node (visitor p n)) !! i = Some c ->
  region_quiet rf c.
Proof.
  intros Hk Hrf. pose proof Hrf as (rule & Hrule & Hread).
  unfold createScopeVisitor. rewrite Hk. simpl. rewrite Hrule. simpl. rewrite Hread.
  cbn [v_completion v_node]. unfold visit. rewrite height_eq, walk_root.
  cbn [r_completion r_node children set_children].
  intros Hl Hc q a k0 Ha Hflow Hb Hnb Hk0.
  assert (Hl' : l_completion
                  (visit_children (inner rf (max_height (children n)))
                     [] 0 (children n)) = Returned tt).
  { destruct (l_completion _) as [[]| |]; done. }
  destruct (visit_children_nodes_inv _ _ _ _ _ _ Hc) as (c0 & Hc0 & _).
  destruct (visit_children_returned _ [] 0 _ Hl' i c0 Hc0) as (Hn & Hcompl & _).
  cbn [Nat.add] in *. rewrite Hn in Hc. injection Hc as <-.
  destruct (walk_exhaustive valueToEstree registry rf
              (max_height (children n)) ([] ++ [i]) c0 q a)
    as [(t & Ht & Hname & _)|(k1 & Hk1 & Hcase)]; [done..| |].
  - destruct (inner_renamed valueToEstree registry rf _ _ _ _ _ Ht) as [[source Hs] _].
    rewrite Hk0 in Hname. injection Hname as ->.
    by apply (target_has_no_rule k k rf rf source t).
  - rewrite Hk0 in Hk1. injection Hk1 as <-.
    destruct Hcase as [Hkey|Hnone]; [|done].
    unfold is_boundary in Hnb. rewrite Hflow, Hk0 in Hnb. simpl in Hnb.
    apply bool_decide_eq_false in Hnb. by destruct Hnb.
Qed.

(** A completed transformation leaves a tree in which every scope is
    quiet. *)
Lemma outer_establishes_quiet (fuel : nat) (p : Path) (n : Node) :
  r_completion (outer fuel p n) = Returned tt ->
  tree_quiet (r_node (outer fuel p n)).
Proof.
  revert p n. induction fuel as [|fuel IH]; intros p n; [done|].
  rewrite visit_fuel_S.
  pose proof (at_node_fields p n) as Hfields. cbv zeta in Hfields.
  destruct Hfields as [Htype Hname].
  destruct (v_completion _) as [[|]|e0|] eqn:Hv; cbn [r_completion r_node]; try done.
  - intros Hl pR R k rf i c HR Hflow Hk Hrf Hc.
    destruct pR as [|j pR].
    + injection HR as <-. cbn [children set_children name] in *.
      assert (Hflow_n : isNamedMdxJsxFlowElement n = true).
      { rewrite <- Hflow. symmetry. by apply isNamed_fields. }
      rewrite Hname in Hk.
      assert (Htest : shouldProcessScope registry n = true).
      { apply shouldProcessScope_spec. split; [done|]. exists k. split; [done|].
        destruct Hrf as (rule & Hrule & Hread).
        apply elem_of_activeScopeNames. exists rule. split; [done|].
        by destruct (renameFlow rule). }
      rewrite Htest in *.
      destruct (visit_children_nodes_inv _ _ _ _ _ _ Hc) as (c0 & Hc0 & _).
      destruct (visit_children_returned _ p 0 _ Hl i c0 Hc0) as (Hn & _ & _).
      cbn [Nat.add] in *. rewrite Hn in Hc. injection Hc as <-.
      pose proof (scope_walk_quiet p n k rf i c0 Hk Hrf Hv Hc0) as Hquiet.
      intros q a k0 Ha Hfa Hb Hnb Hk0.
      destruct (outer_above_boundaries _ _ _ _ _ Ha Hb) as (a0 & Ha0 & Ht0 & Hn0 & Hb0).
      apply (Hquiet q a0 k0); try done.
      * rewrite <- Hfa. symmetry. by apply isNamed_fields.
      * rewrite <- Hnb. symmetry. by apply is_boundary_fields.
      * by rewrite <- Hn0.
    + rewrite node_at_cons in HR. cbn [children set_children] in HR.
      destruct (l_nodes _ !! j) as [c'|] eqn:Hc'; [|done]. simpl in HR.
      destruct (visit_children_nodes_inv _ _ _ _ _ _ Hc') as (c0 & Hc0 & _).
      destruct (visit_children_returned _ p 0 _ Hl j c0 Hc0) as (Hn & Hcompl & _).
      cbn [Nat.add] in *. rewrite Hn in Hc'. injection Hc' as <-.
      by apply (IH _ _ Hcompl pR R k rf i c).
  - intros _. destruct (shouldProcessScope registry n); [|done].
    by destruct (visitor_never_skips valueToEstree registry p n).
Qed.

(** X22. When no lookup in a rename map finds the tag name of a rewrite
    target (the name is no source key of any rename map and no property name
    of [Object.prototype]), the transformation is idempotent on the documents
    it completes on: applied to its own result it applies no rename, returns
    the tree unchanged and completes. *)
Theorem transformation_idempotent (tree : Node) :
  r_completion (remarkScopedMdx valueToEstree registry tree) = Returned tt ->
  let once := r_node (remarkScopedMdx valueToEstree registry tree) in
  r_renamed (remarkScopedMdx valueToEstree registry once) = []
  /\ r_node (remarkScopedMdx valueToEstree registry once) = once
  /\ r_completion (remarkScopedMdx valueToEstree registry once) = Returned tt.
Proof.
  intros Hc once.
  pose proof (remarkScopedMdx_terminates valueToEstree registry once) as Hterm.
  assert (Hquiet : r_renamed (remarkScopedMdx valueToEstree registry once) = []
                   /\ forall e, r_completion (remarkScopedMdx valueToEstree registry once)
                                <> Threw e).
  { unfold remarkScopedMdx at 1 2, visit. apply outer_quiet.
    unfold once, remarkScopedMdx, visit. by apply outer_establishes_quiet. }
  destruct Hquiet as [Hnil Hno]. split; [done|].
  destruct (unchanged_without_rename_aux valueToEstree registry once Hnil) as [Hn _].
  split; [done|].
  destruct (r_completion (remarkScopedMdx valueToEstree registry once)) as [[]|e|];
    [done|by destruct (Hno e)|done].
Qed.

End Idempotence.

(** ** The further properties on concrete inputs *)

(** What a plain object inherits. *)
Example inherited_properties :
  Forall (fun key => get_property (∅ : gmap string MdxRenameTarget) key = FoundInherited)
         ["constructor"; "__defineGetter__"; "__defineSetter__"; "hasOwnProperty";
          "__lookupGetter__"; "__lookupSetter__"; "isPrototypeOf";
          "propertyIsEnumerable"; "toString"; "valueOf"; "__proto__"; "toLocaleString"]
  /\ get_property (∅ : gmap string MdxRenameTarget) "mark" = NotFound
  /\ get_property ({[ "toString" := renameTo "Blank" ]} : gmap string MdxRenameTarget)
                  "toString"
     = FoundOwn (renameTo "Blank").
Proof. split; [|done]. repeat constructor. Qed.

(** An element named [constructor] inside a scope: the lookup in the rename
    map finds the inherited function, the rename applier throws before it
    touches the element, and the [mark] elements after it stay as they
    are. *)
Example inherited_name_throws :
  r_completion (remarkScopedMdx referenceValueToEstree registry_blank tree_inherited)
  = Threw (ThrownError "Cannot read properties of undefined (reading 'name')")
  /\ r_node (remarkScopedMdx referenceValueToEstree registry_blank tree_inherited)
     = tree_inherited
  /\ r_renamed (remarkScopedMdx referenceValueToEstree registry_blank tree_inherited)
     = [].
Proof. vm_compute. done. Qed.

(** A definition named [__proto__] gives the derived registry no key. *)
Example derived_without_proto :
  deriveMdxTransformRegistry definitions_proto
  = {[ "Scope" := scopeRule [("mark", renameTo "Blank")] ]}.
Proof. vm_compute. reflexivity. Qed.

(** Requested ids: an inherited name is bound and a missing name is not;
    with [__proto__] among them the prototype of the result is replaced. *)
Example loaded_inherited_id :
  getLoadableComponents resolve_path resolve_inherited loadable_nested
    (Some ["toString"; "A"; "missing"])
  = Object {[ "toString" := "undefined"; "A" := "dynamic:./a" ]}
  /\ getLoadableComponents resolve_path resolve_inherited loadable_nested
       (Some ["toString"; "A"; "__proto__"; "missing"])
     = PrototypeReplaced
  /\ getLoadableComponents resolve_path resolve_inherited loadable_nested None
     = Object ∅.
Proof. vm_compute. done. Qed.

(** A rule authored for [__proto__] in a registry without such an entry. *)
Example define_replaces_prototype :
  defineComponents registry_authored (Some build_proto) = PrototypeReplaced
  /\ defineComponents registry_authored (Some build_authored) = Object registry_defined
  /\ defineComponents registry_authored None = Object registry_authored.
Proof. vm_compute. done. Qed.

Lemma encodable_registry_check (valueToEstree : JsValue -> Result Expression)
  (registry : gmap string MdxTransformRule) :
  every_target_check registry
    (fun _ _ target =>
       match component_props (component target) with
       | None => true
       | Some entries =>
           forallb (fun entry : string * JsValue =>
                      is_undefined entry.2 || is_true_value entry.2
                      || match valueToEstree entry.2 with
                         | Ok _ => true
                         | Throw _ => false
                         end) entries
       end) = true ->
  every_target registry
    (fun _ _ target =>
       forall entries, component_props (component target) = Some entries ->
                       Forall (fun entry : string * JsValue =>
                                 encodable valueToEstree entry.2) entries).
Proof.
  intros H scope rf source target Hrf Ht entries Hp.
  pose proof (every_target_check_spec _ _ H scope rf source target Hrf Ht) as Hok.
  simpl in Hok. rewrite Hp in Hok. rewrite forallb_forall in Hok.
  apply Forall_forall. intros [k v] Hin. apply list_elem_of_In in Hin.
  specialize (Hok _ Hin). simpl in Hok. unfold encodable. simpl.
  destruct (is_undefined v); [by left|].
  destruct (is_true_value v); [by right; left|].
  right. right. destruct (valueToEstree v); [eauto|discriminate].
Qed.

Lemma buildAttributes_defined_entries_witness :
  Forall2 (fun (entry : string * JsValue) a =>
             toMdxAttribute referenceValueToEstree entry.1 entry.2 = Ok a
             /\ exists v, a = MdxJsxAttribute entry.1 v)
          (filter (fun entry : string * JsValue => is_undefined entry.2 = false)
                  props_mixed)
          [MdxJsxAttribute "tone"
             (ValueExpression
                (mkValueExpression EmptyString
                   (mkProgram "module" [ExpressionStatement (StringLiteral "info")])));
           MdxJsxAttribute "open" ValueNull].
Proof.
  apply (buildAttributes_defined_entries referenceValueToEstree props_mixed).
  reflexivity.
Defined.

Lemma expansion_extensive_monotone_witness :
  expandHydratedComponentNames {[ "Article" ]} definitions_chain
  ⊆ expandHydratedComponentNames {[ "Article"; "Card" ]} definitions_chain.
Proof.
  apply (proj2 (expansion_extensive_monotone {[ "Article" ]} {[ "Article"; "Card" ]}
                  definitions_chain)).
  compute_done.
Defined.

Lemma derive_after_defineComponents_witness :
  deriveMdxTransformRegistry (transformAware registry_defined) !! "Scope"
  = if decide ("Scope" = "__proto__") then None
    else match build_authored createTransformContext !! "Scope" with
         | Some (Some rule) => Some rule
         | _ => registry_authored !! "Scope" ≫= entry_mdxTransform
         end.
Proof.
  apply (derive_after_defineComponents registry_authored registry_defined
           build_authored "Scope").
  vm_compute. reflexivity.
Defined.

Lemma authored_flow_activates_scope_witness :
  "Scope" ∈ activeScopeNames (deriveMdxTransformRegistry (transformAware registry_defined))
  /\ rename_map_of (deriveMdxTransformRegistry (transformAware registry_defined))
       "Scope" (author_blank (mkToContext (fun target => target))).
Proof.
  apply (authored_flow_activates_scope registry_authored registry_defined
           build_authored "Scope" author_blank).
  - vm_compute. reflexivity.
  - done.
  - vm_compute. reflexivity.
Defined.

Lemma renames_unregistered_flow_elements_witness :
  (exists scope rf source,
      rename_map_of registry_nested scope rf /\ rf !! source = Some (renameTo "A"))
  /\ exists m, node_at tree_nested [0; 0] = Some m
               /\ renamable registry_nested m = true.
Proof.
  apply (renames_unregistered_flow_elements referenceValueToEstree registry_nested
           tree_nested [0; 0] (renameTo "A")).
  apply (list_elem_of_lookup_2 _ 0). vm_compute. reflexivity.
Defined.

Lemma result_keeps_shape_witness :
  exists m,
    node_at tree_nested [0; 1] = Some m
    /\ type (flow "Inner" [flow "B" []]) = type m
    /\ value (flow "Inner" [flow "B" []]) = value m
    /\ (renamable registry_nested m = false ->
        own_fields (flow "Inner" [flow "B" []]) = own_fields m).
Proof.
  apply (result_keeps_shape referenceValueToEstree registry_nested tree_nested [0; 1]
           (flow "Inner" [flow "B" []])).
  vm_compute. reflexivity.
Defined.

Lemma unchanged_without_rename_witness :
  r_node (remarkScopedMdx referenceValueToEstree registry_blank tree_inherited)
  = tree_inherited
  /\ (r_completion (remarkScopedMdx referenceValueToEstree registry_blank tree_inherited)
      = Returned tt
      \/ r_completion (remarkScopedMdx referenceValueToEstree registry_blank
                         tree_inherited)
         = Threw (ThrownError "Cannot read properties of undefined (reading 'name')")).
Proof.
  apply (unchanged_without_rename referenceValueToEstree registry_blank tree_inherited).
  vm_compute. reflexivity.
Defined.

Lemma no_scope_no_change_witness :
  r_node (remarkScopedMdx referenceValueToEstree registry_nested tree_plain) = tree_plain
  /\ r_renamed (remarkScopedMdx referenceValueToEstree registry_nested tree_plain) = []
  /\ r_completion (remarkScopedMdx referenceValueToEstree registry_nested tree_plain)
     = Returned tt.
Proof.
  apply (no_scope_no_change referenceValueToEstree registry_nested tree_plain).
  compute_done.
Defined.

Lemma thrown_errors_witness :
  (exists q t before propName propValue after error,
      last (r_renamed (remarkScopedMdx referenceValueToEstree registry_blank
                         tree_inherited)) = Some (q, t)
      /\ component_props (component t) = Some (before ++ (propName, propValue) :: after)
      /\ referenceValueToEstree propValue = Throw error
      /\ ThrownError "Cannot read properties of undefined (reading 'name')"
         = ThrownError
             ("Failed to serialize MDX prop "
              +:+ String "034"
                    (propName
                     +:+ String "034"
                           (" into an attribute expression: "
                            +:+ message_of error))))
  \/ (ThrownError "Cannot read properties of undefined (reading 'name')"
      = ThrownError "Cannot read properties of undefined (reading 'name')"
      /\ exists k,
           k ∈ object_prototype_names
           /\ (k ∈ tag_names tree_inherited
               \/ exists scope rf source t,
                    rename_map_of registry_blank scope rf /\ rf !! source = Some t
                    /\ component_name (component t) = k)).
Proof.
  apply (thrown_errors referenceValueToEstree registry_blank tree_inherited).
  vm_compute. reflexivity.
Defined.

Lemma names_check (registry : gmap string MdxTransformRule) :
  every_target_check registry
    (fun _ _ target =>
       bool_decide (component_name (component target) ∉ object_prototype_names)) = true ->
  every_target registry
    (fun _ _ target => component_name (component target) ∉ object_prototype_names).
Proof.
  intros H scope rf source target Hrf Ht.
  pose proof (every_target_check_spec _ _ H scope rf source target Hrf Ht) as Hok.
  simpl in Hok. by apply bool_decide_eq_true in Hok.
Qed.

Lemma serializable_registry_completes_witness :
  r_completion (remarkScopedMdx referenceValueToEstree registry_note tree_note)
  = Returned tt.
Proof.
  apply (serializable_registry_completes referenceValueToEstree registry_note tree_note).
  - apply encodable_registry_check. vm_compute. reflexivity.
  - apply names_check. vm_compute. reflexivity.
  - compute_done.
Defined.

Lemma expansion_covers_result_witness :
  Forall (fun k => k ∈ expandHydratedComponentNames names_nested definitions_nested)
         (tag_names (r_node (remarkScopedMdx referenceValueToEstree
                               (deriveMdxTransformRegistry definitions_nested)
                               tree_nested))).
Proof.
  apply (expansion_covers_result referenceValueToEstree definitions_nested names_nested).
  - apply no_target_is_scope_check. vm_compute. reflexivity.
  - compute_done.
Defined.

Lemma scope_walk_exhaustive_witness :
  (exists source t,
      ([0], t) ∈ v_renamed (createScopeVisitor referenceValueToEstree registry_nested
                              (scopeComponentNames registry_nested) [0] outer_scope)
      /\ (list_to_map [("para", renameTo "A")] : gmap string MdxRenameTarget) !! source
         = Some t
      /\ name (flow "A" [text "Hello"]) = Some (component_name (component t))
      /\ buildAttributes referenceValueToEstree (component_props (component t))
         = Ok (attributes (flow "A" [text "Hello"])))
  \/ exists k0, name (flow "A" [text "Hello"]) = Some k0
                /\ (is_Some (registry_nested !! k0)
                    \/ (list_to_map [("para", renameTo "A")]
                        : gmap string MdxRenameTarget) !! k0 = None).
Proof.
  apply (scope_walk_exhaustive referenceValueToEstree registry_nested [0] outer_scope
           "Outer" (list_to_map [("para", renameTo "A")]) 0 (flow "A" [text "Hello"]) []
           (flow "A" [text "Hello"])).
  - reflexivity.
  - exists (scopeRule [("para", renameTo "A")]). split; [vm_compute; reflexivity|reflexivity].
  - vm_compute. reflexivity.
  - vm_compute. reflexivity.
  - reflexivity.
  - reflexivity.
  - reflexivity.
Defined.

Lemma no_clear_check (registry : gmap string MdxTransformRule) :
  every_target_check registry (fun _ _ target => negb (policy_is_clear target)) = true ->
  every_target registry (fun _ _ target => declaredPolicy target <> Some clear).
Proof.
  intros H scope rf source target Hrf Ht Hclear.
  pose proof (every_target_check_spec _ _ H scope rf source target Hrf Ht) as Hok.
  simpl in Hok. unfold policy_is_clear in Hok. by rewrite Hclear in Hok.
Qed.

Lemma no_target_is_found_check (registry : gmap string MdxTransformRule) :
  every_target_check registry
    (fun _ _ target =>
       bool_decide (component_name (component target) ∉ object_prototype_names)
       && every_target_check registry
            (fun _ source _ =>
               negb (String.eqb source (component_name (component target))))) = true ->
  no_target_is_found registry.
Proof.
  intros H scope rf source target Hrf Ht.
  pose proof (every_target_check_spec _ _ H scope rf source target Hrf Ht) as Hok.
  simpl in Hok. apply andb_true_iff in Hok as [Hproto Hok].
  apply bool_decide_eq_true in Hproto. split; [done|].
  intros scope' rf' source' target' Hrf' Ht' Heq.
  pose proof (every_target_check_spec _ _ Hok scope' rf' source' target' Hrf' Ht') as Hok'.
  simpl in Hok'. apply negb_true_iff in Hok'. apply String.eqb_neq in Hok'. done.
Qed.

Lemma loaded_components_cover_result_witness :
  loaded_nested !! "B" = resolve_path <$> loadable_nested !! "B".
Proof.
  refine (loaded_components_cover_result referenceValueToEstree definitions_nested
            names_nested _ resolve_path resolve_inherited loadable_nested loaded_nested
            tree_nested "B" _ _ _).
  - apply no_target_is_scope_check. vm_compute. reflexivity.
  - compute_done.
  - compute_done.
  - vm_compute. reflexivity.
Defined.

Lemma no_clear_keeps_all_nodes_witness :
  is_Some (node_at (r_node (remarkScopedMdx referenceValueToEstree registry_note tree_note))
                   [0; 0; 0])
  <-> is_Some (node_at tree_note [0; 0; 0]).
Proof.
  apply (no_clear_keeps_all_nodes referenceValueToEstree registry_note).
  apply no_clear_check. vm_compute. reflexivity.
Defined.

Lemma transformation_idempotent_witness :
  r_renamed (remarkScopedMdx referenceValueToEstree registry_nested
               (r_node (remarkScopedMdx referenceValueToEstree registry_nested tree_nested)))
  = []
  /\ r_node (remarkScopedMdx referenceValueToEstree registry_nested
               (r_node (remarkScopedMdx referenceValueToEstree registry_nested tree_nested)))
     = r_node (remarkScopedMdx referenceValueToEstree registry_nested tree_nested)
  /\ r_completion
       (remarkScopedMdx referenceValueToEstree registry_nested
          (r_node (remarkScopedMdx referenceValueToEstree registry_nested tree_nested)))
     = Returned tt.
Proof.
  apply (transformation_idempotent referenceValueToEstree registry_nested).
  - apply no_target_is_found_check. vm_compute. reflexivity.
  - vm_compute. reflexivity.
Defined.

Lemma outside_scopes_untouched_witness :
  (exists a',
      node_at (r_node (remarkScopedMdx referenceValueToEstree registry_blank tree_outside))
              [0] = Some a'
      /\ own_fields a' = own_fields (flow "mark" [text "kept"]))
  /\ forall t,
       ([0], t) ∉ r_renamed (remarkScopedMdx referenceValueToEstree registry_blank
                               tree_outside).
Proof.
  apply (outside_scopes_untouched referenceValueToEstree registry_blank tree_outside [0]
           (flow "mark" [text "kept"])).
  - reflexivity.
  - vm_compute. reflexivity.
Defined.
